(** * Browser automation orchestration core: lock, attachments, recovery

    A shallow embedding of the TypeScript sources
      - [src/browser/lock.ts]               (exclusivity lock),
      - [src/browser/actions/attachments.ts] (upload, completion wait,
        visible-attachment sampling),
      - [src/browser/sessionRecovery.ts]     (session recovery),
      - [src/browser/index.ts]               (filename normalisation and the
        attachment verification step of [runBrowserMode]),
      - [src/gemini/actions.ts]             (the Gemini page actions),
      - [src/oracle/responseStore.ts]        (the index of stored responses),
    together with the properties the specification states about them and
    further properties of the code. *)

From Stdlib Require Import String Ascii List ZArith Lia Bool Arith.
From Stdlib Require Import DecimalString Permutation.
Import ListNotations.
Local Open Scope string_scope.
Local Open Scope Z_scope.

(** ** JavaScript strings

    Strings are sequences of code units; every function below is exact on
    ASCII input, and leaves other code units untouched. *)
Module JS.

Definition chars (s : string) : list ascii := list_ascii_of_string s.
Definition str (l : list ascii) : string := string_of_list_ascii l.

Definition code (c : ascii) : nat := nat_of_ascii c.

(** [\s] of a regular expression and the set [String.prototype.trim]
    removes: tab, line feed, vertical tab, form feed, carriage return,
    space. *)
Definition is_space (c : ascii) : bool :=
  let n := code c in
  ((9 <=? n) && (n <=? 13))%nat || (n =? 32)%nat.

(** [\d] *)
Definition is_digit (c : ascii) : bool :=
  let n := code c in ((48 <=? n) && (n <=? 57))%nat.

(** [[a-zA-Z0-9-]] *)
Definition is_id_char (c : ascii) : bool :=
  let n := code c in
  ((97 <=? n) && (n <=? 122))%nat || ((65 <=? n) && (n <=? 90))%nat
  || is_digit c || (n =? 45)%nat.

(** The character class of the quote-stripping pattern: the double quote
    (34) and the single quote (39). *)
Definition is_quote (c : ascii) : bool :=
  let n := code c in (n =? 34)%nat || (n =? 39)%nat.

Definition lower_char (c : ascii) : ascii :=
  let n := code c in
  if ((65 <=? n) && (n <=? 90))%nat then ascii_of_nat (n + 32) else c.

(** [s.toLowerCase()] *)
Definition toLowerCase (s : string) : string := str (map lower_char (chars s)).

Fixpoint drop_while {A} (p : A -> bool) (l : list A) : list A :=
  match l with
  | [] => []
  | x :: r => if p x then drop_while p r else l
  end.

Fixpoint take_while {A} (p : A -> bool) (l : list A) : list A :=
  match l with
  | [] => []
  | x :: r => if p x then x :: take_while p r else []
  end.

Definition drop_while_end {A} (p : A -> bool) (l : list A) : list A :=
  rev (drop_while p (rev l)).

(** [s.trim()], on the code units of the string. *)
Definition trim_chars (l : list ascii) : list ascii :=
  drop_while_end is_space (drop_while is_space l).

(** Truthiness of a string: the empty string is falsy. *)
Definition truthy_str (s : string) : bool := negb (String.eqb s EmptyString).

(** [a === b] on values that are a string or undefined. *)
Definition opt_eqb (a b : option string) : bool :=
  match a, b with
  | Some x, Some y => String.eqb x y
  | None, None => true
  | _, _ => false
  end.

(** Truthiness of a value that is a string or undefined. *)
Definition truthy_opt (o : option string) : bool :=
  match o with
  | Some s => truthy_str s
  | None => false
  end.

Definition is_slash (c : ascii) : bool := (code c =? 47)%nat.

(** [path.basename(p)] for POSIX paths: trailing slashes are dropped and
    the last segment is kept. *)
Definition basename (p : string) : string :=
  str (rev (take_while (fun c => negb (is_slash c))
                       (drop_while is_slash (rev (chars p))))).

(** [hay.includes(needle)] *)
Fixpoint prefix_chars (p l : list ascii) : bool :=
  match p, l with
  | [], _ => true
  | _ :: _, [] => false
  | a :: p', b :: l' => Ascii.eqb a b && prefix_chars p' l'
  end.

Fixpoint includes_chars (needle hay : list ascii) : bool :=
  prefix_chars needle hay ||
  match hay with
  | [] => false
  | _ :: r => includes_chars needle r
  end.

Definition includes (hay needle : string) : bool :=
  includes_chars (chars needle) (chars hay).

End JS.

(** ** Filename normalisation ([normalizeFilename] in [runBrowserMode]) *)
Module Normalize.
Import JS.

(** The global replace of a quote at the start or a quote at the end by the
    empty string: one quote at the start and one quote at the end are
    removed, each on its own. *)
Definition strip_leading_quote (l : list ascii) : list ascii :=
  match l with
  | c :: r => if is_quote c then r else l
  | [] => []
  end.

Definition strip_trailing_quote (l : list ascii) : list ascii :=
  rev (strip_leading_quote (rev l)).

Definition strip_quotes (l : list ascii) : list ascii :=
  strip_trailing_quote (strip_leading_quote l).

(** The global replace of [\s+] by one space: every maximal run of white
    space becomes one space.  [in_run] tells that the previous character
    was white space. *)
Fixpoint collapse_from (in_run : bool) (l : list ascii) : list ascii :=
  match l with
  | [] => []
  | c :: r =>
      if is_space c
      then (if in_run then collapse_from true r
            else " "%char :: collapse_from true r)
      else c :: collapse_from false r
  end.

Definition collapse_ws (l : list ascii) : list ascii := collapse_from false l.

(** The replace of [\s*\(\d+\)$] by the empty string, read from the end
    of the string: a closing parenthesis, one or more digits, an opening
    parenthesis, and all the white space before it (the leftmost match
    takes the whole run). *)
Fixpoint span_digits (l : list ascii) : nat * list ascii :=
  match l with
  | c :: r => if is_digit c
              then let '(n, rest) := span_digits r in (S n, rest)
              else (O, l)
  | [] => (O, [])
  end.

Definition strip_count_rev (r : list ascii) : option (list ascii) :=
  match r with
  | c :: r1 =>
      if (code c =? 41)%nat then
        match span_digits r1 with
        | (S _, o :: r2) =>
            if (code o =? 40)%nat then Some (drop_while is_space r2) else None
        | _ => None
        end
      else None
  | [] => None
  end.

Definition strip_count_suffix (l : list ascii) : list ascii :=
  match strip_count_rev (rev l) with
  | Some r => rev r
  | None => l
  end.

(** [normalizeFilename] of [runBrowserMode]:
    lower case, trim, strip wrapping quotes, collapse white space, remove
    the duplicate-count suffix, trim; in this order. *)
Definition normalizeFilename (filename : string) : string :=
  str (trim_chars
        (strip_count_suffix
          (collapse_ws
            (strip_quotes
              (trim_chars (map lower_char (chars filename))))))).

End Normalize.

(** ** The remote page channel and the effects of a run

    The code talks to the browser through the DevTools protocol client
    ([ChromeClient]).  A run is deterministic once the answers of the
    channel are fixed, so the channel is a script: for every method, the
    answer the n-th call on the channel receives when it is a call of that
    method, with the time the call takes.  The world of a run is the
    script, the clock ([Date.now()], in milliseconds), the number of calls
    made so far, the session file of the profile directory, and the trace
    of what the run did (newest first). *)
Module Remote.

(** A thrown JavaScript error: [Err msg] is [new Error(msg)], or a
    rejected protocol call with that message. *)
Inductive error :=
| Err (msg : string).

(** [error.message] *)
Definition message (e : error) : string := let 'Err msg := e in msg.

(** An answer of the channel: how long the call took, and either the
    rejection or the value. *)
Record answer (A : Type) := Answer { lat : N; res : error + A }.
Arguments Answer {A}.
Arguments lat {A}.
Arguments res {A}.

(** The value of the probe expression of [waitForAttachmentCompletion],
    at the type the code casts it to:
    [{ state?: string; uploading?: boolean; url?: string }]. *)
Record probe := Probe {
  p_state : option string;
  p_uploading : option bool;
  p_url : option string
}.

(** [VisibleAttachment] *)
Record VisibleAttachment := Visible {
  filename : string;
  selector : string;
  outerHTML : option string
}.

(** [BrowserAttachment] (types.js): the fields the run reads. *)
Record BrowserAttachment := Attachment {
  path : string;
  displayPath : string
}.

(** [BrowserSession] of sessionRecovery.ts *)
Record BrowserSession := Session {
  url : string;
  timestamp : Z;
  promptText : string;
  attachmentPaths : option (list string);
  conversationId : option string;
  sessionDir : string
}.

(** The two file input selectors of constants.js, in the order
    [uploadAttachmentFile] tries them. *)
Inductive input_selector := FILE_INPUT_SELECTOR | GENERIC_FILE_INPUT_SELECTOR.

Record remote := {
  (* Runtime.evaluate of the steady-state probe: [result?.value] *)
  on_probe : nat -> answer (option probe);
  (* Runtime.evaluate of the attachment sampler *)
  on_sample : nat -> answer (option (list VisibleAttachment));
  (* Runtime.evaluate of the file-input check: [Boolean(result?.value?.matched)] *)
  on_selection : nat -> answer bool;
  (* Runtime.evaluate of [document.readyState] *)
  on_readyState : nat -> answer (option string);
  (* Runtime.evaluate of [window.location.href] *)
  on_href : nat -> answer (option string);
  (* DOM.getDocument: [root.nodeId] *)
  on_getDocument : nat -> answer Z;
  (* DOM.querySelector: [nodeId], 0 when nothing matches *)
  on_querySelector : nat -> answer Z;
  (* DOM.setFileInputFiles *)
  on_setFileInputFiles : nat -> answer unit;
  (* Page.navigate *)
  on_navigate : nat -> answer unit
}.

Inductive call :=
| CProbe | CSample | CSelection (expectedName : string) | CReadyState | CHref
| CGetDocument | CQuerySelector (root : Z) (sel : input_selector)
| CSetFileInputFiles (node : Z) (path : string) | CNavigate (target : string).

(** Lines handed to the logger; the interpolated parts are kept as
    arguments. *)
Inductive logmsg :=
| LText (s : string)
| LVerifyDetected (n : nat)
| LVerifyItem (idx : nat) (name sel : string)
| LVerifyError (e : error)
| LExpected (n : nat) (names : list string)
| LVisible (n : nat) (names : list string)
| LMissing (names : list string)
| LExtra (names : list string)
| LDomSample (idx : nat) (a : VisibleAttachment)
| LVerified (visible expected : nat)
| LStale (attempt : Z)
| LQueued (displayPath : string)
| LDomFailure (context : string)
| LWaitError (e : error)
| LAttemptRecover (target : string)
| LRecovering (target : string)
| LRecovered (conv : option string)
| LNavigatedElsewhere (current expected : string)
| LRecoverFailed (e : error).

(** One entry of the trace: a call on the channel (its number and the
    time its answer arrived), a suspension, or a logged line. *)
Inductive event :=
| Called (c : call) (k : nat) (t : Z)
| Slept (ms : Z)
| Logged (m : logmsg).

Record world := World {
  script : remote;
  now : Z;
  calls : nat;
  session_file : option BrowserSession;
  trace : list event
}.

(** How a computation ends: with a value, with a thrown error, or cut off
    by the bound on loop iterations of the model. *)
Inductive outcome (A : Type) :=
| Ok (a : A)
| Throw (e : error)
| Cut.
Arguments Ok {A}.
Arguments Throw {A}.
Arguments Cut {A}.

Definition M (A : Type) : Type := world -> outcome A * world.

Definition ret {A} (a : A) : M A := fun w => (Ok a, w).
Definition throw {A} (e : error) : M A := fun w => (Throw e, w).
Definition cut {A} : M A := fun w => (Cut, w).

Definition bind {A B} (m : M A) (f : A -> M B) : M B :=
  fun w => match m w with
           | (Ok a, w') => f a w'
           | (Throw e, w') => (Throw e, w')
           | (Cut, w') => (Cut, w')
           end.

(** [try { m } catch (error) { h error }] *)
Definition try_catch {A} (m : M A) (h : error -> M A) : M A :=
  fun w => match m w with
           | (Throw e, w') => h e w'
           | r => r
           end.

Declare Scope js_scope.
Delimit Scope js_scope with js.
Notation "x <- m ;; k" := (bind m (fun x => k))
  (at level 61, m at next level, right associativity) : js_scope.
Notation "m ;;; k" := (bind m (fun _ => k))
  (at level 61, right associativity) : js_scope.
Local Open Scope js_scope.

(** [if (b) { m }] *)
Definition when (b : bool) (m : M unit) : M unit := if b then m else ret tt.

(** [Date.now()] *)
Definition date_now : M Z := fun w => (Ok (now w), w).

Definition record (e : event) (w : world) : world :=
  World (script w) (now w) (calls w) (session_file w) (e :: trace w).

(** [logger(m)] *)
Definition log (m : logmsg) : M unit := fun w => (Ok tt, record (Logged m) w).

(** Modelled from the spec: [delay(ms)] of utils.js, which is not among
    the sources, suspends the run for [ms] milliseconds (every wait of the
    core is a sleep of its interval); a timer in the past fires at once. *)
Definition delay (ms : Z) : M unit :=
  fun w => (Ok tt, World (script w) (now w + Z.max 0 ms) (calls w)
                         (session_file w) (Slept ms :: trace w)).

(** A call on the channel: the script answers call number [calls w]; the
    clock advances by the time the call took. *)
Definition invoke {A} (c : call) (pick : remote -> nat -> answer A) : M A :=
  fun w =>
    let a := pick (script w) (calls w) in
    let t := now w + Z.of_N (lat a) in
    let w' := World (script w) t (S (calls w)) (session_file w)
                    (Called c (calls w) t :: trace w) in
    match res a with
    | inl e => (Throw e, w')
    | inr v => (Ok v, w')
    end.

End Remote.

(** ** Session recovery (sessionRecovery.ts) *)
Module Session.
Import JS Remote.
Local Open Scope js_scope.

(** One attempt of the pattern of [extractConversationId] at the head of
    the text: [/c/] or [/g/] followed by one or more of [[a-zA-Z0-9-]];
    the capture takes all of them. *)
Definition match_here (l : list ascii) : option (list ascii) :=
  match l with
  | s1 :: r :: s2 :: rest =>
      if ((code s1 =? 47) && (code s2 =? 47)
          && ((code r =? 99) || (code r =? 103)))%nat
      then match take_while is_id_char rest with
           | [] => None
           | id => Some id
           end
      else None
  | _ => None
  end.

(** The leftmost match of the pattern in the text. *)
Fixpoint first_match (l : list ascii) : option (list ascii) :=
  match match_here l with
  | Some id => Some id
  | None => match l with
            | [] => None
            | _ :: r => first_match r
            end
  end.

(** [extractConversationId(url)]: the first or the second capture group
    of the match, undefined without a match. *)
Definition extractConversationId (url : string) : option string :=
  match first_match (chars url) with
  | Some id => Some (str id)
  | None => None
  end.

(** [promptText.slice(0, 200)] *)
Definition preview (promptText : string) : string := substring 0 200 promptText.

(** [saveSessionState]: the session file of the directory is overwritten. *)
Definition saveSessionState (dir url promptText : string)
           (paths : option (list string)) : M unit :=
  fun w =>
    let session := Session url (now w) (preview promptText) paths
                           (extractConversationId url) dir in
    (Ok tt, World (script w) (now w) (calls w) (Some session) (trace w)).

(** [loadSessionState]: the parsed session file, null when it cannot be
    read. *)
Definition loadSessionState : M (option BrowserSession) :=
  fun w => (Ok (session_file w), w).

(** [getCurrentConversationUrl]: [result?.value] of [window.location.href]. *)
Definition getCurrentConversationUrl : M (option string) :=
  invoke CHref on_href.

(** [result?.value === 'complete' || result?.value === 'interactive'] *)
Definition is_loaded (v : option string) : bool :=
  match v with
  | Some st => String.eqb st "complete" || String.eqb st "interactive"
  | None => false
  end.

(** The wait of [navigateToSavedSession] for the page to load; [fuel]
    bounds the number of iterations. *)
Fixpoint ready_loop (fuel : nat) (deadline : Z) : M unit :=
  match fuel with
  | O => cut
  | S fuel' =>
      t <- date_now ;;
      if t <? deadline then
        v <- invoke CReadyState on_readyState ;;
        if is_loaded v then ret tt
        else delay 100 ;;; ready_loop fuel' deadline
      else ret tt
  end.

(** [session.conversationId && currentConvId === session.conversationId]:
    an absent or empty identifier is falsy. *)
Definition id_matches (s : BrowserSession) (currentConvId : option string) : bool :=
  truthy_opt (conversationId s) && opt_eqb currentConvId (conversationId s).

(** The part of [navigateToSavedSession] before the location is read:
    navigate and wait for the page to load. *)
Definition navigate_and_wait (fuel : nat) (session : BrowserSession) : M unit :=
  log (LRecovering (url session)) ;;;
  invoke (CNavigate (url session)) on_navigate ;;;
  t <- date_now ;;
  ready_loop fuel (t + 30000).

(** The verification that the page shows the right conversation. *)
Definition check_location (session : BrowserSession) : M bool :=
  current <- getCurrentConversationUrl ;;
  match current with
  | None => throw (Err "Cannot read properties of undefined (reading 'match')")
  | Some currentUrl =>
      let currentConvId := extractConversationId currentUrl in
      if id_matches session currentConvId then
        log (LRecovered (conversationId session)) ;;; ret true
      else if String.eqb currentUrl (url session) then
        log (LText "Successfully navigated to saved URL") ;;; ret true
      else
        log (LNavigatedElsewhere currentUrl (url session)) ;;; ret false
  end.

(** [navigateToSavedSession(Page, Runtime, session, logger)] *)
Definition navigateToSavedSession (fuel : nat) (session : BrowserSession) : M bool :=
  try_catch
    (navigate_and_wait fuel session ;;; check_location session)
    (fun e => log (LRecoverFailed e) ;;; ret false).

End Session.

(** ** Attachment actions (attachments.ts) *)
Module Attachments.
Import JS Remote Session.
Local Open Scope js_scope.

(** Modelled from the spec: [logDomFailure] of domDebug.js, which is not
    among the sources, emits a diagnostic capture of the current document
    state for the post-mortem; the capture is one logged entry. *)
Definition logDomFailure (context : string) : M unit :=
  log (LDomFailure context).

(** *** [uploadAttachmentFile] *)

Definition maxAttempts : Z := 3.

(** The loop of [waitForAttachmentSelection]. *)
Fixpoint selection_loop (fuel : nat) (expectedName : string) (deadline : Z) : M bool :=
  match fuel with
  | O => cut
  | S fuel' =>
      t <- date_now ;;
      if t <? deadline then
        matched <- invoke (CSelection expectedName) on_selection ;;
        if matched then ret true
        else delay 150 ;;; selection_loop fuel' expectedName deadline
      else ret false
  end.

(** [waitForAttachmentSelection(Runtime, expectedName, timeoutMs)] *)
Definition waitForAttachmentSelection (fuel : nat) (expectedName : string)
           (timeoutMs : Z) : M bool :=
  t <- date_now ;;
  selection_loop fuel expectedName (t + timeoutMs).

(** The inner [for] over the selectors: the first selector whose query
    answers a node wins. *)
Fixpoint locate (root : Z) (selectors : list input_selector) : M (option Z) :=
  match selectors with
  | [] => ret None
  | sel :: rest =>
      nodeId <- invoke (CQuerySelector root sel) on_querySelector ;;
      if negb (nodeId =? 0) then ret (Some nodeId) else locate root rest
  end.

(** The test of the [catch] block for a stale element. *)
Definition is_stale (e : error) : bool :=
  includes (toLowerCase (message e)) "could not find node with given id".

(** How the body of one attempt ends: [break], or on to the back-off. *)
Inductive attempt_end := Break | Next.

(** The body of one attempt, up to the back-off: the new [lastError] and
    how the attempt ends. *)
Definition attempt_body (fuel : nat) (attachment : BrowserAttachment)
           (attempt : Z) : M (option error * attempt_end) :=
  root <- invoke CGetDocument on_getDocument ;;
  target <- locate root [FILE_INPUT_SELECTOR; GENERIC_FILE_INPUT_SELECTOR] ;;
  match target with
  | None =>
      ret (Some (Err "Unable to locate ChatGPT file attachment input."), Next)
  | Some nodeId =>
      try_catch
        (invoke (CSetFileInputFiles nodeId (path attachment)) on_setFileInputFiles ;;;
         ready <- waitForAttachmentSelection fuel (basename (path attachment)) 10000 ;;
         if ready then ret (None, Break)
         else ret (Some (Err
           "Attachment did not register with the ChatGPT composer in time (selection mismatch)."),
           Next))
        (fun e =>
           if is_stale e && (attempt <? maxAttempts) then
             log (LStale attempt) ;;; ret (Some e, Next)
           else ret (Some e, Break))
  end.

(** The [for] loop over the attempts; [fuel] bounds its iterations and
    those of the inner waits. *)
Fixpoint upload_attempts (fuel : nat) (attachment : BrowserAttachment)
         (attempt : Z) (lastError : option error) : M (option error) :=
  match fuel with
  | O => cut
  | S fuel' =>
      if attempt <=? maxAttempts then
        r <- attempt_body fuel' attachment attempt ;;
        match r with
        | (e, Break) => ret e
        | (e, Next) =>
            when (attempt <? maxAttempts) (delay (300 * attempt)) ;;;
            upload_attempts fuel' attachment (attempt + 1) e
        end
      else ret lastError
  end.

(** [uploadAttachmentFile(deps, attachment, logger)]; [dom] tells whether
    [deps.dom] is there. *)
Definition uploadAttachmentFile (fuel : nat) (dom : bool)
           (attachment : BrowserAttachment) : M unit :=
  if negb dom then throw (Err "DOM domain unavailable while uploading attachments.")
  else
    lastError <- upload_attempts fuel attachment 1 None ;;
    match lastError with
    | Some e => logDomFailure "file-upload" ;;; throw e
    | None =>
        delay 2000 ;;;
        log (LQueued (displayPath attachment))
    end.

(** *** [waitForAttachmentCompletion] *)

(** [value && value.state === "ready" && !value.uploading] *)
Definition steady (value : option probe) : bool :=
  match value with
  | Some p =>
      opt_eqb (p_state p) (Some "ready")
      && negb (match p_uploading p with Some b => b | None => false end)
  | None => false
  end.

(** [value?.url] *)
Definition url_of (value : option probe) : option string :=
  match value with
  | Some p => p_url p
  | None => None
  end.

(** How one iteration of the wait ends: [return], [continue] with the new
    [lastUrl], or the end of the [try] block and on to the pause. *)
Inductive flow :=
| Return
| Continue (lastUrl : option string)
| Pause (lastUrl : option string).

(** The [catch] block; [lastUrl] is the variable at the time of the throw. *)
Definition on_wait_error (lastUrl : option string) (e : error) : M flow :=
  log (LWaitError e) ;;; delay 500 ;;; ret (Pause lastUrl).

(** The attempt to recover the session after a navigation; [recovery]
    tells whether [recoveryOptions] was given. *)
Definition try_recover (fuel : nat) (recovery : bool) : M bool :=
  if recovery then
    session <- loadSessionState ;;
    match session with
    | Some s =>
        if truthy_str (url s) then
          log (LAttemptRecover (url s)) ;;;
          recovered <- navigateToSavedSession fuel s ;;
          if recovered then
            log (LText "Session recovered successfully. Waiting for page to stabilize...") ;;;
            ret true
          else
            log (LText "Session recovery failed. Continuing with current page...") ;;;
            ret false
        else ret false
    | None => ret false
    end
  else ret false.

(** The branch taken when the location differs from the last one seen. *)
Definition navigated (fuel : nat) (recovery : bool) (newUrl : option string)
  : M flow :=
  log (LText "Page refreshed or navigated during attachment upload.") ;;;
  recovered <- try_recover fuel recovery ;;
  if recovered then
    delay 2000 ;;;
    lastUrl <- getCurrentConversationUrl ;;
    ret (Continue lastUrl)
  else
    delay 1000 ;;;
    ret (Continue newUrl).

(** The three checks: the first value is ready and idle, and so are, at
    the location [lastUrl], a second one 500 ms later and a third one
    1000 ms after that. *)
Definition steady_checks (lastUrl : option string) (value : option probe) : M flow :=
  if steady value then
    delay 500 ;;;
    confirmValue <- invoke CProbe on_probe ;;
    if steady confirmValue && opt_eqb (url_of confirmValue) lastUrl then
      delay 1000 ;;;
      finalValue <- invoke CProbe on_probe ;;
      if steady finalValue && opt_eqb (url_of finalValue) lastUrl then
        log (LText "Attachments uploaded successfully and confirmed in steady state") ;;;
        ret Return
      else ret (Pause lastUrl)
    else ret (Pause lastUrl)
  else ret (Pause lastUrl).

(** One iteration of the loop: the [try] block with its [catch].  The
    variable [lastUrl] is assigned inside the [try]; the handler of the
    part after the assignment sees the new value. *)
Definition iteration (fuel : nat) (recovery : bool) (lastUrl : option string)
  : M flow :=
  try_catch
    (value <- invoke CProbe on_probe ;;
     let u := url_of value in
     if truthy_opt lastUrl && truthy_opt u && negb (opt_eqb lastUrl u) then
       navigated fuel recovery u
     else
       let lastUrl' := if negb (truthy_opt lastUrl) && truthy_opt u
                       then u else lastUrl in
       try_catch (steady_checks lastUrl' value) (on_wait_error lastUrl'))
    (on_wait_error lastUrl).

(** The loop of [waitForAttachmentCompletion]. *)
Fixpoint wait_loop (fuel : nat) (deadline : Z) (recovery : bool)
         (lastUrl : option string) : M unit :=
  match fuel with
  | O => cut
  | S fuel' =>
      t <- date_now ;;
      if t <? deadline then
        r <- iteration fuel' recovery lastUrl ;;
        match r with
        | Return => ret tt
        | Continue l => wait_loop fuel' deadline recovery l
        | Pause l => delay 250 ;;; wait_loop fuel' deadline recovery l
        end
      else
        log (LText
          "Attachment upload timed out while waiting for ChatGPT composer to become ready.") ;;;
        logDomFailure "file-upload-timeout" ;;;
        throw (Err "Attachments did not finish uploading before timeout.")
  end.

(** [waitForAttachmentCompletion(Runtime, timeoutMs, logger, recoveryOptions)] *)
Definition waitForAttachmentCompletion (fuel : nat) (timeoutMs : Z)
           (recovery : bool) : M unit :=
  t <- date_now ;;
  wait_loop fuel (t + timeoutMs) recovery None.

(** *** [verifyAttachmentsVisible] *)

(** The key of one sampled attachment: the template string
    [filename::selector]. *)
Definition att_key (a : VisibleAttachment) : string :=
  filename a ++ "::" ++ selector a.

(** [snapshotKey]: the JSON text of the array of attachment keys.
    JSON.stringify is injective on arrays of strings, so the array itself
    stands for its text. *)
Definition snapshotKey (l : list VisibleAttachment) : list string :=
  map att_key l.

Definition key_eqb (a b : list string) : bool :=
  if list_eq_dec string_dec a b then true else false.

(** [snapshotKey === lastSnapshotKey], with [lastSnapshotKey] null at
    first. *)
Definition same_key (k : list string) (last : option (list string)) : bool :=
  match last with
  | Some k' => key_eqb k k'
  | None => false
  end.

Fixpoint log_items (idx : nat) (l : list VisibleAttachment) : M unit :=
  match l with
  | [] => ret tt
  | a :: r => log (LVerifyItem idx (filename a) (selector a)) ;;;
              log_items (S idx) r
  end.

(** The debounce variables of [verifyAttachmentsVisible]. *)
Record debounce := Debounce {
  lastSnapshotKey : option (list string);
  stableIterations : nat
}.

(** The body of the [try] of one poll.  [inl l] is [return l]; [inr d] falls
    through to the sleep with the debounce variables [d]. *)
Definition verify_poll (d : debounce)
  : M (list VisibleAttachment + debounce) :=
  attachments <- invoke CSample on_sample ;;
  match attachments with
  | Some (a :: r) =>
      let l := a :: r in
      let key := snapshotKey l in
      let d' := if same_key key (lastSnapshotKey d)
                then Debounce (lastSnapshotKey d) (S (stableIterations d))
                else Debounce (Some key) 0 in
      if (2 <=? stableIterations d')%nat then
        log (LVerifyDetected (length l)) ;;;
        log_items 1 l ;;;
        ret (inl l)
      else ret (inr d')
  | _ => ret (inr d)
  end.

(** The polling loop of [verifyAttachmentsVisible]; [fuel] bounds the
    number of iterations. *)
Fixpoint verify_loop (fuel : nat) (deadline pollInterval : Z) (d : debounce)
  : M (list VisibleAttachment) :=
  match fuel with
  | O => cut
  | S fuel' =>
      t <- date_now ;;
      if t <? deadline then
        r <- try_catch (verify_poll d)
               (fun e => log (LVerifyError e) ;;; ret (inr d)) ;;
        match r with
        | inl l => ret l
        | inr d' =>
            delay pollInterval ;;;
            verify_loop fuel' deadline pollInterval d'
        end
      else
        log (LText "verifyAttachmentsVisible: timeout reached, no attachments detected") ;;;
        ret []
  end.

(** [VerifyAttachmentsOptions] *)
Record VerifyAttachmentsOptions := VerifyOptions {
  timeout : option Z;
  pollInterval : option Z
}.

Definition or_default (o : option Z) (d : Z) : Z :=
  match o with Some v => v | None => d end.

(** [verifyAttachmentsVisible(Runtime, options, logger)] *)
Definition verifyAttachmentsVisible (fuel : nat) (options : VerifyAttachmentsOptions)
  : M (list VisibleAttachment) :=
  let timeout := or_default (timeout options) 5000 in
  let pollInterval := or_default (pollInterval options) 200 in
  t <- date_now ;;
  verify_loop fuel (t + timeout) pollInterval (Debounce None 0).

End Attachments.

(** ** The attachment verification step of [runBrowserMode] (index.ts) *)
Module Pipeline.
Import JS Remote Attachments Normalize.
Local Open Scope js_scope.

(** [names.includes(x)] *)
Definition includes_name (names : list string) (x : string) : bool :=
  existsb (String.eqb x) names.

Definition expectedFilenames (attachments : list BrowserAttachment) : list string :=
  map (fun att => normalizeFilename (basename (path att))) attachments.

Definition visibleFilenames (visibleAttachments : list VisibleAttachment) : list string :=
  map (fun att => normalizeFilename (filename att)) visibleAttachments.

Definition missingFiles (expected visible : list string) : list string :=
  filter (fun exp => negb (includes_name visible exp)) expected.

Definition extraFiles (expected visible : list string) : list string :=
  filter (fun vis => negb (includes_name expected vis)) visible.

(** The condition of the [if] that rejects the composer state. *)
Definition rejects (expected visible : list string) : bool :=
  (0 <? length (missingFiles expected visible))%nat
  || ((0 <? length (extraFiles expected visible))%nat
      && negb (length visible =? length expected)%nat).

(** A count inside a template string. *)
Definition show (n : nat) : string := NilEmpty.string_of_uint (Nat.to_uint n).

(** [names.join(sep)] *)
Definition join (sep : string) (names : list string) : string :=
  String.concat sep names.

(** [names.join(", ") || "none"] *)
Definition join_or_none (names : list string) : string :=
  let j := join ", " names in if truthy_str j then j else "none".

(** The message of the error thrown when the verification fails. *)
Definition verification_message (expected visible : nat)
           (missing visibleNames : list string) : string :=
  "Expected " ++ show expected ++ " attachment(s) but only " ++ show visible
  ++ " visible in composer. Missing: [" ++ join_or_none missing
  ++ "]. Visible: [" ++ join_or_none visibleNames ++ "]".

(** [visibleAttachments.slice(0, 2).forEach(...)]: the lines logged for one
    sample (name, selector, markup) are one entry. *)
Fixpoint log_samples (idx : nat) (l : list VisibleAttachment) : M unit :=
  match l with
  | [] => ret tt
  | a :: r => log (LDomSample idx a) ;;; log_samples (S idx) r
  end.

(** The block of [runBrowserMode] that verifies that the attachments are
    visible in the composer before submitting. *)
Definition verifyVisibleStep (fuel : nat) (attachments : list BrowserAttachment)
  : M unit :=
  let expected := expectedFilenames attachments in
  visibleAttachments <-
    verifyAttachmentsVisible fuel (VerifyOptions (Some 10000) None) ;;
  let visible := visibleFilenames visibleAttachments in
  let missing := missingFiles expected visible in
  let extra := extraFiles expected visible in
  if rejects expected visible then
    log (LText "Attachment verification failed!") ;;;
    log (LExpected (length expected) expected) ;;;
    log (LVisible (length visible) visible) ;;;
    when (0 <? length missing)%nat (log (LMissing missing)) ;;;
    when (0 <? length extra)%nat (log (LExtra extra)) ;;;
    when (0 <? length visibleAttachments)%nat
      (log (LText "Visible attachment DOM samples (first 2):") ;;;
       log_samples 1 (firstn 2 visibleAttachments)) ;;;
    throw (Err (verification_message (length expected) (length visible)
                                     missing visible))
  else
    log (LVerified (length visible) (length expected)).

End Pipeline.

(** ** Vocabulary of the statements about runs *)
Module RunSpec.
Import JS Remote Session Attachments.

(** A computation that never changes the script of the channel, never
    turns the clock back and never forgets a call. *)
Definition steady_run {A} (m : M A) : Prop :=
  forall w, script (snd (m w)) = script w
            /\ now w <= now (snd (m w))
            /\ (calls w <= calls (snd (m w)))%nat.

(** The session is as [saveSessionState] writes it: the identifier is
    derived from the location. *)
Definition session_wf (s : BrowserSession) : Prop :=
  conversationId s = extractConversationId (url s).

(** Recovery as the specification words it: the identifier derived from
    the resulting location matches the saved one, or, when no identifier
    was captured, the resulting location equals the saved one. *)
Definition recovered_by_spec (s : BrowserSession) (current : string) : bool :=
  match conversationId s with
  | Some id => opt_eqb (extractConversationId current) (Some id)
  | None => String.eqb current (url s)
  end.

(** The probe expression reports [window.location.href] with every value:
    every value the script answers to a probe carries a location that is
    not empty. *)
Definition probes_located (s : remote) : Prop :=
  forall k p, res (on_probe s k) = inr (Some p) -> truthy_opt (p_url p) = true.




Definition locate_error : error :=
  Err "Unable to locate ChatGPT file attachment input.".

Definition mismatch_error : error :=
  Err "Attachment did not register with the ChatGPT composer in time (selection mismatch).".

(** The line logged when the wait succeeds. *)
Definition steady_line : event :=
  Logged (LText "Attachments uploaded successfully and confirmed in steady state").

(** The three checks of the iteration that starts in the world [w0] and
    ends, with success, in the world [w']: three calls in a row on the
    channel, each a probe that answered ready and idle, the second and
    the third at the location [lastUrl], the first at that location too
    when it carries one; 500 ms and then 1000 ms lie between an answer
    and the next call. *)
Definition confirmed_at (w0 w' : world) (lastUrl : option string) : Prop :=
  let s := script w0 in
  let k := calls w0 in
  exists p1 p2 p3,
    res (on_probe s k) = inr (Some p1)
    /\ res (on_probe s (S k)) = inr (Some p2)
    /\ res (on_probe s (S (S k))) = inr (Some p3)
    /\ steady (Some p1) = true /\ steady (Some p2) = true
    /\ steady (Some p3) = true
    /\ p_url p2 = lastUrl /\ p_url p3 = lastUrl
    /\ (truthy_opt (p_url p1) = true -> p_url p1 = lastUrl)
    /\ let t1 := now w0 + Z.of_N (lat (on_probe s k)) in
       let t2 := t1 + 500 + Z.of_N (lat (on_probe s (S k))) in
       let t3 := t2 + 1000 + Z.of_N (lat (on_probe s (S (S k)))) in
       trace w' = steady_line :: Called CProbe (S (S k)) t3 :: Slept 1000
                  :: Called CProbe (S k) t2 :: Slept 500
                  :: Called CProbe k t1 :: trace w0.

End RunSpec.

(** ** Vocabulary of the statements about the sampler *)
Module VerifySpec.
Import JS Remote Attachments.
Local Open Scope js_scope.

(** What one poll does to the debounce variables, as a function of the
    answer the poll received. *)
Definition poll_next (d : debounce) (r : error + option (list VisibleAttachment))
  : list VisibleAttachment + debounce :=
  match r with
  | inr (Some (a :: l)) =>
      let key := snapshotKey (a :: l) in
      let d' := if same_key key (lastSnapshotKey d)
                then Debounce (lastSnapshotKey d) (S (stableIterations d))
                else Debounce (Some key) 0 in
      if (2 <=? stableIterations d')%nat then inl (a :: l) else inr d'
  | _ => inr d
  end.

(** Poll number [k] of the script answered the non-empty list [l]. *)
Definition sampled (s : remote) (k : nat) (l : list VisibleAttachment) : Prop :=
  res (on_sample s k) = inr (Some l) /\ l <> [].

(** Poll number [k] answered a non-empty list with snapshot key [key]. *)
Definition loud (s : remote) (k : nat) (key : list string) : Prop :=
  exists l, sampled s k l /\ snapshotKey l = key.

(** Poll number [k] failed, or answered no value or the empty list: the
    poll leaves the debounce variables alone. *)
Definition quiet (s : remote) (k : nat) : Prop :=
  match res (on_sample s k) with
  | inr (Some (_ :: _)) => False
  | _ => True
  end.

(** The [n + 1] most recent non-quiet polls among the polls [c0 .. c - 1]
    all have the snapshot key [key]. *)
Fixpoint streak (s : remote) (key : list string) (n c0 c : nat) : Prop :=
  exists k, (c0 <= k < c)%nat /\ loud s k key
            /\ (forall j, (k < j < c)%nat -> quiet s j)
            /\ match n with
               | O => True
               | S n' => streak s key n' c0 k
               end.

(** The debounce variables agree with the polls made so far. *)
Definition tracks (s : remote) (d : debounce) (c0 c : nat) : Prop :=
  match lastSnapshotKey d with
  | Some key => streak s key (stableIterations d) c0 c
  | None => True
  end.

(** The same attachments: the same file names and selectors, in order. *)
Definition same_items (l1 l2 : list VisibleAttachment) : Prop :=
  map filename l1 = map filename l2 /\ map selector l1 = map selector l2.

(** The three polls [k], [k + 1] and [k + 2] answered non-empty lists with the
    same file names and selectors, the last of them [l]. *)
Definition three_in_a_row (s : remote) (k : nat) (l : list VisibleAttachment) : Prop :=
  exists l1 l2, sampled s k l1 /\ sampled s (S k) l2 /\ sampled s (S (S k)) l
                /\ same_items l1 l /\ same_items l2 l.

(** The part of the world a step of the run cannot change but by making
    calls or sleeping. *)
Definition same_frame (w w' : world) : Prop :=
  script w' = script w /\ now w' = now w /\ calls w' = calls w
  /\ session_file w' = session_file w.

(** The world after one poll and the world after the sleep that follows
    it. *)
Definition after_poll (d : debounce) (w : world) : world :=
  snd (try_catch (verify_poll d) (fun e => log (LVerifyError e) ;;; ret (inr d)) w).

Definition slept (ms : Z) (w : world) : world := snd (delay ms w).

(** What the most recent polls looked like when the sampler returns a
    non-empty list at poll [k]. *)
Definition returned_at (s : remote) (c0 k : nat) (l : list VisibleAttachment) : Prop :=
  exists k1 k2 l1 l2,
    (c0 <= k1 < k2)%nat /\ (k2 < k)%nat
    /\ sampled s k1 l1 /\ sampled s k2 l2 /\ sampled s k l
    /\ snapshotKey l1 = snapshotKey l /\ snapshotKey l2 = snapshotKey l
    /\ (forall j, (k1 < j < k)%nat -> j <> k2 -> quiet s j).

(** The clock at the start of the [n]-th poll after the poll number [c]
    that starts at the time [t], when the polls before it all go on to
    the sleep of [p] ms. *)
Fixpoint poll_clock (s : remote) (p : Z) (c : nat) (t : Z) (n : nat) : Z :=
  match n with
  | O => t
  | S n' =>
      poll_clock s p (S c) (t + Z.of_N (lat (on_sample s c)) + Z.max 0 p) n'
  end.

(** The selector carries no colon, as the selectors the sampler script
    reports ([data-testid*=...], [button[aria-label*=...]]). *)
Definition colon_free (sel : string) : Prop := ~ In ":"%char (chars sel).

Definition colon_free_script (s : remote) : Prop :=
  forall k l a, res (on_sample s k) = inr (Some l) -> In a l ->
                colon_free (selector a).

End VerifySpec.

(** ** The exclusivity lock (lock.ts)

    The lock is a file; the contenders are processes of one host.  Each
    process runs [acquireBrowserLock] and later the release function it
    returned.  A process is suspended at every [await]: its state is the
    place where it is suspended and its local variables, and a step runs
    it up to the next [await].  The world the processes share is the lock
    file, the process table, and the clock. *)
Module Lock.

(** A JavaScript number, as far as the lock tells numbers apart: an
    integer, or a number that is not one (a fraction, NaN, an infinity). *)
Inductive number := Int (z : Z) | NonInt.

(** The content of the lock file: just created by the process [creator]
    and still empty ([wx] opens the file before the payload is written),
    text that does not parse, or a parsed value, of which [pid] and
    [createdAt] are kept when they are numbers. *)
Inductive content :=
| Empty (creator : Z)
| Garbled
| Json (pid createdAt : option number).

(** [BrowserLockPayload] *)
Record BrowserLockPayload := Payload { pid : number; createdAt : number }.

(** What the release function and the loop throw or meet. *)
Inductive error :=
| LockTimeout            (* Timed out waiting for another Oracle browser run *)
| FsError (code : string).

Inductive logmsg :=
| Acquired
| RemovedStale (owner : number)
| Waiting (owner : number)
| Released.

Record world := World {
  file : option content;      (* the file at the lock path *)
  running : Z -> bool;        (* process.kill(pid, 0) does not throw *)
  rm_denied : bool;           (* fs.rm of the lock path is rejected *)
  create_fault : option string; (* the error code creating the file raises *)
  now : Z                     (* Date.now() *)
}.

(** [readExistingLock(lockPath)] *)
Definition readExistingLock (w : world) : option BrowserLockPayload :=
  match file w with
  | Some (Json (Some p) (Some c)) => Some (Payload p c)
  | _ => None
  end.

(** [isProcessAlive(pid)] *)
Definition isProcessAlive (w : world) (n : number) : bool :=
  match n with
  | Int z => if z <=? 0 then false else running w z
  | NonInt => false
  end.

(** The places where a process is suspended. *)
Inductive pc :=
| Create                 (* fs.writeFile with flag wx: create the file *)
| Fill                   (* fs.writeFile with flag wx: write the payload *)
| Read                   (* readExistingLock after a failed creation *)
| Remove (owner : number) (* fs.rm of a stale record *)
| Backoff                (* delay(retryDelayMs) *)
| Held                   (* acquireBrowserLock has returned *)
| RelRead                (* release: readExistingLock *)
| RelRemove              (* release: fs.rm *)
| Idle                   (* release has returned *)
| Thrown (e : error).    (* acquireBrowserLock has thrown *)

Record proc := Proc {
  self : Z;                 (* process.pid *)
  at_pc : pc;
  timeoutMs : Z;
  deadline : Z;
  created : Z;              (* payload.createdAt *)
  hasLoggedWaiting : bool;
  released : bool;
  logged : list logmsg      (* newest first *)
}.

Definition retryDelayMs : Z := 750.

Definition goto (p : proc) (l : pc) : proc :=
  Proc (self p) l (timeoutMs p) (deadline p) (created p)
       (hasLoggedWaiting p) (released p) (logged p).

Definition say (p : proc) (m : logmsg) : proc :=
  Proc (self p) (at_pc p) (timeoutMs p) (deadline p) (created p)
       (hasLoggedWaiting p) (released p) (m :: logged p).

Definition set_file (w : world) (f : option content) : world :=
  World f (running w) (rm_denied w) (create_fault w) (now w).

Definition set_now (w : world) (t : Z) : world :=
  World (file w) (running w) (rm_denied w) (create_fault w) t.

(** [acquireBrowserLock({ timeoutMs })] in the process [me] where its
    loop starts: the deadline and the payload are computed and the
    directory of the lock path has been made ([fs.mkdir] of line 70 has
    returned; its rejection, which is thrown before the loop, is in
    [LockSpec.acquire_on]). *)
Definition acquire_start (me timeout : Z) (w : world) : proc :=
  Proc me Create timeout (now w + timeout) (now w) false false [].

(** The error codes after which the loop looks at the existing lock. *)
Definition contended (code : string) : bool :=
  String.eqb code "EEXIST" || String.eqb code "EACCES" || String.eqb code "EPERM".

(** [existing.pid === process.pid] *)
Definition is_self (p : proc) (n : number) : bool :=
  match n with
  | Int z => z =? self p
  | NonInt => false
  end.

(** One step of a process: from where it is suspended to the next
    [await]. *)
Definition step (w : world) (p : proc) : world * proc :=
  match at_pc p with
  | Create =>
      match file w with
      | Some _ => (w, goto p Read)                        (* EEXIST *)
      | None =>
          match create_fault w with
          | Some code =>
              if contended code then (w, goto p Read)
              else (w, goto p (Thrown (FsError code)))
          | None => (set_file w (Some (Empty (self p))), goto p Fill)
          end
      end
  | Fill =>
      (* the payload goes to the file the process created, if the path
         still names it *)
      (match file w with
       | Some (Empty creator) =>
           if creator =? self p
           then set_file w (Some (Json (Some (Int (self p)))
                                       (Some (Int (created p)))))
           else w
       | _ => w
       end,
       goto (say p Acquired) Held)
  | Read =>
      match readExistingLock w with
      | None => (w, goto p Backoff)
      | Some existing =>
          if negb (isProcessAlive w (pid existing)) then
            (w, goto p (Remove (pid existing)))
          else
            let p' := if negb (hasLoggedWaiting p)
                      then Proc (self p) (at_pc p) (timeoutMs p) (deadline p)
                                (created p) true (released p)
                                (Waiting (pid existing) :: logged p)
                      else p in
            if (0 <? timeoutMs p) && (deadline p <? now w)
            then (w, goto p' (Thrown LockTimeout))
            else (w, goto p' Backoff)
      end
  | Remove owner =>
      if rm_denied w then (w, goto p Backoff)
      else (set_file w None, goto (say p (RemovedStale owner)) Backoff)
  | Backoff => (set_now w (now w + retryDelayMs), goto p Create)
  | RelRead =>
      match readExistingLock w with
      | Some existing =>
          if is_self p (pid existing) then (w, goto p RelRemove)
          else (w, goto p Idle)
      | None => (w, goto p Idle)
      end
  | RelRemove =>
      if rm_denied w then (w, goto p Idle)
      else (set_file w None, goto (say p Released) Idle)
  | Held => (w, p)
  | Idle => (w, p)
  | Thrown _ => (w, p)
  end.

(** A call of the release function: nothing when it was called before. *)
Definition call_release (p : proc) : proc :=
  if released p then p
  else Proc (self p) RelRead (timeoutMs p) (deadline p) (created p)
            (hasLoggedWaiting p) true (logged p).

(** The process is not suspended inside a call. *)
Definition settled (l : pc) : bool :=
  match l with
  | Held | Idle | Thrown _ => true
  | _ => false
  end.

(** A process running alone, up to the end of the call it is in. *)
Fixpoint run (fuel : nat) (w : world) (p : proc) : world * proc :=
  match fuel with
  | O => (w, p)
  | S fuel' =>
      if settled (at_pc p) then (w, p)
      else let '(w', p') := step w p in run fuel' w' p'
  end.

(** [await acquireBrowserLock({ timeoutMs })], alone on a host where the
    directory of the lock path exists or can be made. *)
Definition acquireBrowserLock (fuel : nat) (me timeout : Z) (w : world)
  : world * proc :=
  run fuel w (acquire_start me timeout w).

(** [await release()], alone on the host. *)
Definition release (fuel : nat) (w : world) (p : proc) : world * proc :=
  run fuel w (call_release p).

(** The process has the lock: it is writing its record, holds it, or is
    releasing it. *)
Definition owns (p : proc) : bool :=
  match at_pc p with
  | Fill | Held | RelRead | RelRemove => true
  | _ => false
  end.

(** Two contenders on one host, [a] and [b]: any of them takes a step or
    calls its release function, or time passes. *)
Inductive interleave : world * proc * proc -> world * proc * proc -> Prop :=
| step_a w a b w' a' : step w a = (w', a') -> interleave (w, a, b) (w', a', b)
| step_b w a b w' b' : step w b = (w', b') -> interleave (w, a, b) (w', a, b')
| release_a w a b : at_pc a = Held -> interleave (w, a, b) (w, call_release a, b)
| release_b w a b : at_pc b = Held -> interleave (w, a, b) (w, a, call_release b)
| tick w a b t : interleave (w, a, b) (set_now w t, a, b).

(** The states two contenders can reach from the state [s0]. *)
Inductive reachable (s0 : world * proc * proc) : world * proc * proc -> Prop :=
| reach_start : reachable s0 s0
| reach_step s s' : reachable s0 s -> interleave s s' -> reachable s0 s'.

(** The moves of a schedule of two contenders. *)
Inductive move := StepA | StepB | ReleaseA | ReleaseB | Tick (t : Z).

Definition play_move (m : move) (s : world * proc * proc) : world * proc * proc :=
  let '(w, a, b) := s in
  match m with
  | StepA => let '(w', a') := step w a in (w', a', b)
  | StepB => let '(w', b') := step w b in (w', a, b')
  | ReleaseA => match at_pc a with Held => (w, call_release a, b) | _ => s end
  | ReleaseB => match at_pc b with Held => (w, a, call_release b) | _ => s end
  | Tick t => (set_now w t, a, b)
  end.

(** The state after a schedule, first move first. *)
Definition play (ms : list move) (s : world * proc * proc) : world * proc * proc :=
  fold_left (fun s m => play_move m s) ms s.

(** The process has acquired the lock at some time before. *)
Definition has_acquired (p : proc) : bool :=
  match at_pc p with
  | Held | RelRead | RelRemove | Idle => true
  | _ => false
  end.

(** The record the process [p] writes. *)
Definition record_of (p : proc) : content :=
  Json (Some (Int (self p))) (Some (Int (created p))).

(** A process at the start of [acquireBrowserLock], alive on the host. *)
Definition contender (w : world) (p : proc) : Prop :=
  at_pc p = Create /\ 0 < self p /\ running w (self p) = true.

(** What the lock file holds while the process [p] is where it is: its
    empty file while it writes, its record while it has the lock; and a
    contender never finds a stale record. *)
Definition in_step (w : world) (p : proc) : Prop :=
  match at_pc p with
  | Fill => file w = Some (Empty (self p))
  | Held | RelRead | RelRemove => file w = Some (record_of p)
  | Remove _ => False
  | _ => True
  end.

(** The lock file is absent, or was written by one of the two. *)
Definition file_of (w : world) (a b : proc) : Prop :=
  file w = None \/ file w = Some (Empty (self a)) \/ file w = Some (Empty (self b))
  \/ file w = Some (record_of a) \/ file w = Some (record_of b).

(** The invariant of two live contenders on a path that was free. *)
Definition exclusive (s : world * proc * proc) : Prop :=
  let '(w, a, b) := s in
  (0 < self a /\ running w (self a) = true)
  /\ (0 < self b /\ running w (self b) = true)
  /\ self a <> self b
  /\ in_step w a /\ in_step w b
  /\ file_of w a b
  /\ (owns a = true -> owns b = true -> False).

End Lock.

(** ** Hosts for the scenarios of the lock *)
Module LockScenario.
Import Lock.

(** A host where the lock path is free and every process id is alive. *)
Definition free_host : world := World None (fun _ => true) false None 0.

(** A host with the record of the process 4242, which is gone. *)
Definition stale_host : world :=
  World (Some (Json (Some (Int 4242)) (Some (Int 0)))) (fun _ => false) false None 0.

(** The same, with a lock path that cannot be removed. *)
Definition stuck_host : world :=
  World (Some (Json (Some (Int 4242)) (Some (Int 0)))) (fun _ => false) true None 0.

(** A host with the record of the process 4242, which has crashed; every
    other process is running. *)
Definition crashed_host : world :=
  World (Some (Json (Some (Int 4242)) (Some (Int 0))))
        (fun pid => negb (pid =? 4242)) false None 0.

Definition half_hour : Z := 30 * 60000.

Definition first : proc := acquire_start 101 half_hour free_host.
Definition second : proc := acquire_start 102 half_hour free_host.

(** The first contender acquires, the second meets the lock and waits,
    the first releases, the second acquires. *)
Definition handover : list move :=
  [StepA; StepA; StepB; StepB; ReleaseA; StepA; StepA; StepB; StepB; StepB].

(** Both contenders find the lock taken and read the record of the
    crashed process; the first removes it, sleeps, creates the file and
    writes its record; only then the second runs its own removal, sleeps,
    and creates the file again. *)
Definition stale_race : list move :=
  [StepA; StepB; StepA; StepB; StepA; StepA; StepA; StepA;
   StepB; StepB; StepB; StepB].

End LockScenario.

(** ** Scripted channels for the scenarios of the specification *)
Module Scenario.
Import JS Remote Attachments Pipeline.

(** An answer that arrives at once. *)
Definition at_once {A} (a : A) : answer A := Answer 0%N (inr a).

(** A method the scenario does not expect to be called. *)
Definition unscripted {A} : nat -> answer A :=
  fun _ => Answer 0%N (inl (Err "unscripted call")).

Definition dq : string := String "034"%char EmptyString.

(** The first of the attachment selectors of the sampler expression. *)
Definition pill_selector : string :=
  "[data-testid*=" ++ dq ++ "attachment-pill" ++ dq ++ "]".

Definition pill (name : string) : VisibleAttachment :=
  Visible name pill_selector None.

(** A visual sampler that answers the given polls in order, and no value
    afterwards. *)
Definition sampler (polls : list (list VisibleAttachment)) : remote :=
  {| on_probe := unscripted;
     on_sample := fun k => at_once (nth_error polls k);
     on_selection := unscripted;
     on_readyState := unscripted;
     on_href := unscripted;
     on_getDocument := unscripted;
     on_querySelector := unscripted;
     on_setFileInputFiles := unscripted;
     on_navigate := unscripted |}.

(** A visual sampler that shows one attachment on every second poll; in
    between one poll is rejected and one has no value, and so have all
    polls after the fifth. *)
Definition flaky_sampler (a : VisibleAttachment) : remote :=
  {| on_probe := unscripted;
     on_sample := fun k =>
       match k with
       | 0%nat | 2%nat | 4%nat => at_once (Some [a])
       | 1%nat => Answer 0%N (inl (Err "Execution context was destroyed."))
       | _ => at_once None
       end;
     on_selection := unscripted;
     on_readyState := unscripted;
     on_href := unscripted;
     on_getDocument := unscripted;
     on_querySelector := unscripted;
     on_setFileInputFiles := unscripted;
     on_navigate := unscripted |}.

(** A page whose steady-state probe answers the given values in order,
    and no value afterwards. *)
Definition prober (answers : list probe) : remote :=
  {| on_probe := fun k => at_once (nth_error answers k);
     on_sample := unscripted;
     on_selection := unscripted;
     on_readyState := unscripted;
     on_href := unscripted;
     on_getDocument := unscripted;
     on_querySelector := unscripted;
     on_setFileInputFiles := unscripted;
     on_navigate := unscripted |}.

Definition chat : string := "https://chatgpt.com/".

(** The composer is ready and idle. *)
Definition ready_idle : probe := Probe (Some "ready") (Some false) (Some chat).

(** The send button is enabled while an upload marker is shown. *)
Definition ready_busy : probe := Probe (Some "ready") (Some true) (Some chat).

(** A page for the upload: every query of a file input answers [node]
    (0: no such element), assigning the file answers as [assign] says for
    the call with that number, and the file input lists the file or not. *)
Definition uploader (node : Z) (assign : nat -> answer unit) (listed : bool)
  : remote :=
  {| on_probe := unscripted;
     on_sample := unscripted;
     on_selection := fun _ => at_once listed;
     on_readyState := unscripted;
     on_href := unscripted;
     on_getDocument := fun _ => at_once 1;
     on_querySelector := fun _ => at_once node;
     on_setFileInputFiles := assign;
     on_navigate := unscripted |}.



Definition refused (k : nat) : answer unit :=
  Answer 0%N (inl (Err "Not allowed")).

(** Every assignment of the file is accepted. *)
Definition accepted (k : nat) : answer unit := at_once tt.

Definition report : BrowserAttachment := Attachment "/tmp/report.pdf" "report.pdf".

(** A page after a navigation: it loads, and shows the location [href]. *)
Definition navigator (href : string) : remote :=
  {| on_probe := unscripted;
     on_sample := unscripted;
     on_selection := unscripted;
     on_readyState := fun _ => at_once (Some "complete");
     on_href := fun _ => at_once (Some href);
     on_getDocument := unscripted;
     on_querySelector := unscripted;
     on_setFileInputFiles := unscripted;
     on_navigate := fun _ => at_once tt |}.

(** A saved session with the conversation identifier abc123. *)
Definition saved : BrowserSession :=
  Session "https://chatgpt.com/c/abc123" 0 "Summarise the report" None
          (Some "abc123") "/tmp/oracle-browser-1".

(** The world at the start of a run. *)
Definition start (r : remote) : world := World r 0 0 None [].

Definition a_pdf := pill "a.pdf".
Definition b_png := pill "b.png".
Definition c_pdf := pill "c.pdf".

(** The expected attachments of scenarios B and C. *)
Definition a_and_b : list BrowserAttachment :=
  [Attachment "/tmp/a.pdf" "a.pdf"; Attachment "/tmp/b.png" "b.png"].

(** Two files with one base name, from two directories. *)
Definition two_a : list BrowserAttachment :=
  [Attachment "/docs/a.pdf" "docs/a.pdf"; Attachment "/old/a.pdf" "old/a.pdf"].

End Scenario.

(** ** Vocabulary of further statements about the lock *)
Module LockSpec.
Import Lock.

(** The number of waiting notices among the logged lines. *)
Fixpoint waiting_lines (l : list logmsg) : nat :=
  match l with
  | [] => 0
  | Waiting _ :: r => S (waiting_lines r)
  | _ :: r => waiting_lines r
  end.

(** The process is inside the loop of [acquireBrowserLock], before or
    after an attempt that failed. *)
Definition retrying (p : proc) : bool :=
  match at_pc p with
  | Create | Read | Backoff => true
  | _ => false
  end.

(** The contender [me] after it has met the record of the holder [h]
    and logged that it waits. *)
Definition waiter (me timeout : Z) (w : world) (h : Z) : proc :=
  Proc me Create timeout (now w + timeout) (now w) true false [Waiting (Int h)].

(** The host as [acquireBrowserLock] meets it at its first line: the
    world of the lock file, and the error code that [fs.mkdir] of the
    directory of the lock path rejects with, if it does. *)
Record host := Host {
  lock_world : world;
  mkdir_fault : option string
}.

(** [await acquireBrowserLock({ timeoutMs })] from its first line, alone
    on the host: the directory of the lock path is made first, outside
    the [try] of the loop, so a rejection of [fs.mkdir] is thrown at once,
    whatever the lock path holds. *)
Definition acquire_on (fuel : nat) (me timeout : Z) (h : host) : world * proc :=
  match mkdir_fault h with
  | Some code =>
      (lock_world h,
       goto (acquire_start me timeout (lock_world h)) (Thrown (FsError code)))
  | None => acquireBrowserLock fuel me timeout (lock_world h)
  end.

(** The notice and the flag go together: one line when the flag is
    set, none otherwise. *)
Definition noticed_once (p : proc) : Prop :=
  waiting_lines (logged p) = if hasLoggedWaiting p then 1%nat else 0%nat.

End LockSpec.

(** ** The wait for the conversation URL (sessionRecovery.ts) *)

Module Recovery.
Import JS Remote Session.
Local Open Scope js_scope.

(** [url.includes('/c/') || url.includes('/g/')] *)
Definition has_conversation (url : string) : bool :=
  includes url "/c/" || includes url "/g/".

(** A value that is a string or undefined, inside a template literal. *)
Definition show_url (o : option string) : string :=
  match o with
  | Some u => u
  | None => "undefined"
  end.

Definition established (url : string) : logmsg :=
  LText ("Conversation URL established: " ++ url).

Definition fallback (finalUrl : option string) : logmsg :=
  LText ("Using current URL (no conversation ID detected): " ++ show_url finalUrl).

Definition includes_error : error :=
  Err "Cannot read properties of undefined (reading 'includes')".

(** The loop of [waitForConversationUrl] and what follows it; [fuel]
    bounds the number of iterations. *)
Fixpoint url_loop (fuel : nat) (deadline : Z) (lastUrl : string)
  : M (option string) :=
  match fuel with
  | O => cut
  | S fuel' =>
      t <- date_now ;;
      if t <? deadline then
        current <- getCurrentConversationUrl ;;
        match current with
        | None => throw includes_error
        | Some url =>
            if has_conversation url && negb (String.eqb url lastUrl) then
              log (established url) ;;;
              delay 500 ;;;
              verifyUrl <- getCurrentConversationUrl ;;
              if opt_eqb verifyUrl (Some url) then ret (Some url)
              else delay 200 ;;; url_loop fuel' deadline url
            else delay 200 ;;; url_loop fuel' deadline lastUrl
        end
      else
        finalUrl <- getCurrentConversationUrl ;;
        log (fallback finalUrl) ;;;
        ret finalUrl
  end.

(** [waitForConversationUrl(Runtime, timeoutMs, logger)] *)
Definition waitForConversationUrl (fuel : nat) (timeoutMs : Z)
  : M (option string) :=
  t <- date_now ;;
  url_loop fuel (t + timeoutMs) EmptyString.

End Recovery.

Module RecoverySpec.
Import JS Remote Session Recovery.

(** The location was read twice in a row, 500 ms apart, with the same
    answer, a location with a conversation marker; these are the last
    events of the trace. *)
Definition confirmed_twice (s : remote) (tr : list event) (r : option string)
  : Prop :=
  exists u k t rest,
    r = Some u /\ has_conversation u = true
    /\ res (on_href s k) = inr (Some u)
    /\ res (on_href s (S k)) = inr (Some u)
    /\ tr = Called CHref (S k) (t + 500 + Z.of_N (lat (on_href s (S k))))
            :: Slept 500 :: Logged (established u) :: Called CHref k t :: rest.

(** The location was read once more after the deadline and logged as the
    fallback; these are the last events of the trace. *)
Definition fell_back (s : remote) (deadline : Z) (tr : list event)
           (r : option string) : Prop :=
  exists k t rest,
    res (on_href s k) = inr r
    /\ deadline <= t - Z.of_N (lat (on_href s k))
    /\ tr = Logged (fallback r) :: Called CHref k t :: rest.

(** The last event is a reading of the location that was rejected with
    the error, or that had no value where the loop needs one. *)
Definition href_failed (s : remote) (tr : list event) (e : error) : Prop :=
  exists k t rest,
    tr = Called CHref k t :: rest
    /\ (res (on_href s k) = inl e
        \/ (res (on_href s k) = inr None /\ e = includes_error)).

(** From the call [k] on, every reading of the location answers [u]. *)
Definition settles_on (s : remote) (k : nat) (u : string) : Prop :=
  forall j, (k <= j)%nat -> res (on_href s j) = inr (Some u).

(** The text from [i] on has the pattern of [extractConversationId] at
    its head, with the identifier [id]: a slash, c or g, a slash, the
    identifier, and then the end of the text or a character that cannot
    be part of an identifier. *)
Definition id_at (l : list ascii) (id : list ascii) : Prop :=
  exists r post,
    l = "/"%char :: r :: "/"%char :: (id ++ post)%list
    /\ (r = "c"%char \/ r = "g"%char)
    /\ id <> []
    /\ forallb is_id_char id = true
    /\ match post with
       | [] => True
       | c :: _ => is_id_char c = false
       end.

End RecoverySpec.

(** ** The index of stored responses (responseStore.ts) *)

Module ResponseStore.

(** [StoredResponse] *)
Record StoredResponse := Stored {
  id : string;
  model : string;
  prompt : string;
  timestamp : Z;
  status : option string
}.

(** What reading and parsing the index file gives: nothing (the file is
    missing or is not JSON), a value that is not an array, or an array of
    stored responses. *)
Inductive index_file :=
| Unreadable
| NotArray
| Index (l : list StoredResponse).

Record disk := Disk {
  index : index_file;           (* index.json *)
  clock : Z;                    (* Date.now() *)
  write_fault : option string   (* the error fs.writeFile rejects with *)
}.

Inductive result (A : Type) :=
| Done (a : A)
| Raised (msg : string).
Arguments Done {A}.
Arguments Raised {A}.

(** [fs.writeFile(RESPONSE_INDEX_FILE, JSON.stringify(l, null, 2))] *)
Definition write_index (l : list StoredResponse) (d : disk) : result unit * disk :=
  match write_fault d with
  | Some e => (Raised e, d)
  | None => (Done tt, Disk (Index l) (clock d) None)
  end.

(** [storeResponseId(responseId, model, prompt, status)] *)
Definition storeResponseId (responseId model prompt : string)
           (status : option string) (d : disk) : result unit * disk :=
  let storedResponse :=
    Stored responseId model (substring 0 100 prompt) (clock d) status in
  match index d with
  | NotArray => (Raised "index.unshift is not a function", d)
  | parsed =>
      let index0 := match parsed with Index l => l | _ => [] end in
      let index1 := storedResponse :: index0 in
      let index2 := if (100 <? length index1)%nat then firstn 100 index1
                    else index1 in
      write_index index2 d
  end.

(** [getStoredResponses()]: the parsed file, the empty array when it
    cannot be read. *)
Definition getStoredResponses (d : disk) : index_file :=
  match index d with
  | Unreadable => Index []
  | parsed => parsed
  end.

(** [r.id === responseId] *)
Definition has_id (responseId : string) (r : StoredResponse) : bool :=
  String.eqb (id r) responseId.

(** [getResponseById(responseId)] *)
Definition getResponseById (responseId : string) (d : disk)
  : result (option StoredResponse) :=
  match getStoredResponses d with
  | Index responses => Done (find (has_id responseId) responses)
  | _ => Raised "responses.find is not a function"
  end.

(** [responses[index].status = status] at the first entry with the
    identifier; [None] when [findIndex] answers -1. *)
Fixpoint set_status (responseId status : string) (l : list StoredResponse)
  : option (list StoredResponse) :=
  match l with
  | [] => None
  | r :: rest =>
      if has_id responseId r
      then Some (Stored (id r) (model r) (prompt r) (timestamp r) (Some status)
                   :: rest)
      else match set_status responseId status rest with
           | Some rest' => Some (r :: rest')
           | None => None
           end
  end.

(** [updateResponseStatus(responseId, status)] *)
Definition updateResponseStatus (responseId status : string) (d : disk)
  : result unit * disk :=
  match getStoredResponses d with
  | Index responses =>
      match set_status responseId status responses with
      | Some responses' => write_index responses' d
      | None => (Done tt, d)
      end
  | _ => (Raised "responses.findIndex is not a function", d)
  end.

(** One call of [storeResponseId], as its arguments. *)
Record store_call := Store {
  s_id : string; s_model : string; s_prompt : string; s_status : option string
}.

(** A sequence of calls of [storeResponseId], first call first. *)
Fixpoint store_all (calls : list store_call) (d : disk) : disk :=
  match calls with
  | [] => d
  | c :: rest =>
      store_all rest
        (snd (storeResponseId (s_id c) (s_model c) (s_prompt c) (s_status c) d))
  end.

End ResponseStore.

Module UploadSpec.
Import JS Remote Attachments RunSpec.

(** The last event is a check of the file input that found the file. *)
Definition registered (s : remote) (name : string) (tr : list event) : Prop :=
  exists k t rest,
    tr = Called (CSelection name) k t :: rest
    /\ res (on_selection s k) = inr true.

(** The last event is a fetch of the document or a query of a file input
    that was rejected with the error. *)
Definition dom_rejected (s : remote) (tr : list event) (e : error) : Prop :=
  exists c k t rest,
    tr = Called c k t :: rest
    /\ ((c = CGetDocument /\ res (on_getDocument s k) = inl e)
        \/ (exists root sel, c = CQuerySelector root sel)
           /\ res (on_querySelector s k) = inl e).

Definition no_dom_error : error :=
  Err "DOM domain unavailable while uploading attachments.".

(** The trace [tr] ends with the failure [e] of an attempt: the query of
    the second file input selector found nothing and [e] is the locate
    failure; or a check of the file input did not list the file, the
    sleep after it ended the wait, and [e] is the mismatch; or assigning
    the file, or a check of the file input, was rejected with [e]. *)
Definition last_failure (s : remote) (name : string) (tr : list event)
           (e : error) : Prop :=
  (e = locate_error
   /\ exists root k t rest,
        tr = Called (CQuerySelector root GENERIC_FILE_INPUT_SELECTOR) k t :: rest
        /\ res (on_querySelector s k) = inr 0)
  \/ (e = mismatch_error
      /\ exists k t rest,
           tr = Slept 150 :: Called (CSelection name) k t :: rest
           /\ res (on_selection s k) = inr false)
  \/ (exists node file k t rest,
        tr = Called (CSetFileInputFiles node file) k t :: rest
        /\ res (on_setFileInputFiles s k) = inl e)
  \/ (exists k t rest,
        tr = Called (CSelection name) k t :: rest
        /\ res (on_selection s k) = inl e).

End UploadSpec.

(** ** The thinking status monitor of [runBrowserMode] (index.ts) *)

Module Monitor.
Import JS.

(** Where the callback of the interval is suspended. *)
Inductive phase :=
| Resting                         (* no callback is running *)
| Reading                         (* await readThinkingStatus(Runtime) *)
| Snapshotting (message : string). (* await readAssistantSnapshot(Runtime) *)

(** A line handed to the logger: the message and the locator suffix that
    [formatThinkingLog] is called with. *)
Record line := Line { message : string; locatorSuffix : string }.

(** The variables of the closure of [startThinkingStatusMonitor]. *)
Record monitor := Monitor_ {
  includeDiagnostics : bool;
  stopped : bool;
  pending : bool;
  lastMessage : option string;
  at_phase : phase;
  samples : nat;          (* calls of readThinkingStatus so far *)
  lines : list line       (* newest first *)
}.

(** What happens to the monitor: the interval fires, the status or the
    snapshot that the callback awaits arrives (a value, or [None] when
    the call threw), or the stop function is called. *)
Inductive event :=
| Fire
| StatusRead (r : option (option string))
| SnapshotRead (r : option bool)
| Stop.

(** [startThinkingStatusMonitor(Runtime, logger, includeDiagnostics)] *)
Definition startThinkingStatusMonitor (diagnostics : bool) : monitor :=
  Monitor_ diagnostics false false None Resting 0 [].

(** The [finally] block, after the line [l] was logged or none. *)
Definition finish (m : monitor) (last : option string) (l : option line) : monitor :=
  Monitor_ (includeDiagnostics m) (stopped m) false last Resting (samples m)
           (match l with Some x => x :: lines m | None => lines m end).

Definition suffix_of (r : option bool) : string :=
  match r with
  | Some true => " | assistant-turn=present"
  | Some false => " | assistant-turn=missing"
  | None => " | assistant-turn=error"
  end.

(** One step of the monitor, from an event to the next [await]. *)
Definition step (m : monitor) (ev : event) : monitor :=
  match ev with
  | Fire =>
      if stopped m || pending m then m
      else Monitor_ (includeDiagnostics m) (stopped m) true (lastMessage m)
                    Reading (S (samples m)) (lines m)
  | StatusRead r =>
      match at_phase m with
      | Reading =>
          match r with
          | Some nextMessage =>
              if truthy_opt nextMessage
                 && negb (opt_eqb nextMessage (lastMessage m))
              then
                match nextMessage with
                | Some text =>
                    if includeDiagnostics m then
                      Monitor_ true (stopped m) true (Some text)
                               (Snapshotting text) (samples m) (lines m)
                    else finish m (Some text) (Some (Line text EmptyString))
                | None => finish m (lastMessage m) None
                end
              else finish m (lastMessage m) None
          | None => finish m (lastMessage m) None
          end
      | _ => m
      end
  | SnapshotRead r =>
      match at_phase m with
      | Snapshotting text =>
          finish m (lastMessage m) (Some (Line text (suffix_of r)))
      | _ => m
      end
  | Stop =>
      if stopped m then m
      else Monitor_ (includeDiagnostics m) true (pending m) (lastMessage m)
                    (at_phase m) (samples m) (lines m)
  end.

(** The monitor after the events, first event first. *)
Definition run (evs : list event) (m : monitor) : monitor :=
  fold_left step evs m.

(** No two neighbours of the list are equal. *)
Fixpoint no_repeat (l : list string) : Prop :=
  match l with
  | a :: ((b :: _) as r) => a <> b /\ no_repeat r
  | _ => True
  end.

(** The monitor is consistent: a callback is running exactly while
    [pending] is set, and [lastMessage] is the message of the newest
    line, or of the line the running callback is about to log. *)
Definition consistent (m : monitor) : Prop :=
  (pending m = true <-> at_phase m <> Resting)
  /\ match at_phase m with
     | Snapshotting text =>
         lastMessage m = Some text /\ includeDiagnostics m = true
         /\ text <> EmptyString
         /\ match lines m with
            | l :: _ => message l <> text
            | [] => True
            end
     | _ => lastMessage m = match lines m with
                            | l :: _ => Some (message l)
                            | [] => None
                            end
     end
  /\ no_repeat (map message (lines m))
  /\ Forall (fun l => message l <> EmptyString) (lines m).

(** The number of status readings that arrived. *)
Fixpoint status_reads (evs : list event) : nat :=
  match evs with
  | [] => 0
  | StatusRead _ :: r => S (status_reads r)
  | _ :: r => status_reads r
  end.

End Monitor.

(** ** The Gemini page actions (gemini/actions.ts) *)

Module Gemini.
Import JS Remote.

(** The answers of the Gemini page to the calls of the actions, by the
    number of the call. *)
Record page := {
  (* Runtime.evaluate of [document.readyState]: [result?.value] *)
  g_readyState : nat -> answer (option string);
  (* Runtime.evaluate of the prompt check: the truthiness of [result?.value] *)
  g_prompt : nat -> answer bool;
  (* Runtime.evaluate of the response extractor: [result?.value] when it
     is a string *)
  g_response : nat -> answer (option string);
  (* Page.navigate *)
  g_navigate : nat -> answer unit
}.

Inductive gcall :=
| GReadyState | GPrompt | GResponse | GNavigate (target : string).

Inductive gevent :=
| GCalled (c : gcall) (k : nat) (t : Z)
| GSlept (ms : Z)
| GLogged (line : string).

Record gworld := GWorld {
  g_script : page;
  g_now : Z;
  g_calls : nat;
  g_trace : list gevent
}.

Definition G (A : Type) : Type := gworld -> outcome A * gworld.

Definition gret {A} (a : A) : G A := fun w => (Ok a, w).
Definition gthrow {A} (e : error) : G A := fun w => (Throw e, w).
Definition gcut {A} : G A := fun w => (Cut, w).

Definition gbind {A B} (m : G A) (f : A -> G B) : G B :=
  fun w => match m w with
           | (Ok a, w') => f a w'
           | (Throw e, w') => (Throw e, w')
           | (Cut, w') => (Cut, w')
           end.

Declare Scope gemini_scope.
Delimit Scope gemini_scope with gemini.
Notation "x <- m ;; k" := (gbind m (fun x => k))
  (at level 61, m at next level, right associativity) : gemini_scope.
Notation "m ;;; k" := (gbind m (fun _ => k))
  (at level 61, right associativity) : gemini_scope.
Local Open Scope gemini_scope.

(** [Date.now()] *)
Definition gnow : G Z := fun w => (Ok (g_now w), w).

(** [logger(line)] *)
Definition glog (line : string) : G unit :=
  fun w => (Ok tt, GWorld (g_script w) (g_now w) (g_calls w)
                          (GLogged line :: g_trace w)).

(** [delay(ms)] of utils.js, as in the browser actions: the run is
    suspended for [ms] milliseconds. *)
Definition gdelay (ms : Z) : G unit :=
  fun w => (Ok tt, GWorld (g_script w) (g_now w + Z.max 0 ms) (g_calls w)
                          (GSlept ms :: g_trace w)).

(** A call on the channel. *)
Definition ginvoke {A} (c : gcall) (pick : page -> nat -> answer A) : G A :=
  fun w =>
    let a := pick (g_script w) (g_calls w) in
    let t := g_now w + Z.of_N (lat a) in
    let w' := GWorld (g_script w) t (S (g_calls w))
                     (GCalled c (g_calls w) t :: g_trace w) in
    match res a with
    | inl e => (Throw e, w')
    | inr v => (Ok v, w')
    end.

Definition ready_error : error :=
  Err "Gemini page did not reach ready state in time".

(** [result?.value === 'complete' || result?.value === 'interactive'] *)
Definition is_ready (v : option string) : bool :=
  match v with
  | Some st => String.eqb st "complete" || String.eqb st "interactive"
  | None => false
  end.

(** The loop of [waitForDocumentReady] and the throw after it; [fuel]
    bounds the number of iterations. *)
Fixpoint document_loop (fuel : nat) (start timeoutMs : Z) : G unit :=
  match fuel with
  | O => gcut
  | S fuel' =>
      t <- gnow ;;
      if t - start <? timeoutMs then
        v <- ginvoke GReadyState g_readyState ;;
        if is_ready v then gret tt
        else gdelay 100 ;;; document_loop fuel' start timeoutMs
      else gthrow ready_error
  end.

(** [waitForDocumentReady(Runtime, timeoutMs)] *)
Definition waitForDocumentReady (fuel : nat) (timeoutMs : Z) : G unit :=
  start <- gnow ;;
  document_loop fuel start timeoutMs.

(** [navigateToGemini(Page, Runtime, url, logger)] *)
Definition navigateToGemini (fuel : nat) (url : string) : G unit :=
  glog ("Navigating to Gemini at " ++ url) ;;;
  ginvoke (GNavigate url) g_navigate ;;;
  waitForDocumentReady fuel 45000.

(** The loop of [waitForGeminiPrompt]. *)
Fixpoint prompt_loop (fuel : nat) (deadline : Z) : G bool :=
  match fuel with
  | O => gcut
  | S fuel' =>
      t <- gnow ;;
      if t <? deadline then
        found <- ginvoke GPrompt g_prompt ;;
        if found then gret true
        else gdelay 200 ;;; prompt_loop fuel' deadline
      else gret false
  end.

(** [waitForGeminiPrompt(Runtime, timeoutMs)] *)
Definition waitForGeminiPrompt (fuel : nat) (timeoutMs : Z) : G bool :=
  t <- gnow ;;
  prompt_loop fuel (t + timeoutMs).

Definition prompt_error : error :=
  Err "Gemini prompt input did not appear before timeout".

(** [ensureGeminiPromptReady(Runtime, timeoutMs, logger)] *)
Definition ensureGeminiPromptReady (fuel : nat) (timeoutMs : Z) : G unit :=
  ready <- waitForGeminiPrompt fuel timeoutMs ;;
  if negb ready then
    glog "Gemini prompt textarea did not appear before timeout" ;;;
    gthrow prompt_error
  else glog "Gemini prompt ready".

(** [typeof result?.value === 'string' ? result.value.trim() : ''] *)
Definition text_of (v : option string) : string :=
  match v with
  | Some s => str (trim_chars (chars s))
  | None => EmptyString
  end.

Definition requiredStableCycles : nat := 6.

Definition response_error : error :=
  Err "Timed out waiting for Gemini response.".

Definition watchdog_line : string :=
  "Gemini response watchdog timeout; returning latest captured text.".

(** The assignments to [lastText] and [stableCycles] after a reading. *)
Definition observe (text lastText : string) (stableCycles : nat) : string * nat :=
  if truthy_str text && negb (String.eqb text lastText) then (text, 0%nat)
  else if truthy_str text then (lastText, S stableCycles)
  else (lastText, 0%nat).

(** The loop of [waitForGeminiResponse] and what follows it. *)
Fixpoint response_loop (fuel : nat) (deadline : Z) (lastText : string)
         (stableCycles : nat) : G string :=
  match fuel with
  | O => gcut
  | S fuel' =>
      t <- gnow ;;
      if t <? deadline then
        v <- ginvoke GResponse g_response ;;
        let text := text_of v in
        let '(lastText', stableCycles') := observe text lastText stableCycles in
        if truthy_str text && (requiredStableCycles <=? stableCycles')%nat
        then gret text
        else gdelay 400 ;;; response_loop fuel' deadline lastText' stableCycles'
      else
        if truthy_str lastText then
          glog watchdog_line ;;; gret lastText
        else gthrow response_error
  end.

(** [waitForGeminiResponse(Runtime, timeoutMs, logger)] *)
Definition waitForGeminiResponse (fuel : nat) (timeoutMs : Z) : G string :=
  glog "Waiting for Gemini response" ;;;
  t <- gnow ;;
  response_loop fuel (t + timeoutMs) EmptyString 0.

End Gemini.

Module GeminiSpec.
Import JS Remote Gemini.

(** The reading number [k] of the response gave the text [text], after
    trimming. *)
Definition answered (s : page) (k : nat) (text : string) : Prop :=
  exists v, res (g_response s k) = inr v /\ text_of v = text.

(** The reading [k0] gave the text, and every later reading before [k]
    gave the same text or none: the text is the one captured last. *)
Definition captured_last (s : page) (k0 k : nat) (text : string) : Prop :=
  answered s k0 text
  /\ forall j, (k0 < j < k)%nat -> answered s j text \/ answered s j EmptyString.

(** What the loop of [waitForGeminiResponse] knows after the readings
    from [c0] up to [k]: no reading gave a text while [lastText] is
    empty; otherwise [lastText] is the text captured last, and each of the
    last [stableCycles] readings gave it. *)
Definition tracked (s : page) (c0 k : nat) (lastText : string)
           (stableCycles : nat) : Prop :=
  (lastText = EmptyString ->
     stableCycles = 0%nat
     /\ forall j, (c0 <= j < k)%nat -> answered s j EmptyString)
  /\ (lastText <> EmptyString ->
        exists k0, (c0 <= k0 < k - stableCycles)%nat
                   /\ captured_last s k0 k lastText)
  /\ (forall j, (k - stableCycles <= j < k)%nat -> answered s j lastText)
  /\ (stableCycles <= k - c0)%nat.

(** The last event is a call that was rejected with the error. *)
Definition call_rejected (tr : list gevent) (s : page) (e : error) : Prop :=
  exists c k t rest,
    tr = GCalled c k t :: rest
    /\ match c with
       | GReadyState => res (g_readyState s k) = inl e
       | GPrompt => res (g_prompt s k) = inl e
       | GResponse => res (g_response s k) = inl e
       | GNavigate _ => res (g_navigate s k) = inl e
       end.

(** A Gemini page that is loaded, shows its prompt, and answers every
    reading of the response with the text [reply]. *)
Definition settled_page (reply : string) : page :=
  {| g_readyState := fun _ => Answer 0%N (inr (Some "complete"));
     g_prompt := fun _ => Answer 0%N (inr true);
     g_response := fun _ => Answer 0%N (inr (Some reply));
     g_navigate := fun _ => Answer 0%N (inr tt) |}.

(** A Gemini page that never loads and never shows a prompt or a
    response. *)
Definition blank_page : page :=
  {| g_readyState := fun _ => Answer 0%N (inr (Some "loading"));
     g_prompt := fun _ => Answer 0%N (inr false);
     g_response := fun _ => Answer 0%N (inr None);
     g_navigate := fun _ => Answer 0%N (inr tt) |}.

(** A Gemini page whose response shows [draft] at the first reading,
    [final] at the second, and nothing afterwards. *)
Definition fading_page (draft final : string) : page :=
  {| g_readyState := fun _ => Answer 0%N (inr (Some "complete"));
     g_prompt := fun _ => Answer 0%N (inr true);
     g_response := fun k =>
       match k with
       | 0%nat => Answer 0%N (inr (Some draft))
       | 1%nat => Answer 0%N (inr (Some final))
       | _ => Answer 0%N (inr None)
       end;
     g_navigate := fun _ => Answer 0%N (inr tt) |}.

Definition gstart (s : page) : gworld := GWorld s 0 0 [].

End GeminiSpec.

(** ** Facts about the effects *)
Module RemoteFacts.
Import Remote RunSpec VerifySpec.
Local Open Scope js_scope.

Lemma same_frame_refl w : same_frame w w.
Proof. repeat split. Qed.

Lemma same_frame_trans w1 w2 w3 :
  same_frame w1 w2 -> same_frame w2 w3 -> same_frame w1 w3.
Proof.
  unfold same_frame; intros (a & b & c & d) (a' & b' & c' & d').
  repeat split; congruence.
Qed.

Lemma log_frame m w : exists w', log m w = (Ok tt, w') /\ same_frame w w'.
Proof. eexists; split; [reflexivity|]. repeat split. Qed.

Lemma steady_ret {A} (a : A) : steady_run (ret a).
Proof. intros w; simpl; repeat split; lia. Qed.

Lemma steady_throw {A} e : steady_run (@throw A e).
Proof. intros w; simpl; repeat split; lia. Qed.

Lemma steady_cut {A} : steady_run (@cut A).
Proof. intros w; simpl; repeat split; lia. Qed.

Lemma steady_log m : steady_run (log m).
Proof. intros w; simpl; repeat split; lia. Qed.

Lemma steady_date_now : steady_run date_now.
Proof. intros w; simpl; repeat split; lia. Qed.

Lemma steady_delay ms : steady_run (delay ms).
Proof. intros w; simpl; repeat split; lia. Qed.

Lemma steady_invoke {A} c (pick : remote -> nat -> answer A) : steady_run (invoke c pick).
Proof.
  intros w; unfold invoke. destruct (res (pick (script w) (calls w)));
    simpl; repeat split; lia.
Qed.

Lemma steady_bind {A B} (m : M A) (f : A -> M B) :
  steady_run m -> (forall a, steady_run (f a)) -> steady_run (bind m f).
Proof.
  intros Hm Hf w. unfold bind. specialize (Hm w).
  destruct (m w) as [[a|e|] w1]; simpl in *; try exact Hm.
  specialize (Hf a w1). destruct Hm as (? & ? & ?), Hf as (? & ? & ?).
  repeat split; [congruence|lia|lia].
Qed.

Lemma steady_try {A} (m : M A) (h : error -> M A) :
  steady_run m -> (forall e, steady_run (h e)) -> steady_run (try_catch m h).
Proof.
  intros Hm Hh w. unfold try_catch. specialize (Hm w).
  destruct (m w) as [[a|e|] w1]; simpl in *; try exact Hm.
  specialize (Hh e w1). destruct Hm as (? & ? & ?), Hh as (? & ? & ?).
  repeat split; [congruence|lia|lia].
Qed.

Lemma steady_when b m : steady_run m -> steady_run (when b m).
Proof. destruct b; simpl; [auto|intros _; apply steady_ret]. Qed.

Create HintDb steady.
#[export] Hint Resolve steady_ret steady_throw steady_cut steady_log
  steady_date_now steady_delay steady_invoke steady_when : steady.

(** Takes a goal [steady_run m] apart along the shape of [m]. *)
Ltac steady_step :=
  match goal with
  | |- steady_run (bind _ _) => apply steady_bind; [|intro]
  | |- steady_run (try_catch _ _) => apply steady_try; [|intro]
  | |- steady_run (if ?b then _ else _) => destruct b
  | |- steady_run (match ?x with _ => _ end) => destruct x
  | |- steady_run _ => solve [auto with steady]
  end.

Ltac steady_tac := repeat steady_step.

End RemoteFacts.

(** ** Filename normalisation *)
Module NormalizeFacts.
Import JS Normalize.

Lemma chars_str l : chars (str l) = l.
Proof. apply list_ascii_of_string_of_list_ascii. Qed.

Lemma lower_char_idem c : lower_char (lower_char c) = lower_char c.
Proof. destruct c as [[] [] [] [] [] [] [] []]; reflexivity. Qed.

Lemma lower_char_space c : is_space (lower_char c) = is_space c.
Proof. destruct c as [[] [] [] [] [] [] [] []]; reflexivity. Qed.

(** Case folding: the key does not depend on the case of the name. *)
Lemma normalizeFilename_case s :
  normalizeFilename (toLowerCase s) = normalizeFilename s.
Proof.
  unfold normalizeFilename, toLowerCase. rewrite chars_str, map_map.
  f_equal. f_equal. f_equal. f_equal. f_equal. f_equal.
  apply map_ext. apply lower_char_idem.
Qed.

Lemma drop_while_spaces pad l :
  forallb is_space pad = true -> drop_while is_space (pad ++ l) = drop_while is_space l.
Proof.
  induction pad as [|c pad IH]; simpl; [reflexivity|].
  intros H. apply andb_prop in H. destruct H as (-> & H). auto.
Qed.

Lemma drop_while_end_spaces pad l :
  forallb is_space pad = true ->
  drop_while_end is_space (l ++ pad) = drop_while_end is_space l.
Proof.
  intros H. unfold drop_while_end. rewrite rev_app_distr.
  rewrite drop_while_spaces; [reflexivity|].
  rewrite forallb_forall in *. intros x Hx. apply H. now apply in_rev.
Qed.

Lemma trim_chars_right pad : forall l,
  forallb is_space pad = true -> trim_chars (l ++ pad) = trim_chars l.
Proof.
  unfold trim_chars. induction l as [|c l IH]; intros H.
  - simpl. rewrite <- (app_nil_r pad) at 1. rewrite drop_while_spaces by exact H.
    reflexivity.
  - simpl. destruct (is_space c); [apply IH; exact H|].
    change (c :: l ++ pad)%list with ((c :: l) ++ pad)%list.
    apply drop_while_end_spaces; exact H.
Qed.

(** Trimming: white space around the name does not change the key. *)
Lemma trim_chars_pad before after l :
  forallb is_space before = true -> forallb is_space after = true ->
  trim_chars (before ++ l ++ after) = trim_chars l.
Proof.
  intros Hb Ha. rewrite app_assoc, trim_chars_right by exact Ha.
  unfold trim_chars. rewrite drop_while_spaces by exact Hb. reflexivity.
Qed.

Lemma normalizeFilename_pad before after s :
  forallb is_space (chars before) = true -> forallb is_space (chars after) = true ->
  normalizeFilename (before ++ s ++ after) = normalizeFilename s.
Proof.
  intros Hb Ha. unfold normalizeFilename.
  assert (A : forall a b, chars (a ++ b) = (chars a ++ chars b)%list).
  { intros a b. unfold chars. induction a; simpl; [reflexivity|]. now rewrite IHa. }
  rewrite !A, !map_app.
  rewrite trim_chars_pad; [reflexivity| |];
    rewrite forallb_forall in *; intros x Hx; apply in_map_iff in Hx;
    destruct Hx as (y & <- & Hy); rewrite lower_char_space; auto.
Qed.

(** C9 (as amended).  [normalizeFilename] folds the case, trims, strips
    a quote at the start and a quote at the end, collapses runs of white
    space, and strips a duplicate count in parentheses only where it ends
    the name; so the names My File.TXT (1), my file.txt and my file.txt
    with spaces around it have one key, and so has the name in quotes or
    with several spaces inside; the count in My File (1).TXT stands
    before the extension and stays in the key. *)
Theorem normalizeFilename_keys :
  (forall s, normalizeFilename (toLowerCase s) = normalizeFilename s)
  /\ (forall before after s,
        forallb is_space (chars before) = true ->
        forallb is_space (chars after) = true ->
        normalizeFilename (before ++ s ++ after) = normalizeFilename s)
  /\ normalizeFilename "My File.TXT (1)" = "my file.txt"
  /\ normalizeFilename "my file.txt" = "my file.txt"
  /\ normalizeFilename "  my file.txt  " = "my file.txt"
  /\ normalizeFilename "'My   File.txt'" = "my file.txt"
  /\ normalizeFilename "my file.txt(12)" = "my file.txt"
  /\ normalizeFilename "My File (1).TXT" = "my file (1).txt".
Proof.
  split; [exact normalizeFilename_case|].
  split; [exact normalizeFilename_pad|].
  repeat split; reflexivity.
Qed.

Lemma normalizeFilename_keys_witness :
  forallb is_space (chars "  ") = true
  /\ normalizeFilename ("  " ++ "My File.TXT" ++ "  ") = normalizeFilename "My File.TXT".
Proof.
  split; [reflexivity|].
  destruct normalizeFilename_keys as (_ & Pad & _).
  apply Pad; reflexivity.
Defined.

(** C9 (as stated) fails: the duplicate count of My File (1).TXT is not
    at the end of the name, so it is kept, and the key differs from the
    key of my file.txt. *)
Lemma count_before_extension_is_kept :
  normalizeFilename "My File (1).TXT" <> normalizeFilename "my file.txt".
Proof. vm_compute. intros H; discriminate H. Qed.

End NormalizeFacts.

(** ** The exclusivity lock *)
Module LockFacts.
Import Lock.

Lemma owns_goto p l : owns (goto p l) = match l with
                                       | Fill | Held | RelRead | RelRemove => true
                                       | _ => false
                                       end.
Proof. reflexivity. Qed.

(** Swapping the two contenders keeps the invariant. *)
Lemma exclusive_swap w a b : exclusive (w, a, b) -> exclusive (w, b, a).
Proof.
  unfold exclusive, file_of. intros (Ha & Hb & Hne & Ia & Ib & F & X).
  repeat split; try tauto; try apply Ha; try apply Hb; auto.
Qed.

(** Where a process that does not have the lock is suspended does not
    depend on the lock file. *)
Lemma in_step_other w w' p : owns p = false -> in_step w p -> in_step w' p.
Proof. unfold owns, in_step. destruct (at_pc p); auto; discriminate. Qed.

(** While a process has the lock, the lock file is there. *)
Lemma in_step_file w p : owns p = true -> in_step w p -> file w <> None.
Proof.
  unfold owns, in_step. destruct (at_pc p); try discriminate;
    intros _ H; rewrite H; discriminate.
Qed.

Lemma not_owner p : (owns p = true -> False) -> owns p = false.
Proof. destruct (owns p); auto. intros H; exfalso; auto. Qed.

Ltac fin :=
  repeat split; auto;
  try (let O := fresh in intros O; cbn in O; discriminate O).

(** A step of the first contender keeps the invariant. *)
Lemma exclusive_step_a w a b w' a' :
  exclusive (w, a, b) -> step w a = (w', a') -> exclusive (w', a', b).
Proof.
  unfold exclusive. intros ((Pa & Ra) & (Pb & Rb) & Hne & Ia & Ib & F & X) E.
  unfold step in E.
  assert (Nb : owns a = true -> owns b = false) by (intros; apply not_owner; auto).
  destruct (at_pc a) eqn:Pc.
  - (* Create *)
    destruct (file w) as [c|] eqn:Fw.
    + injection E as <- <-. fin.
    + assert (Ob : owns b = false).
      { apply not_owner. intros O. apply (in_step_file w b O Ib Fw). }
      destruct (create_fault w) as [code|].
      * destruct (contended code); injection E as <- <-; fin.
      * injection E as <- <-. fin.
        -- eapply in_step_other; eauto.
        -- right; left; reflexivity.
        -- intros _ O. congruence.
  - (* Fill *)
    unfold in_step in Ia. rewrite Pc in Ia. rewrite Ia, Z.eqb_refl in E.
    injection E as <- <-.
    assert (Ob : owns b = false) by (apply Nb; unfold owns; rewrite Pc; reflexivity).
    fin.
    + eapply in_step_other; eauto.
    + right; right; right; left; reflexivity.
    + intros _ O. congruence.
  - (* Read *)
    assert (Alive : forall e, readExistingLock w = Some e ->
                              isProcessAlive w (pid e) = true).
    { unfold readExistingLock. intros e.
      destruct F as [F|[F|[F|[F|F]]]]; rewrite F; try discriminate;
        unfold record_of; intros H; injection H as <-; simpl.
      - destruct (self a <=? 0) eqn:L; [apply Z.leb_le in L; lia|exact Ra].
      - destruct (self b <=? 0) eqn:L; [apply Z.leb_le in L; lia|exact Rb]. }
    destruct (readExistingLock w) as [e|].
    + rewrite (Alive e eq_refl) in E. cbn [negb] in E.
      destruct ((0 <? timeoutMs a) && (deadline a <? now w));
        destruct (hasLoggedWaiting a); injection E as <- <-; fin.
    + injection E as <- <-. fin.
  - (* Remove *)
    unfold in_step in Ia. rewrite Pc in Ia. contradiction.
  - (* Backoff *)
    injection E as <- <-. fin.
  - (* Held *)
    injection E as <- <-. fin.
  - (* RelRead *)
    unfold in_step in Ia. rewrite Pc in Ia.
    unfold readExistingLock in E. rewrite Ia in E. unfold record_of in E.
    cbn [pid is_self] in E. rewrite Z.eqb_refl in E.
    injection E as <- <-. fin.
    intros _ O. rewrite Nb in O; [discriminate O|].
    unfold owns; rewrite Pc; reflexivity.
  - (* RelRemove *)
    assert (Ob : owns b = false) by (apply Nb; unfold owns; rewrite Pc; reflexivity).
    destruct (rm_denied w); injection E as <- <-; fin.
    + eapply in_step_other; eauto.
    + left; reflexivity.
  - (* Idle *)
    injection E as <- <-. fin.
  - (* Thrown *)
    injection E as <- <-. fin.
Qed.

(** Calling the release function keeps the invariant. *)
Lemma exclusive_release_a w a b :
  exclusive (w, a, b) -> at_pc a = Held -> exclusive (w, call_release a, b).
Proof.
  unfold exclusive, call_release.
  intros ((Pa & Ra) & (Pb & Rb) & Hne & Ia & Ib & F & X) Pc.
  destruct (released a); [fin|].
  unfold in_step in Ia. rewrite Pc in Ia.
  assert (Oa : owns a = true) by (unfold owns; rewrite Pc; reflexivity).
  fin.
Qed.

(** Every move of the two contenders keeps the invariant. *)
Lemma exclusive_interleave s s' : exclusive s -> interleave s s' -> exclusive s'.
Proof.
  intros I St. destruct St as [w a b w' a' E|w a b w' b' E|w a b H|w a b H|w a b t].
  - eapply exclusive_step_a; eauto.
  - apply exclusive_swap. eapply exclusive_step_a; eauto. apply exclusive_swap; exact I.
  - apply exclusive_release_a; assumption.
  - apply exclusive_swap. apply exclusive_release_a; [apply exclusive_swap; exact I|exact H].
  - exact I.
Qed.

(** On a free path, two live contenders with different process ids
    start in the invariant. *)
Lemma exclusive_start w a b :
  file w = None -> contender w a -> contender w b -> self a <> self b ->
  exclusive (w, a, b).
Proof.
  intros Fw (Ca & Pa & Ra) (Cb & Pb & Rb) Hne.
  unfold exclusive, in_step, file_of, owns. rewrite Ca, Cb.
  repeat split; auto. discriminate.
Qed.

Lemma exclusive_reachable s0 s : exclusive s0 -> reachable s0 s -> exclusive s.
Proof.
  intros I R. induction R as [|s s' R IH St]; [exact I|].
  eapply exclusive_interleave; eauto.
Qed.

(** A process that has the lock keeps it until its release function has
    run to its end. *)
Lemma owner_leaves_by_release w p :
  owns p = true -> in_step w p ->
  owns (snd (step w p)) = true
  \/ (at_pc p = RelRemove /\ at_pc (snd (step w p)) = Idle
      /\ (rm_denied w = false -> file (fst (step w p)) = None)).
Proof.
  unfold owns, in_step, step. destruct (at_pc p) eqn:Pc; try discriminate; intros _ I.
  - left. reflexivity.
  - left. cbn [snd]. rewrite Pc. reflexivity.
  - left. unfold readExistingLock. rewrite I. unfold record_of.
    cbn [pid is_self]. rewrite Z.eqb_refl. reflexivity.
  - right. destruct (rm_denied w); repeat split; auto; discriminate.
Qed.

Lemma play_move_reachable s0 m s :
  reachable s0 s -> reachable s0 (play_move m s).
Proof.
  intros R. destruct s as [[w a] b]. destruct m; cbn [play_move].
  - destruct (step w a) as [w' a'] eqn:E. eapply reach_step; [exact R|].
    apply step_a; exact E.
  - destruct (step w b) as [w' b'] eqn:E. eapply reach_step; [exact R|].
    apply step_b; exact E.
  - destruct (at_pc a) eqn:Pc; try exact R.
    eapply reach_step; [exact R|]. apply release_a; exact Pc.
  - destruct (at_pc b) eqn:Pc; try exact R.
    eapply reach_step; [exact R|]. apply release_b; exact Pc.
  - eapply reach_step; [exact R|]. apply tick.
Qed.

(** Every schedule leads to a reachable state. *)
Lemma play_reachable ms : forall s0 s, reachable s0 s -> reachable s0 (play ms s).
Proof.
  unfold play. induction ms as [|m ms IH]; intros s0 s R; cbn [fold_left].
  - exact R.
  - apply IH. apply play_move_reachable. exact R.
Qed.

(** Alone on a free path, a process has the lock after its first
    attempt: the file is created and filled. *)
Lemma first_attempt w p :
  file w = None -> create_fault w = None -> at_pc p = Create ->
  run 2 w p = (set_file w (Some (record_of p)), goto (say p Acquired) Held).
Proof.
  destruct w as [f r d c t], p as [me l tm dl cr hl rl lg]. cbn.
  intros -> -> ->. cbn. rewrite Z.eqb_refl. reflexivity.
Qed.

(** The lock on a path that is free at the start.  Two live contenders,
    with different process ids, start [acquireBrowserLock] on a lock
    path that is free.  Whichever runs
    first succeeds at once: its first attempt creates the file, and it
    holds the lock without having waited.  In every state the two can
    reach, whatever the interleaving of their steps: at most one of them
    has the lock; while one has acquired and not finished its release,
    the file at the path is its record, valid and of a live process; an
    attempt of the other to create the file then fails and leads it to
    read the lock (it observes contention); and when one holds the lock
    although the other has acquired it before, the release of the other
    has run to its end. *)
Theorem two_contenders_exclusive
  (w0 : world) (a0 b0 : proc) (w : world) (a b : proc) :
  file w0 = None -> create_fault w0 = None ->
  contender w0 a0 -> contender w0 b0 -> self a0 <> self b0 ->
  reachable (w0, a0, b0) (w, a, b) ->
  (forall p, p = a0 \/ p = b0 ->
     at_pc (snd (run 2 w0 p)) = Held
     /\ file (fst (run 2 w0 p)) = Some (record_of p)
     /\ now (fst (run 2 w0 p)) = now w0)
  /\ owns a && owns b = false
  /\ (forall p, p = a \/ p = b -> owns p = true -> at_pc p <> Fill ->
        file w = Some (record_of p)
        /\ readExistingLock w = Some (Payload (Int (self p)) (Int (created p)))
        /\ isProcessAlive w (Int (self p)) = true)
  /\ (forall p q, (p = a /\ q = b) \/ (p = b /\ q = a) ->
        owns p = true ->
        (at_pc q = Create -> at_pc (snd (step w q)) = Read)
        /\ (has_acquired q = true -> at_pc q = Idle)).
Proof.
  intros Fw Cf Ca Cb Hne R.
  pose proof (exclusive_start w0 a0 b0 Fw Ca Cb Hne) as I0.
  pose proof (exclusive_reachable _ _ I0 R) as I.
  destruct I as ((Pa & Ra) & (Pb & Rb) & Hne' & Ia & Ib & F & X).
  split; [|split; [|split]].
  - intros p [->| ->]; [destruct Ca as (C & _)|destruct Cb as (C & _)];
      rewrite (first_attempt _ _ Fw Cf C); repeat split.
  - destruct (owns a) eqn:Oa, (owns b) eqn:Ob; try reflexivity. exfalso; auto.
  - assert (G : forall p, 0 < self p -> running w (self p) = true ->
                  in_step w p -> owns p = true -> at_pc p <> Fill ->
                  file w = Some (record_of p)
                  /\ readExistingLock w = Some (Payload (Int (self p)) (Int (created p)))
                  /\ isProcessAlive w (Int (self p)) = true).
    { intros p Pp Rp Ip Op Nf.
      assert (Fp : file w = Some (record_of p)).
      { revert Ip Op Nf. unfold in_step, owns.
        destruct (at_pc p); try discriminate; tauto. }
      split; [exact Fp|]. split.
      - unfold readExistingLock. rewrite Fp. reflexivity.
      - simpl. destruct (self p <=? 0) eqn:L; [apply Z.leb_le in L; lia|exact Rp]. }
    intros p [->| ->]; apply G; assumption.
  - assert (G : forall p q, in_step w p -> in_step w q ->
                  (owns p = true -> owns q = true -> False) ->
                  owns p = true ->
                  (at_pc q = Create -> at_pc (snd (step w q)) = Read)
                  /\ (has_acquired q = true -> at_pc q = Idle)).
    { intros p q Ip Iq Xpq Op. split.
      - intros Cq. unfold step. rewrite Cq.
        pose proof (in_step_file w p Op Ip) as Nn.
        destruct (file w); [reflexivity|congruence].
      - intros Hq. assert (Oq : owns q = false) by (apply not_owner; auto).
        revert Hq Oq. unfold has_acquired, owns.
        destruct (at_pc q); try discriminate; auto. }
    intros p q [(-> & ->)|(-> & ->)]; apply G; auto.
Qed.

Import LockScenario.

Lemma two_contenders_exclusive_witness :
  let s := play handover (free_host, first, second) in
  let w := fst (fst s) in
  let a := snd (fst s) in
  let b := snd s in
  at_pc a = Idle /\ at_pc b = Held
  /\ owns a && owns b = false
  /\ file w = Some (record_of b).
Proof.
  cbv zeta.
  set (s := play handover (free_host, first, second)).
  assert (R : reachable (free_host, first, second) (fst (fst s), snd (fst s), snd s)).
  { replace (fst (fst s), snd (fst s), snd s) with s
      by (destruct s as [[? ?] ?]; reflexivity).
    apply play_reachable. apply reach_start. }
  assert (Ca : contender free_host first) by (repeat split; reflexivity).
  assert (Cb : contender free_host second) by (repeat split; reflexivity).
  assert (Hne : self first <> self second) by (intros H; discriminate H).
  destruct (two_contenders_exclusive free_host first second _ _ _
              eq_refl eq_refl Ca Cb Hne R) as (_ & M & V & _).
  assert (Pb : at_pc (snd s) = Held) by (vm_compute; reflexivity).
  split; [vm_compute; reflexivity|]. split; [exact Pb|]. split; [exact M|].
  apply (V (snd s)); [auto|unfold owns; rewrite Pb; reflexivity|congruence].
Defined.

(** The first call of the release function, case by case. *)
Lemma release_cases w p :
  at_pc p = Held -> released p = false ->
  release 3 w p =
  match readExistingLock w with
  | Some existing =>
      if is_self p (pid existing) then
        if rm_denied w then (w, goto (call_release p) Idle)
        else (set_file w None, goto (say (call_release p) Released) Idle)
      else (w, goto (call_release p) Idle)
  | None => (w, goto (call_release p) Idle)
  end.
Proof.
  destruct p as [me l tm dl cr hl rl lg]. cbn [at_pc released]. intros -> ->.
  unfold release, call_release. cbn [released run settled at_pc].
  unfold step at 1. cbn [at_pc].
  destruct (readExistingLock w) as [e|]; [|reflexivity].
  destruct (is_self _ (pid e)); [|reflexivity].
  cbn [goto at_pc settled]. unfold step at 1. cbn [at_pc].
  destruct (rm_denied w); reflexivity.
Qed.

(** A later call of the release function does nothing. *)
Lemma release_again w p fuel :
  released p = true -> settled (at_pc p) = true -> release fuel w p = (w, p).
Proof.
  intros Rl St. unfold release, call_release. rewrite Rl.
  destruct fuel; [reflexivity|]. cbn [run]. rewrite St. reflexivity.
Qed.

(** C3.  The release function returned by [acquireBrowserLock] never
    throws and returns; it removes the lock file only when the record in
    it names the process itself, and then the file is absent; an error of
    the removal is swallowed; a second call changes nothing, neither the
    file nor what was logged.  In scenario A the path is free, the
    process acquires, the file holds its record, it releases, and the
    file is absent. *)
Theorem release_idempotent (w : world) (p : proc) :
  at_pc p = Held -> released p = false ->
  let w1 := fst (release 3 w p) in
  let p1 := snd (release 3 w p) in
  at_pc p1 = Idle
  /\ (forall fuel, release fuel w1 p1 = (w1, p1))
  /\ (file w1 = file w
      \/ (file w1 = None
          /\ exists c, readExistingLock w = Some (Payload (Int (self p)) c)))
  /\ (forall c, readExistingLock w = Some (Payload (Int (self p)) c) ->
        rm_denied w = false ->
        file w1 = None /\ logged p1 = Released :: logged p)
  /\ (rm_denied w = true -> file w1 = file w)
  /\ (let w' := fst (acquireBrowserLock 3 101 half_hour free_host) in
      let h := snd (acquireBrowserLock 3 101 half_hour free_host) in
      at_pc h = Held /\ file w' = Some (record_of h)
      /\ file (fst (release 3 w' h)) = None
      /\ release 3 (fst (release 3 w' h)) (snd (release 3 w' h)) = release 3 w' h).
Proof.
  intros Pc Rl. cbv zeta. rewrite (release_cases w p Pc Rl).
  assert (Self : forall e, is_self p (pid e) = true ->
                   exists c, e = Payload (Int (self p)) c).
  { intros [[z|] c]; cbn; [|discriminate]. intros H. apply Z.eqb_eq in H.
    subst z. eauto. }
  assert (Last : let w' := fst (acquireBrowserLock 3 101 half_hour free_host) in
      let h := snd (acquireBrowserLock 3 101 half_hour free_host) in
      at_pc h = Held /\ file w' = Some (record_of h)
      /\ file (fst (release 3 w' h)) = None
      /\ release 3 (fst (release 3 w' h)) (snd (release 3 w' h)) = release 3 w' h)
    by (cbv zeta; repeat split; vm_compute; reflexivity).
  unfold call_release. rewrite Rl.
  destruct (readExistingLock w) as [e|] eqn:Re.
  - destruct (is_self p (pid e)) eqn:Is.
    + destruct (Self e Is) as (c & ->).
      destruct (rm_denied w) eqn:D; cbn [fst snd].
      * repeat split; auto; try discriminate.
        intros fuel. apply release_again; reflexivity.
      * repeat split; auto; try discriminate.
        -- intros fuel. apply release_again; reflexivity.
        -- right. split; [reflexivity|]. eauto.
    + cbn [fst snd]. repeat split; auto; try discriminate;
        try (intros fuel; apply release_again; reflexivity).
      all: match goal with
           | H : Some _ = Some _ |- _ =>
               injection H as ->; cbn in Is; rewrite Z.eqb_refl in Is;
               discriminate Is
           end.
  - cbn [fst snd]. repeat split; auto; try discriminate.
    intros fuel. apply release_again; reflexivity.
Qed.

Lemma release_idempotent_witness :
  let w' := fst (acquireBrowserLock 3 101 half_hour free_host) in
  let h := snd (acquireBrowserLock 3 101 half_hour free_host) in
  at_pc h = Held /\ released h = false
  /\ at_pc (snd (release 3 w' h)) = Idle
  /\ file (fst (release 3 w' h)) = None.
Proof.
  cbv zeta.
  assert (Pc : at_pc (snd (acquireBrowserLock 3 101 half_hour free_host)) = Held)
    by reflexivity.
  assert (Rl : released (snd (acquireBrowserLock 3 101 half_hour free_host)) = false)
    by reflexivity.
  split; [exact Pc|]. split; [exact Rl|].
  destruct (release_idempotent
              (fst (acquireBrowserLock 3 101 half_hour free_host)) _ Pc Rl)
    as (I & _ & _ & Rm & _).
  split; [exact I|].
  apply (Rm (Int 0)); reflexivity.
Defined.

Lemma run_add n : forall m w p,
  run (n + m) w p = run m (fst (run n w p)) (snd (run n w p)).
Proof.
  induction n as [|n IH]; intros m w p; [reflexivity|].
  cbn [Nat.add run]. destruct (settled (at_pc p)) eqn:St.
  - cbn [fst snd]. destruct m; [reflexivity|]. cbn [run]. rewrite St. reflexivity.
  - destruct (step w p) as [w' p']. apply IH.
Qed.

(** A contender that meets the record of a dead process and cannot
    remove it is back at its next attempt after one retry delay. *)
Lemma stuck_cycle w p owner c :
  at_pc p = Create ->
  file w = Some (Json (Some owner) (Some c)) -> isProcessAlive w owner = false ->
  rm_denied w = true ->
  run 4 w p = (set_now w (now w + retryDelayMs), p).
Proof.
  destruct w as [f r d cf t], p as [me l tm dl cr hl rl lg].
  cbn [at_pc file rm_denied]. intros -> -> Dead ->.
  cbn [run settled at_pc]. unfold step at 1. cbn [at_pc file goto settled].
  unfold step at 1. cbn [at_pc]. unfold readExistingLock. cbn [file pid].
  rewrite Dead. cbn [negb goto at_pc settled].
  unfold step at 1. cbn [at_pc rm_denied goto settled].
  unfold step at 1. cbn [at_pc]. reflexivity.
Qed.

(** The first three steps against the record of a dead process: the
    creation fails, the record is read, and its removal is tried. *)
Lemma stale_three w me timeout owner c :
  file w = Some (Json (Some owner) (Some c)) ->
  isProcessAlive w owner = false ->
  acquireBrowserLock 3 me timeout w =
  if rm_denied w
  then (w, goto (acquire_start me timeout w) Backoff)
  else (set_file w None,
        goto (say (acquire_start me timeout w) (RemovedStale owner)) Backoff).
Proof.
  destruct w as [f r d cf t]. cbn [file rm_denied]. intros -> Dead.
  unfold acquireBrowserLock, acquire_start.
  destruct owner as [z|]; cbn in Dead; cbn; rewrite ?Dead; destruct d; reflexivity.
Qed.

(** C4 (as amended).  A process id that is not positive, that is not an
    integer, or that the probe does not find counts as dead.  When the
    lock file holds a valid record of a dead process,
    [acquireBrowserLock] removes the record,
    sleeps the retry delay of 750 ms, and tries again; when the path can
    be removed and created it then holds the lock, 750 ms after the
    start, whatever the timeout.  When the removal fails it sleeps the
    same delay and tries again, without end and without timing out, as
    long as the record stays. *)
Theorem stale_lock_reclaimed (w : world) (me timeout : Z) (owner c : number) :
  file w = Some (Json (Some owner) (Some c)) ->
  isProcessAlive w owner = false ->
  ((forall z, z <= 0 -> isProcessAlive w (Int z) = false)
   /\ isProcessAlive w NonInt = false
   /\ (forall z, running w z = false -> isProcessAlive w (Int z) = false))
  /\ at_pc (snd (acquireBrowserLock 3 me timeout w)) = Backoff
  /\ (rm_denied w = false -> create_fault w = None ->
      let w' := fst (acquireBrowserLock 6 me timeout w) in
      let p' := snd (acquireBrowserLock 6 me timeout w) in
      file (fst (acquireBrowserLock 3 me timeout w)) = None
      /\ at_pc p' = Held /\ file w' = Some (record_of p')
      /\ now w' = now w + retryDelayMs
      /\ logged p' = [Acquired; RemovedStale owner])
  /\ (rm_denied w = true ->
      forall k, acquireBrowserLock (4 * k) me timeout w
                = (set_now w (now w + retryDelayMs * Z.of_nat k),
                   acquire_start me timeout w)).
Proof.
  intros Fw Dead. pose proof (stale_three w me timeout owner c Fw Dead) as Three.
  split; [|split; [|split]].
  - repeat split.
    + intros z Hz. cbn. destruct (z <=? 0) eqn:L; [reflexivity|].
      apply Z.leb_gt in L. lia.
    + intros z Hz. cbn. rewrite Hz. destruct (z <=? 0); reflexivity.
  - rewrite Three. destruct (rm_denied w); reflexivity.
  - intros D Cf. cbv zeta. rewrite D in Three.
    unfold acquireBrowserLock in *.
    change 6%nat with (3 + 3)%nat. rewrite run_add, Three. cbn [fst snd].
    destruct w as [f r d cf t]. cbn [create_fault] in Cf. subst cf.
    cbn. rewrite Z.eqb_refl. cbn. repeat split.
  - intros D k. unfold acquireBrowserLock. induction k as [|k IH].
    + cbn [Nat.mul run]. change (Z.of_nat 0) with 0.
      rewrite Z.mul_0_r, Z.add_0_r. destruct w; reflexivity.
    + replace (4 * S k)%nat with (4 * k + 4)%nat by lia.
      rewrite run_add, IH. cbn [fst snd].
      rewrite (stuck_cycle _ _ owner c); try assumption; try reflexivity.
      destruct w as [f r d cf t]; unfold set_now; cbn [file running rm_denied
        create_fault now]. f_equal. f_equal. lia.
Qed.

Lemma stale_lock_reclaimed_witness :
  file stale_host = Some (Json (Some (Int 4242)) (Some (Int 0)))
  /\ isProcessAlive stale_host (Int 4242) = false
  /\ at_pc (snd (acquireBrowserLock 6 101 1 stale_host)) = Held
  /\ now (fst (acquireBrowserLock 6 101 1 stale_host)) = 750.
Proof.
  split; [reflexivity|]. split; [reflexivity|].
  destruct (stale_lock_reclaimed stale_host 101 1 (Int 4242) (Int 0)
              eq_refl eq_refl) as (_ & _ & Ok & _).
  destruct (Ok eq_refl eq_refl) as (_ & H & _ & T & _).
  split; [exact H|exact T].
Defined.

(** C4 (as stated) fails: the record names the dead process 4242; the
    contender removes it and then does not try again at once: it is
    asleep for the retry delay, and holds the lock 750 ms after it
    started. *)
Lemma stale_retry_is_delayed :
  isProcessAlive stale_host (Int 4242) = false
  /\ file (fst (acquireBrowserLock 3 101 half_hour stale_host)) = None
  /\ at_pc (snd (acquireBrowserLock 3 101 half_hour stale_host)) = Backoff
  /\ at_pc (snd (acquireBrowserLock 6 101 half_hour stale_host)) = Held
  /\ now (fst (acquireBrowserLock 6 101 half_hour stale_host)) <> now stale_host.
Proof.
  repeat split; try reflexivity. vm_compute. intros H; discriminate H.
Qed.

(** C1.  The claim fails where the lock path holds the record of a
    crashed run: reading the stale record and removing the file are two
    steps, and the removal is by path.  Two live contenders, 101 and 102,
    both read the record of the crashed process 4242; 101 removes it,
    creates the file and holds the lock; 102 then runs its own removal,
    which deletes the record of 101, and creates the file again.  Both
    calls of [acquireBrowserLock] have returned and neither has released:
    there are two live holders at once, the second succeeded without a
    release of the first, and the file names only the second. *)
Theorem stale_lock_admits_two_holders :
  let s := play stale_race
                (crashed_host, acquire_start 101 half_hour crashed_host,
                 acquire_start 102 half_hour crashed_host) in
  let w := fst (fst s) in
  let a := snd (fst s) in
  let b := snd s in
  reachable (crashed_host, acquire_start 101 half_hour crashed_host,
             acquire_start 102 half_hour crashed_host) s
  /\ at_pc a = Held /\ at_pc b = Held
  /\ owns a && owns b = true
  /\ released a = false /\ released b = false
  /\ isProcessAlive w (Int (self a)) = true
  /\ isProcessAlive w (Int (self b)) = true
  /\ self a <> self b
  /\ file w = Some (record_of b)
  /\ logged a = [Acquired; RemovedStale (Int 4242)]
  /\ logged b = [Acquired; RemovedStale (Int 4242)].
Proof.
  cbv zeta. split; [apply play_reachable, reach_start|].
  repeat split; try (vm_compute; reflexivity).
  vm_compute. intros H; discriminate H.
Qed.

End LockFacts.

(** ** Session recovery *)
Module SessionFacts.
Import JS Remote Session RunSpec RemoteFacts.
Local Open Scope js_scope.

Lemma steady_ready_loop fuel : forall dl, steady_run (ready_loop fuel dl).
Proof.
  induction fuel as [|fuel IH]; intros dl; cbn [ready_loop]; steady_tac.
Qed.

Lemma steady_navigate_and_wait fuel s : steady_run (navigate_and_wait fuel s).
Proof. unfold navigate_and_wait; steady_tac. apply steady_ready_loop. Qed.

Lemma steady_check_location s : steady_run (check_location s).
Proof. unfold check_location, getCurrentConversationUrl; steady_tac. Qed.

Lemma steady_navigateToSavedSession fuel s :
  steady_run (navigateToSavedSession fuel s).
Proof.
  unfold navigateToSavedSession; steady_tac;
    [apply steady_navigate_and_wait|apply steady_check_location].
Qed.

(** The wait for the page to load ends within one iteration per 100 ms
    left to its deadline. *)
Lemma ready_loop_total n : forall dl w,
  dl - now w <= Z.of_nat n * 100 -> fst (ready_loop (S n) dl w) <> Cut.
Proof.
  induction n as [|n IH]; intros dl w Hd; cbn [ready_loop];
    unfold bind at 1; unfold date_now.
  - destruct (now w <? dl) eqn:T; [apply Z.ltb_lt in T; lia|simpl; discriminate].
  - destruct (now w <? dl) eqn:T; [|simpl; discriminate].
    unfold bind at 1.
    pose proof (steady_invoke CReadyState on_readyState w) as (_ & Hn & _).
    destruct (invoke CReadyState on_readyState w) as [[v|e|] w1] eqn:E;
      simpl in Hn; try (simpl; discriminate).
    + destruct (is_loaded v); [simpl; discriminate|].
      unfold bind at 1. unfold delay at 1.
      apply IH. simpl. lia.
    + unfold invoke in E. destruct (res _); discriminate E.
Qed.

Lemma navigate_and_wait_total fuel s w :
  (301 <= fuel)%nat -> fst (navigate_and_wait fuel s w) <> Cut.
Proof.
  intros Hf. destruct fuel as [|n]; [lia|].
  unfold navigate_and_wait. unfold bind at 1. unfold log at 1.
  unfold bind at 1.
  match goal with |- context [invoke ?c ?p ?w0] =>
    destruct (invoke c p w0) as [[[]|e|] w1] eqn:E end;
    try (simpl; discriminate).
  - unfold bind at 1. unfold date_now. apply ready_loop_total. lia.
  - unfold invoke in E. destruct (res _); discriminate E.
Qed.

Lemma match_here_nonempty l id : match_here l = Some id -> id <> [].
Proof.
  unfold match_here. destruct l as [|a [|b [|c r]]]; try discriminate.
  destruct (_ && _)%bool; [|discriminate].
  destruct (take_while is_id_char r); [discriminate|].
  intros H; injection H as <-. discriminate.
Qed.

Lemma first_match_nonempty l : forall id, first_match l = Some id -> id <> [].
Proof.
  induction l as [|a l IH]; intros id; cbn [first_match].
  - destruct (match_here []) eqn:E; [|discriminate].
    intros H; injection H as <-. eapply match_here_nonempty; eassumption.
  - destruct (match_here (a :: l)) eqn:E.
    + intros H; injection H as <-. eapply match_here_nonempty; eassumption.
    + apply IH.
Qed.

(** An extracted identifier is not empty, hence truthy. *)
Lemma extract_truthy u id :
  extractConversationId u = Some id -> truthy_str id = true.
Proof.
  unfold extractConversationId.
  destruct (first_match (chars u)) as [l|] eqn:E; [|discriminate].
  intros H; injection H as <-. apply first_match_nonempty in E.
  destruct l; [congruence|reflexivity].
Qed.

(** A session that [saveSessionState] has written, and that
    [loadSessionState] reads back, has its identifier derived from its
    location. *)
Lemma saved_session_wf dir u prompt paths w :
  match fst (loadSessionState (snd (saveSessionState dir u prompt paths w))) with
  | Ok (Some s) => session_wf s /\ url s = u
  | _ => False
  end.
Proof. cbn. split; reflexivity. Qed.

(** What the location check answers, for a session whose identifier is
    derived from its location. *)
Lemma check_location_decides s w :
  session_wf s ->
  match res (on_href (script w) (calls w)) with
  | inr (Some current) =>
      exists w', check_location s w = (Ok (recovered_by_spec s current), w')
  | _ => exists e w', check_location s w = (Throw e, w')
  end.
Proof.
  intros Wf. unfold check_location, getCurrentConversationUrl, bind, invoke.
  destruct (res (on_href (script w) (calls w))) as [e|[current|]].
  - eauto.
  - unfold recovered_by_spec, id_matches. red in Wf.
    destruct (conversationId s) as [id|] eqn:Id; cbn [truthy_opt].
    + rewrite (extract_truthy (url s) id (eq_sym Wf)). cbn [andb].
      destruct (opt_eqb (extractConversationId current) (Some id)) eqn:M;
        [eexists; reflexivity|].
      destruct (String.eqb current (url s)) eqn:U; [|eexists; reflexivity].
      apply String.eqb_eq in U. subst current. rewrite <- Wf in M.
      simpl in M. rewrite String.eqb_refl in M. discriminate.
    + cbn [andb]. destruct (String.eqb current (url s)); eexists; reflexivity.
  - unfold throw. eauto.
Qed.

(** C8.  For a session as [saveSessionState] writes it (the identifier
    derived from the location), [navigateToSavedSession] never throws and
    returns; it returns true exactly when navigating and waiting went
    through without an error, the location read afterwards is there, and
    the identifier derived from it matches the saved one or, when no
    identifier was captured, the location equals the saved one.  In every
    other case it returns false. *)
Theorem navigateToSavedSession_decides
  (fuel : nat) (session : BrowserSession) (w : world) :
  session_wf session -> (301 <= fuel)%nat ->
  exists b w',
    navigateToSavedSession fuel session w = (Ok b, w')
    /\ (b = true <->
        exists w1 current,
          navigate_and_wait fuel session w = (Ok tt, w1)
          /\ res (on_href (script w) (calls w1)) = inr (Some current)
          /\ recovered_by_spec session current = true).
Proof.
  intros Wf Hf.
  pose proof (navigate_and_wait_total fuel session w Hf) as Tot.
  pose proof (steady_navigate_and_wait fuel session w) as (Sc & _).
  unfold navigateToSavedSession, try_catch. unfold bind at 1.
  destruct (navigate_and_wait fuel session w) as [[[]|e|] w1]; simpl in Tot, Sc;
    [| |congruence].
  - pose proof (check_location_decides session w1 Wf) as D. rewrite Sc in D.
    destruct (res (on_href (script w) (calls w1))) as [e|[current|]] eqn:E.
    + destruct D as (e' & w' & ->). eexists; eexists; split; [reflexivity|].
      split; [discriminate|]. intros (w2 & c & H1 & H2 & _).
      injection H1 as <-. congruence.
    + destruct D as (w' & ->). exists (recovered_by_spec session current), w'.
      split; [reflexivity|]. split.
      * intros R. exists w1, current. auto.
      * intros (w2 & c & H1 & H2 & H3). injection H1 as <-.
        rewrite E in H2. injection H2 as <-. exact H3.
    + destruct D as (e' & w' & ->). eexists; eexists; split; [reflexivity|].
      split; [discriminate|]. intros (w2 & c & H1 & H2 & _).
      injection H1 as <-. congruence.
  - eexists; eexists; split; [reflexivity|].
    split; [discriminate|]. intros (w2 & c & H1 & _). discriminate H1.
Qed.

Import Scenario.

(** Recovery by identifier: the page comes back at the saved conversation
    with a query added to the location. *)
Lemma navigateToSavedSession_decides_witness :
  let page := start (navigator "https://chatgpt.com/c/abc123?model=gpt-5") in
  session_wf saved /\ (301 <= 301)%nat
  /\ fst (navigateToSavedSession 301 saved page) = Ok true
  /\ String.eqb "https://chatgpt.com/c/abc123?model=gpt-5" (url saved) = false.
Proof.
  cbv zeta.
  assert (Wf : session_wf saved) by reflexivity.
  split; [exact Wf|]. split; [apply le_n|]. split; [|reflexivity].
  destruct (navigateToSavedSession_decides 301 saved
              (start (navigator "https://chatgpt.com/c/abc123?model=gpt-5"))
              Wf (le_n _)) as (b & w' & E & Iff).
  rewrite E. cbn [fst]. f_equal. apply Iff.
  eexists; exists "https://chatgpt.com/c/abc123?model=gpt-5".
  split; [vm_compute; reflexivity|]. split; reflexivity.
Defined.

End SessionFacts.

(** ** [uploadAttachmentFile] *)
Module UploadFacts.
Import JS Remote Session Attachments RunSpec VerifySpec RemoteFacts Scenario.
Local Open Scope js_scope.

(** How an attempt that goes on to the next one failed. *)
Lemma attempt_next fuel att k w e w1 :
  attempt_body fuel att k w = (Ok (e, Next), w1) ->
  e = Some locate_error \/ e = Some mismatch_error
  \/ exists x, e = Some x /\ is_stale x = true /\ k < maxAttempts.
Proof.
  unfold attempt_body. unfold bind at 1.
  destruct (invoke CGetDocument on_getDocument w) as [[root|x|] w0]; try discriminate.
  unfold bind at 1.
  destruct (locate root _ w0) as [[[node|]|x|] w2]; try discriminate.
  - unfold try_catch. unfold bind at 1.
    destruct (invoke (CSetFileInputFiles node (path att)) _ w2) as [[[]|x|] w3].
    + unfold bind at 1.
      destruct (waitForAttachmentSelection _ _ _ w3) as [[[|]|x|] w4];
        try discriminate.
      * intros H; injection H as <- _. auto.
      * destruct (is_stale x && (k <? maxAttempts)) eqn:St; [|discriminate].
        unfold bind, log, ret. intros H; injection H as <- _.
        apply andb_prop in St. destruct St as (St & Lt). apply Z.ltb_lt in Lt.
        right; right. eauto.
    + destruct (is_stale x && (k <? maxAttempts)) eqn:St; [|discriminate].
      unfold bind, log, ret. intros H; injection H as <- _.
      apply andb_prop in St. destruct St as (St & Lt). apply Z.ltb_lt in Lt.
      right; right. eauto.
    + discriminate.
  - intros H; injection H as <- _. auto.
Qed.



















End UploadFacts.

(** ** [waitForAttachmentCompletion] *)
Module WaitFacts.
Import JS Remote Session Attachments RunSpec RemoteFacts SessionFacts.
Local Open Scope js_scope.

Lemma steady_try_recover fuel recovery : steady_run (try_recover fuel recovery).
Proof.
  unfold try_recover, loadSessionState. steady_tac.
  apply steady_navigateToSavedSession.
Qed.

Lemma steady_navigated fuel recovery u : steady_run (navigated fuel recovery u).
Proof.
  unfold navigated, getCurrentConversationUrl. steady_tac.
  apply steady_try_recover.
Qed.

Lemma steady_steady_checks l v : steady_run (steady_checks l v).
Proof. unfold steady_checks. steady_tac. Qed.

Lemma steady_iteration fuel recovery l : steady_run (iteration fuel recovery l).
Proof.
  unfold iteration, on_wait_error. steady_tac.
  - apply steady_navigated.
  - apply steady_steady_checks.
Qed.

Lemma opt_eqb_eq a b : opt_eqb a b = true -> a = b.
Proof.
  destruct a, b; simpl; try discriminate; try reflexivity.
  intros H; apply String.eqb_eq in H; congruence.
Qed.

(** The navigation branch never returns from the wait. *)
Lemma navigated_continues fuel recovery u w r w' :
  navigated fuel recovery u w = (Ok r, w') -> r <> Return.
Proof.
  unfold navigated. unfold bind at 1. unfold log at 1. unfold bind at 1.
  destruct (try_recover fuel recovery _) as [[[]| |] w1]; try discriminate.
  - unfold bind at 1, delay at 1. unfold bind at 1.
    destruct (getCurrentConversationUrl _) as [[l| |] w2]; try discriminate.
    intros H; injection H as <- _. discriminate.
  - unfold bind at 1, delay at 1. intros H; injection H as <- _. discriminate.
Qed.

(** The checks themselves: they return only after the second and the
    third probe were made, right after one another, and answered ready
    and idle at [lastUrl]. *)
Lemma steady_checks_return lastUrl value w w' :
  try_catch (steady_checks lastUrl value) (on_wait_error lastUrl) w = (Ok Return, w') ->
  exists p2 p3,
    steady value = true
    /\ res (on_probe (script w) (calls w)) = inr (Some p2)
    /\ res (on_probe (script w) (S (calls w))) = inr (Some p3)
    /\ steady (Some p2) = true /\ steady (Some p3) = true
    /\ p_url p2 = lastUrl /\ p_url p3 = lastUrl
    /\ let t2 := now w + 500 + Z.of_N (lat (on_probe (script w) (calls w))) in
       let t3 := t2 + 1000 + Z.of_N (lat (on_probe (script w) (S (calls w)))) in
       trace w' = steady_line :: Called CProbe (S (calls w)) t3 :: Slept 1000
                  :: Called CProbe (calls w) t2 :: Slept 500 :: trace w.
Proof.
  unfold steady_checks, try_catch.
  destruct (steady value) eqn:S1; [|discriminate].
  unfold bind at 1, delay at 1. unfold bind at 1, invoke at 1. cbn [script calls now].
  destruct (res (on_probe (script w) (calls w))) as [e|confirm] eqn:E2;
    [discriminate|].
  destruct (steady confirm && opt_eqb (url_of confirm) lastUrl) eqn:C2;
    [|discriminate].
  apply andb_prop in C2. destruct C2 as (S2 & U2).
  unfold bind at 1, delay at 1. unfold bind at 1, invoke at 1. cbn [script calls now].
  destruct (res (on_probe (script w) (S (calls w)))) as [e|final] eqn:E3;
    [discriminate|].
  destruct (steady final && opt_eqb (url_of final) lastUrl) eqn:C3;
    [|discriminate].
  apply andb_prop in C3. destruct C3 as (S3 & U3).
  destruct confirm as [p2|]; [|discriminate S2].
  destruct final as [p3|]; [|discriminate S3].
  apply opt_eqb_eq in U2, U3. simpl in U2, U3.
  unfold bind, log, ret. cbn. intros H. injection H as <-.
  exists p2, p3. cbn. repeat split; try assumption.
Qed.

(** An iteration returns from the wait only through the three checks. *)
Lemma iteration_return fuel recovery lastUrl w w' :
  iteration fuel recovery lastUrl w = (Ok Return, w') ->
  exists lastUrl', confirmed_at w w' lastUrl'.
Proof.
  unfold iteration. unfold try_catch at 1. unfold bind at 1, invoke at 1.
  destruct (res (on_probe (script w) (calls w))) as [e|value] eqn:E1.
  { unfold on_wait_error, bind, log, delay, ret. discriminate. }
  cbv zeta.
  destruct (truthy_opt lastUrl && truthy_opt (url_of value)
            && negb (opt_eqb lastUrl (url_of value))) eqn:Nav.
  { destruct (navigated fuel recovery (url_of value) _) as [[r|e|] w1] eqn:N.
    - intros H; injection H as -> _. apply navigated_continues in N. congruence.
    - unfold on_wait_error, bind, log, delay, ret. discriminate.
    - discriminate. }
  set (l' := if negb (truthy_opt lastUrl) && truthy_opt (url_of value)
             then url_of value else lastUrl).
  set (w1 := World _ _ _ _ _).
  destruct (try_catch (steady_checks l' value) (on_wait_error l') w1)
    as [[r|e|] w2] eqn:C; try discriminate.
  intros H; injection H as -> ->.
  apply steady_checks_return in C.
  destruct C as (p2 & p3 & S1 & E2 & E3 & S2 & S3 & U2 & U3 & Tr).
  destruct value as [p1|]; [|discriminate S1].
  exists l'. exists p1, p2, p3. subst w1. cbn [script calls now trace] in *.
  repeat split; try assumption.
  intros T1. subst l'. simpl in Nav, T1 |- *. rewrite T1 in *.
  destruct (truthy_opt lastUrl); simpl in *; [|reflexivity].
  apply negb_false_iff in Nav. apply opt_eqb_eq in Nav. congruence.
Qed.

(** The wait returns only from an iteration that returns. *)
Lemma wait_loop_return fuel : forall dl recovery lastUrl w w',
  wait_loop fuel dl recovery lastUrl w = (Ok tt, w') ->
  exists f l0 w0,
    iteration f recovery l0 w0 = (Ok Return, w')
    /\ script w0 = script w /\ (calls w <= calls w0)%nat /\ now w <= now w0.
Proof.
  induction fuel as [|fuel IH]; intros dl recovery lastUrl w w'; [discriminate|].
  cbn [wait_loop]. unfold bind at 1, date_now.
  destruct (now w <? dl).
  - unfold bind at 1.
    pose proof (steady_iteration fuel recovery lastUrl w) as (Sc & Hn & Hc).
    destruct (iteration fuel recovery lastUrl w) as [[[|l|l]|e|] w1] eqn:It;
      simpl in Sc, Hn, Hc; try discriminate.
    + intros H; injection H as <-. exists fuel, lastUrl, w. repeat split; auto; lia.
    + intros H. apply IH in H. destruct H as (f & l0 & w0 & R & S0 & C0 & N0).
      exists f, l0, w0. repeat split; [exact R|congruence|lia|lia].
    + unfold bind at 1, delay at 1. intros H. apply IH in H.
      destruct H as (f & l0 & w0 & R & S0 & C0 & N0). cbn in S0, C0, N0.
      exists f, l0, w0. repeat split; [exact R|congruence|lia|lia].
  - unfold bind, log, logDomFailure, throw. discriminate.
Qed.

Import Scenario.

(** C2.  For every script of the page whose probe values carry their
    location, [waitForAttachmentCompletion] declares success only when
    the last three calls on the channel were probes, made one after the
    other, that all answered ready and not uploading at one and the same
    location; the second was made 500 ms after the first answered, the
    third 1000 ms after the second answered.  A page that flips from ready
    to busy and back to ready does not satisfy the wait on that cycle:
    the wait goes on and succeeds on the three ready checks that follow. *)
Theorem waitForAttachmentCompletion_debounced
  (fuel : nat) (timeoutMs : Z) (recovery : bool) (w w' : world) :
  probes_located (script w) ->
  waitForAttachmentCompletion fuel timeoutMs recovery w = (Ok tt, w') ->
  (exists k p1 p2 p3 u t1 rest,
     (calls w <= k)%nat
     /\ res (on_probe (script w) k) = inr (Some p1)
     /\ res (on_probe (script w) (S k)) = inr (Some p2)
     /\ res (on_probe (script w) (S (S k))) = inr (Some p3)
     /\ steady (Some p1) = true /\ steady (Some p2) = true
     /\ steady (Some p3) = true
     /\ p_url p1 = Some u /\ p_url p2 = Some u /\ p_url p3 = Some u
     /\ let t2 := t1 + 500 + Z.of_N (lat (on_probe (script w) (S k))) in
        let t3 := t2 + 1000 + Z.of_N (lat (on_probe (script w) (S (S k)))) in
        trace w' = steady_line :: Called CProbe (S (S k)) t3 :: Slept 1000
                   :: Called CProbe (S k) t2 :: Slept 500
                   :: Called CProbe k t1 :: rest)
  /\ (let flip := start (prober [ready_idle; ready_busy; ready_idle;
                                 ready_idle; ready_idle]) in
      let r := waitForAttachmentCompletion 200 30000 false flip in
      fst r = Ok tt /\ calls (snd r) = 5%nat /\ now (snd r) = 2250).
Proof.
  intros Loc H. split; [|cbv zeta; repeat split; vm_compute; reflexivity].
  unfold waitForAttachmentCompletion, bind, date_now in H.
  apply wait_loop_return in H.
  destruct H as (f & l0 & w0 & R & S0 & C0 & N0).
  apply iteration_return in R. destruct R as (l' & R). red in R.
  rewrite S0 in R.
  destruct R as (p1 & p2 & p3 & E1 & E2 & E3 & S1 & S2 & S3 & U2 & U3 & U1 & Tr).
  pose proof (Loc _ _ E1) as T1. specialize (U1 T1).
  destruct (p_url p1) as [u|] eqn:P1; [|discriminate T1].
  exists (calls w0), p1, p2, p3, u. eexists; eexists.
  repeat split; try eassumption; congruence.
Qed.

Lemma waitForAttachmentCompletion_debounced_witness :
  let w := start (prober [ready_idle; ready_idle; ready_idle]) in
  probes_located (script w)
  /\ fst (waitForAttachmentCompletion 10 5000 false w) = Ok tt
  /\ exists k, (0 <= k)%nat /\ steady (nth_error [ready_idle; ready_idle; ready_idle] k) = true.
Proof.
  cbv zeta.
  assert (Loc : probes_located
                  (script (start (prober [ready_idle; ready_idle; ready_idle])))).
  { intros k p. cbn. destruct k as [|[|[|k]]]; cbn; intros E;
      try (injection E as <-; reflexivity).
    destruct k; discriminate E. }
  assert (H : waitForAttachmentCompletion 10 5000 false
                (start (prober [ready_idle; ready_idle; ready_idle]))
              = (Ok tt, snd (waitForAttachmentCompletion 10 5000 false
                               (start (prober [ready_idle; ready_idle; ready_idle])))))
    by (vm_compute; reflexivity).
  split; [exact Loc|]. split; [rewrite H; reflexivity|].
  destruct (waitForAttachmentCompletion_debounced 10 5000 false _ _ Loc H)
    as ((k & p1 & p2 & p3 & u & t1 & rest & C & E1 & _ & _ & S1 & _) & _).
  exists k. split; [exact C|].
  cbn in E1. injection E1 as E1. rewrite E1. exact S1.
Defined.

End WaitFacts.

(** ** [verifyAttachmentsVisible] *)
Module VerifyFacts.
Import JS Remote Attachments VerifySpec RemoteFacts.
Local Open Scope js_scope.

Lemma log_items_frame l : forall idx w,
  exists w', log_items idx l w = (Ok tt, w') /\ same_frame w w'.
Proof.
  induction l as [|a l IH]; intros idx w; simpl.
  - eexists; split; [reflexivity|apply same_frame_refl].
  - unfold bind; simpl.
    destruct (IH (S idx) (record (Logged (LVerifyItem idx (filename a) (selector a))) w))
      as (w' & E & F).
    rewrite E. eexists; split; [reflexivity|].
    eapply same_frame_trans; [|exact F]. repeat split.
Qed.

(** One poll, with its handler: it never throws, makes one call, and
    leaves the debounce variables as [poll_next] says. *)
Lemma poll_step d w :
  exists w',
    try_catch (verify_poll d) (fun e => log (LVerifyError e) ;;; ret (inr d)) w
    = (Ok (poll_next d (res (on_sample (script w) (calls w)))), w')
    /\ script w' = script w
    /\ calls w' = S (calls w)
    /\ now w' = now w + Z.of_N (lat (on_sample (script w) (calls w)))
    /\ session_file w' = session_file w.
Proof.
  unfold try_catch, verify_poll, bind, invoke, poll_next.
  destruct (res (on_sample (script w) (calls w))) as [e|[[|a l]|]] eqn:E.
  - eexists; split; [reflexivity|]. repeat split.
  - eexists; split; [reflexivity|]. repeat split.
  - cbv zeta.
    destruct (same_key (snapshotKey (a :: l)) (lastSnapshotKey d)).
    + cbn [stableIterations].
      destruct (2 <=? S (stableIterations d))%nat.
      * unfold log, ret.
        match goal with |- context [log_items 1 (a :: l) ?w0] =>
          destruct (log_items_frame (a :: l) 1 w0) as (w' & El & F) end.
        rewrite El. eexists; split; [reflexivity|].
        destruct F as (F1 & F2 & F3 & F4). cbn in F1, F2, F3, F4.
        repeat split; assumption.
      * eexists; split; [reflexivity|]. repeat split.
    + cbn [stableIterations]. cbn [Nat.leb].
      eexists; split; [reflexivity|]. repeat split.
  - eexists; split; [reflexivity|]. repeat split.
Qed.

Lemma after_poll_facts d w :
  script (after_poll d w) = script w
  /\ calls (after_poll d w) = S (calls w)
  /\ now (after_poll d w) = now w + Z.of_N (lat (on_sample (script w) (calls w))).
Proof.
  unfold after_poll. destruct (poll_step d w) as (w' & E & A & B & C & _).
  rewrite E; simpl. auto.
Qed.

Lemma slept_facts ms w :
  script (slept ms w) = script w /\ calls (slept ms w) = calls w
  /\ now (slept ms w) = now w + Z.max 0 ms.
Proof. repeat split. Qed.

(** One iteration of the loop. *)
Lemma verify_loop_step f dl p d w :
  verify_loop (S f) dl p d w =
  if now w <? dl then
    match poll_next d (res (on_sample (script w) (calls w))) with
    | inl l => (Ok l, after_poll d w)
    | inr d' => verify_loop f dl p d' (slept p (after_poll d w))
    end
  else
    (Ok [], record (Logged (LText
       "verifyAttachmentsVisible: timeout reached, no attachments detected")) w).
Proof.
  cbn [verify_loop]. unfold bind at 1. unfold date_now.
  destruct (now w <? dl); [|reflexivity].
  unfold bind at 1. unfold after_poll.
  destruct (poll_step d w) as (w' & E & _). rewrite E. cbn [snd].
  destruct (poll_next d (res (on_sample (script w) (calls w)))); reflexivity.
Qed.

Lemma same_key_true key last : same_key key last = true -> last = Some key.
Proof.
  destruct last as [k|]; simpl; [|discriminate].
  unfold key_eqb. destruct (list_eq_dec string_dec key k); [congruence|discriminate].
Qed.

Lemma streak_quiet s key n c0 k :
  quiet s k -> streak s key n c0 k -> streak s key n c0 (S k).
Proof.
  intros Q H. destruct n; simpl in *;
    destruct H as (k0 & R & L & Qs & T); exists k0;
    (split; [lia|]); (split; [exact L|]); (split; [|exact T]);
    intros j Hj; destruct (Nat.eq_dec j k) as [->|];
    [exact Q|apply Qs; lia|exact Q|apply Qs; lia].
Qed.

Lemma streak_loud s key n c0 k :
  (c0 <= k)%nat -> loud s k key ->
  match n with O => True | S n' => streak s key n' c0 k end ->
  streak s key n c0 (S k).
Proof.
  intros R L T. destruct n; simpl; exists k;
    (split; [lia|]); (split; [exact L|]); (split; [intros j Hj; lia|exact T]).
Qed.

(** One poll keeps the debounce variables in step with the polls, or
    returns after three non-quiet polls with one key. *)
Lemma tracks_next s d c0 k :
  (c0 <= k)%nat -> tracks s d c0 k ->
  match poll_next d (res (on_sample s k)) with
  | inr d' => tracks s d' c0 (S k)
  | inl l => returned_at s c0 k l
  end.
Proof.
  intros R T. unfold poll_next.
  destruct (res (on_sample s k)) as [e|[[|a l]|]] eqn:E.
  - unfold tracks in *. destruct (lastSnapshotKey d); [|exact I].
    apply streak_quiet; [unfold quiet; rewrite E; exact I|exact T].
  - unfold tracks in *. destruct (lastSnapshotKey d); [|exact I].
    apply streak_quiet; [unfold quiet; rewrite E; exact I|exact T].
  - cbv zeta.
    assert (L : loud s k (snapshotKey (a :: l))).
    { exists (a :: l). split; [split; [exact E|discriminate]|reflexivity]. }
    destruct (same_key (snapshotKey (a :: l)) (lastSnapshotKey d)) eqn:K.
    + apply same_key_true in K. unfold tracks in T. rewrite K in T.
      cbn [stableIterations lastSnapshotKey].
      destruct (stableIterations d) as [|n] eqn:S0.
      * cbn [Nat.leb]. unfold tracks; cbn [lastSnapshotKey stableIterations].
        rewrite K. apply streak_loud; [exact R|exact L|exact T].
      * cbn [Nat.leb].
        destruct T as (k2 & R2 & (l2 & S2 & K2) & Q2 & T1).
        assert (T1' : exists k1, (c0 <= k1 < k2)%nat /\ loud s k1 (snapshotKey (a :: l))
                                 /\ (forall j, (k1 < j < k2)%nat -> quiet s j)).
        { destruct n; simpl in T1; destruct T1 as (k1 & R1 & L1 & Q1 & _);
            exists k1; auto. }
        destruct T1' as (k1 & R1 & (l1 & S1 & K1) & Q1).
        exists k1, k2, l1, l2. repeat split; try lia; try assumption.
        -- apply S1. -- apply S1. -- apply S2. -- apply S2. -- discriminate.
        -- intros j Hj Hne. destruct (Nat.lt_ge_cases j k2); [apply Q1|apply Q2]; lia.
    + cbn [stableIterations Nat.leb]. unfold tracks; cbn [lastSnapshotKey stableIterations].
      apply streak_loud; [exact R|exact L|exact I].
  - unfold tracks in *. destruct (lastSnapshotKey d); [|exact I].
    apply streak_quiet; [unfold quiet; rewrite E; exact I|exact T].
Qed.

(** The loop returns the empty list only past the deadline, and a
    non-empty list only as [returned_at] says; it never throws. *)
Lemma verify_loop_returns f : forall dl p d w c0,
  (c0 <= calls w)%nat -> tracks (script w) d c0 (calls w) ->
  match verify_loop f dl p d w with
  | (Ok l, w') =>
      script w' = script w /\
      ((l = [] /\ dl <= now w' /\ (calls w <= calls w')%nat)
       \/ (l <> [] /\ (calls w < calls w')%nat
           /\ returned_at (script w) c0 (calls w' - 1) l))
  | (Throw _, _) => False
  | (Cut, _) => True
  end.
Proof.
  induction f as [|f IH]; intros dl p d w c0 R T; [exact I|].
  rewrite verify_loop_step.
  destruct (now w <? dl) eqn:Tm.
  - pose proof (tracks_next (script w) d c0 (calls w) R T) as N.
    destruct (after_poll_facts d w) as (A1 & A2 & A3).
    destruct (poll_next d (res (on_sample (script w) (calls w)))) as [l|d'].
    + split; [exact A1|]. right. rewrite A2.
      replace (S (calls w) - 1)%nat with (calls w) by lia.
      split; [|split; [lia|exact N]].
      destruct N as (k1 & k2 & l1 & l2 & _ & _ & _ & _ & (_ & Hne) & _). exact Hne.
    + destruct (slept_facts p (after_poll d w)) as (B1 & B2 & B3).
      specialize (IH dl p d' (slept p (after_poll d w)) c0).
      rewrite B1, B2, A1, A2 in IH.
      specialize (IH ltac:(lia) N).
      destruct (verify_loop f dl p d' (slept p (after_poll d w))) as [[l| |] w'];
        try exact IH.
      destruct IH as (Sc & [(E & D & C)|(Hne & C & Rt)]).
      * split; [exact Sc|]. left. repeat split; try assumption. lia.
      * split; [exact Sc|]. right. repeat split; try assumption. lia.
  - cbn. split; [reflexivity|]. left. apply Z.ltb_ge in Tm. repeat split; lia.
Qed.

(** With a positive poll interval the loop ends: [n + 1] iterations are
    enough when the deadline is at most [n] intervals away. *)
Lemma verify_loop_total n : forall dl p d w,
  0 < p -> dl - now w <= Z.of_nat n * p ->
  fst (verify_loop (S n) dl p d w) <> Cut.
Proof.
  induction n as [|n IH]; intros dl p d w Hp Hd; rewrite verify_loop_step.
  - destruct (now w <? dl) eqn:Tm; [apply Z.ltb_lt in Tm; lia|].
    simpl; discriminate.
  - destruct (now w <? dl) eqn:Tm; [|simpl; discriminate].
    destruct (poll_next d _) as [l|d']; [simpl; discriminate|].
    apply IH; [exact Hp|].
    destruct (after_poll_facts d w) as (_ & _ & A3).
    destruct (slept_facts p (after_poll d w)) as (_ & _ & B3).
    rewrite B3, A3. nia.
Qed.

Lemma chars_append a b : chars (a ++ b) = (chars a ++ chars b)%list.
Proof. unfold chars. induction a; simpl; [reflexivity|]. now rewrite IHa. Qed.

Lemma chars_inj a b : chars a = chars b -> a = b.
Proof.
  unfold chars; intros H.
  rewrite <- (string_of_list_ascii_of_string a), <- (string_of_list_ascii_of_string b).
  now rewrite H.
Qed.

Lemma split_at_first {A} (c : A) : forall x y u v,
  ~ In c x -> ~ In c y -> (x ++ c :: u = y ++ c :: v)%list -> x = y /\ u = v.
Proof.
  induction x as [|a x IH]; intros [|b y] u v Hx Hy E; simpl in *.
  - injection E; auto.
  - injection E as -> _. exfalso; apply Hy; auto.
  - injection E as -> _. exfalso; apply Hx; auto.
  - injection E as -> E. destruct (IH y u v) as (-> & ->); auto.
Qed.

(** The key of an attachment determines its file name and selector when
    the selector has no colon. *)
Lemma att_key_inj a b :
  colon_free (selector a) -> colon_free (selector b) ->
  att_key a = att_key b -> filename a = filename b /\ selector a = selector b.
Proof.
  unfold colon_free, att_key. intros Ha Hb E.
  apply (f_equal chars) in E. rewrite !chars_append in E.
  apply (f_equal (@rev ascii)) in E. rewrite !rev_app_distr in E.
  change (chars "::") with [":"%char; ":"%char] in E. simpl in E.
  rewrite <- !app_assoc in E. simpl in E.
  apply split_at_first in E; [| rewrite <- in_rev; exact Ha | rewrite <- in_rev; exact Hb].
  destruct E as (E1 & E2). injection E2 as E2.
  split; apply chars_inj; apply (f_equal (@rev ascii)) in E1, E2;
    rewrite !rev_involutive in *; assumption.
Qed.

Lemma same_key_items : forall l1 l2,
  Forall (fun a => colon_free (selector a)) l1 ->
  Forall (fun a => colon_free (selector a)) l2 ->
  snapshotKey l1 = snapshotKey l2 -> same_items l1 l2.
Proof.
  unfold snapshotKey, same_items.
  induction l1 as [|a l1 IH]; intros [|b l2] F1 F2 E; simpl in *; try discriminate.
  - split; reflexivity.
  - injection E as Ea E. inversion F1; inversion F2; subst.
    destruct (att_key_inj a b) as (-> & ->); auto.
    destruct (IH l2) as (-> & ->); auto.
Qed.

Import Scenario.

Lemma key_eqb_refl k : key_eqb k k = true.
Proof. unfold key_eqb. destruct (list_eq_dec string_dec k k); congruence. Qed.

(** A poll that answers a non-empty list returns it, or leaves its key as
    the last key; it is counted when the key was the last key already. *)
Lemma poll_next_loud d l :
  l <> [] ->
  poll_next d (inr (Some l)) = inl l
  \/ exists d', poll_next d (inr (Some l)) = inr d'
                /\ lastSnapshotKey d' = Some (snapshotKey l)
                /\ (lastSnapshotKey d = Some (snapshotKey l) ->
                    (1 <= stableIterations d')%nat).
Proof.
  intros Hne. destruct l as [|a l]; [congruence|]. unfold poll_next. cbv zeta.
  destruct (same_key (snapshotKey (a :: l)) (lastSnapshotKey d)) eqn:K.
  - cbn [stableIterations lastSnapshotKey].
    destruct (2 <=? S (stableIterations d))%nat; [left; reflexivity|].
    right. eexists; split; [reflexivity|]. cbn.
    apply same_key_true in K. split; [exact K|intros _; lia].
  - cbn [stableIterations Nat.leb]. right. eexists; split; [reflexivity|]. cbn.
    split; [reflexivity|].
    intros L. rewrite L in K. simpl in K. change (att_key a :: snapshotKey l)
      with (snapshotKey (a :: l)) in K. rewrite key_eqb_refl in K. discriminate.
Qed.

Lemma poll_next_confirmed d l :
  l <> [] -> lastSnapshotKey d = Some (snapshotKey l) ->
  (1 <= stableIterations d)%nat ->
  poll_next d (inr (Some l)) = inl l.
Proof.
  intros Hne L S1. destruct l as [|a l]; [congruence|]. unfold poll_next. cbv zeta.
  rewrite L. cbn [same_key]. rewrite key_eqb_refl. cbn [stableIterations].
  destruct (stableIterations d); [lia|reflexivity].
Qed.

(** Three polls in a row that answer non-empty lists with one snapshot
    key, each made before the deadline, make the loop return one of them,
    whatever the debounce variables were. *)
Lemma verify_loop_trusts fuel dl p d w l1 l2 l3 :
  sampled (script w) (calls w) l1 ->
  sampled (script w) (calls w + 1) l2 ->
  sampled (script w) (calls w + 2) l3 ->
  snapshotKey l1 = snapshotKey l3 -> snapshotKey l2 = snapshotKey l3 ->
  now w + Z.of_N (lat (on_sample (script w) (calls w))) + Z.max 0 p
    + Z.of_N (lat (on_sample (script w) (calls w + 1))) + Z.max 0 p < dl ->
  exists l w',
    verify_loop (3 + fuel) dl p d w = (Ok l, w')
    /\ (l = l1 \/ l = l2 \/ l = l3)
    /\ (calls w' <= calls w + 3)%nat.
Proof.
  intros (E1 & N1) (E2 & N2) (E3 & N3) K1 K2 T.
  assert (T0 : now w < dl) by lia.
  cbn [Nat.add]. rewrite verify_loop_step.
  apply Z.ltb_lt in T0; rewrite T0. rewrite E1.
  destruct (after_poll_facts d w) as (A1 & A2 & A3).
  destruct (poll_next_loud d l1 N1) as [R|(d1 & R & L1 & _)]; rewrite R.
  { exists l1; eexists; split; [reflexivity|]. split; [auto|lia]. }
  set (w1 := slept p (after_poll d w)).
  destruct (slept_facts p (after_poll d w)) as (B1 & B2 & B3). fold w1 in B1, B2, B3.
  assert (Sc1 : script w1 = script w) by congruence.
  assert (C1 : calls w1 = (calls w + 1)%nat) by lia.
  rewrite verify_loop_step.
  assert (T1 : (now w1 <? dl) = true) by (apply Z.ltb_lt; lia). rewrite T1.
  rewrite Sc1, C1, E2.
  destruct (after_poll_facts d1 w1) as (A1' & A2' & A3').
  rewrite K1 in L1. rewrite <- K2 in L1.
  destruct (poll_next_loud d1 l2 N2) as [R2|(d2 & R2 & L2 & S2)]; rewrite R2.
  { exists l2; eexists; split; [reflexivity|]. split; [auto|lia]. }
  specialize (S2 L1).
  set (w2 := slept p (after_poll d1 w1)).
  destruct (slept_facts p (after_poll d1 w1)) as (B1' & B2' & B3').
  fold w2 in B1', B2', B3'.
  assert (Sc2 : script w2 = script w) by congruence.
  assert (C2 : calls w2 = (calls w + 2)%nat) by lia.
  rewrite verify_loop_step.
  assert (T2 : (now w2 <? dl) = true).
  { apply Z.ltb_lt. rewrite B3', A3', Sc1, C1, B3, A3. lia. }
  rewrite T2, Sc2, C2, E3.
  rewrite K2 in L2.
  rewrite (poll_next_confirmed d2 l3 N3 L2 S2).
  destruct (after_poll_facts d2 w2) as (_ & A2'' & _).
  exists l3; eexists; split; [reflexivity|]. split; [auto|lia].
Qed.

(** A poll that fails, or answers no value or the empty list, leaves the
    debounce variables as they are. *)
Lemma quiet_poll d s k :
  quiet s k -> poll_next d (res (on_sample s k)) = inr d.
Proof.
  unfold quiet, poll_next.
  destruct (res (on_sample s k)) as [e|[[|a l]|]]; intros Q;
    [reflexivity|reflexivity|contradiction|reflexivity].
Qed.

Lemma poll_clock_le s p : forall n c t,
  t + Z.of_nat n * Z.max 0 p <= poll_clock s p c t n.
Proof.
  induction n as [|n IH]; intros c t; cbn [poll_clock]; [lia|].
  specialize (IH (S c) (t + Z.of_N (lat (on_sample s c)) + Z.max 0 p)). lia.
Qed.

Lemma poll_clock_add s p : forall n m c t,
  poll_clock s p c t (n + m) = poll_clock s p (c + n) (poll_clock s p c t n) m.
Proof.
  induction n as [|n IH]; intros m c t; cbn [poll_clock Nat.add].
  - rewrite Nat.add_0_r. reflexivity.
  - rewrite IH. f_equal. lia.
Qed.

(** The loop goes through a run of such polls with its debounce
    variables unchanged. *)
Lemma skip_quiet n : forall f dl p d w,
  (forall j, (j < n)%nat -> quiet (script w) (calls w + j)) ->
  poll_clock (script w) p (calls w) (now w) n < dl ->
  exists w',
    verify_loop (n + f) dl p d w = verify_loop f dl p d w'
    /\ script w' = script w /\ calls w' = (calls w + n)%nat
    /\ now w' = poll_clock (script w) p (calls w) (now w) n.
Proof.
  induction n as [|n IH]; intros f dl p d w Q T.
  - exists w. cbn [poll_clock]. repeat split. lia.
  - cbn [Nat.add]. rewrite verify_loop_step.
    cbn [poll_clock] in T.
    pose proof (poll_clock_le (script w) p n (S (calls w))
                  (now w + Z.of_N (lat (on_sample (script w) (calls w))) + Z.max 0 p))
      as Le.
    assert (T0 : (now w <? dl) = true).
    { apply Z.ltb_lt. destruct n; cbn [poll_clock] in *; lia. }
    rewrite T0.
    rewrite quiet_poll
      by (specialize (Q 0%nat ltac:(lia)); rewrite Nat.add_0_r in Q; exact Q).
    destruct (after_poll_facts d w) as (A1 & A2 & A3).
    destruct (slept_facts p (after_poll d w)) as (B1 & B2 & B3).
    set (w1 := slept p (after_poll d w)) in *.
    assert (Sc : script w1 = script w) by congruence.
    assert (Ca : calls w1 = S (calls w)) by congruence.
    assert (Nw : now w1 = now w + Z.of_N (lat (on_sample (script w) (calls w)))
                          + Z.max 0 p) by (rewrite B3, A3; reflexivity).
    destruct (IH f dl p d w1) as (w' & E & S' & C' & N').
    + intros j Hj. rewrite Sc, Ca.
      replace (S (calls w) + j)%nat with (calls w + S j)%nat by lia.
      apply Q. lia.
    + rewrite Sc, Ca, Nw. exact T.
    + exists w'. split; [exact E|]. split; [congruence|]. split; [lia|].
      rewrite N', Sc, Ca, Nw. reflexivity.
Qed.

(** A poll that answers a non-empty list and does not end the loop. *)
Lemma loud_step f dl p d d' w l :
  sampled (script w) (calls w) l -> now w < dl ->
  poll_next d (inr (Some l)) = inr d' ->
  exists w',
    verify_loop (S f) dl p d w = verify_loop f dl p d' w'
    /\ script w' = script w /\ calls w' = S (calls w)
    /\ now w' = poll_clock (script w) p (calls w) (now w) 1.
Proof.
  intros (E & _) T P. rewrite verify_loop_step.
  apply Z.ltb_lt in T. rewrite T, E, P.
  destruct (after_poll_facts d w) as (A1 & A2 & A3).
  destruct (slept_facts p (after_poll d w)) as (B1 & B2 & B3).
  exists (slept p (after_poll d w)). split; [reflexivity|].
  split; [congruence|]. split; [congruence|].
  cbn [poll_clock]. rewrite B3, A3. reflexivity.
Qed.

Lemma poll_next_first l :
  l <> [] ->
  poll_next (Debounce None 0) (inr (Some l))
  = inr (Debounce (Some (snapshotKey l)) 0).
Proof. destruct l as [|a l]; [congruence|]. reflexivity. Qed.

Lemma poll_next_second key l :
  l <> [] -> snapshotKey l = key ->
  poll_next (Debounce (Some key) 0) (inr (Some l)) = inr (Debounce (Some key) 1).
Proof.
  destruct l as [|a l]; [congruence|]. intros _ <-. unfold poll_next. cbv zeta.
  cbn [lastSnapshotKey same_key]. rewrite key_eqb_refl. reflexivity.
Qed.

(** Three polls with one snapshot key, with polls in between and before
    that fail or answer nothing, all started before the deadline: the
    loop, started afresh, returns at the third. *)
Lemma verify_loop_skips n1 n2 n3 f dl p w l1 l2 l3 :
  let s := script w in
  let c := calls w in
  (forall j, (j < n1)%nat -> quiet s (c + j)) ->
  sampled s (c + n1) l1 ->
  (forall j, (j < n2)%nat -> quiet s (c + n1 + 1 + j)) ->
  sampled s (c + n1 + 1 + n2) l2 ->
  (forall j, (j < n3)%nat -> quiet s (c + n1 + 1 + n2 + 1 + j)) ->
  sampled s (c + n1 + 1 + n2 + 1 + n3) l3 ->
  snapshotKey l1 = snapshotKey l3 -> snapshotKey l2 = snapshotKey l3 ->
  poll_clock s p c (now w) (n1 + 1 + n2 + 1 + n3) < dl ->
  exists w',
    verify_loop (n1 + S (n2 + S (n3 + S f))) dl p (Debounce None 0) w = (Ok l3, w')
    /\ calls w' = (c + n1 + 1 + n2 + 1 + n3 + 1)%nat.
Proof.
  cbv zeta. intros Q1 S1 Q2 S2 Q3 S3 K1 K2 T.
  set (s := script w) in *. set (c := calls w) in *. set (t := now w) in *.
  assert (Mono : forall a b, poll_clock s p c t a <= poll_clock s p c t (a + b)).
  { intros a b. rewrite poll_clock_add.
    pose proof (poll_clock_le s p b (c + a) (poll_clock s p c t a)). lia. }
  assert (Back : forall a b k, k = (c + a)%nat ->
            poll_clock s p k (poll_clock s p c t a) b = poll_clock s p c t (a + b)).
  { intros a b k ->. symmetry. apply poll_clock_add. }
  (* the polls before the first *)
  destruct (skip_quiet n1 (S (n2 + S (n3 + S f))) dl p (Debounce None 0) w)
    as (w1 & E1 & Sc1 & C1 & N1).
  { exact Q1. }
  { fold s c t. pose proof (Mono n1 (1 + n2 + 1 + n3)%nat) as M.
    replace (n1 + (1 + n2 + 1 + n3))%nat with (n1 + 1 + n2 + 1 + n3)%nat in M by lia.
    lia. }
  rewrite E1. fold s c t in Sc1, C1, N1.
  (* the first *)
  destruct (loud_step (n2 + S (n3 + S f)) dl p (Debounce None 0)
              (Debounce (Some (snapshotKey l1)) 0) w1 l1)
    as (w2 & E2 & Sc2 & C2 & N2).
  { rewrite Sc1, C1. exact S1. }
  { rewrite N1. pose proof (Mono n1 (1 + n2 + 1 + n3)%nat) as M.
    replace (n1 + (1 + n2 + 1 + n3))%nat with (n1 + 1 + n2 + 1 + n3)%nat in M by lia.
    lia. }
  { apply poll_next_first. apply S1. }
  rewrite E2.
  assert (N2' : now w2 = poll_clock s p c t (n1 + 1)).
  { rewrite N2, Sc1, C1, N1. fold s. rewrite Back by lia. reflexivity. }
  assert (C2' : calls w2 = (c + n1 + 1)%nat) by lia.
  assert (Sc2' : script w2 = s) by congruence.
  (* the polls between the first and the second *)
  destruct (skip_quiet n2 (S (n3 + S f)) dl p (Debounce (Some (snapshotKey l1)) 0) w2)
    as (w3 & E3 & Sc3 & C3 & N3).
  { intros j Hj. rewrite Sc2', C2'. apply Q2. exact Hj. }
  { rewrite Sc2', C2', N2'. rewrite Back by lia.
    pose proof (Mono (n1 + 1 + n2)%nat (1 + n3)%nat) as M.
    replace (n1 + 1 + n2 + (1 + n3))%nat with (n1 + 1 + n2 + 1 + n3)%nat in M by lia.
    lia. }
  rewrite E3.
  assert (N3' : now w3 = poll_clock s p c t (n1 + 1 + n2)).
  { rewrite N3, Sc2', C2', N2'. rewrite Back by lia. reflexivity. }
  assert (C3' : calls w3 = (c + n1 + 1 + n2)%nat) by lia.
  assert (Sc3' : script w3 = s) by congruence.
  (* the second *)
  destruct (loud_step (n3 + S f) dl p (Debounce (Some (snapshotKey l1)) 0)
              (Debounce (Some (snapshotKey l1)) 1) w3 l2)
    as (w4 & E4 & Sc4 & C4 & N4).
  { rewrite Sc3', C3'. exact S2. }
  { rewrite N3'. pose proof (Mono (n1 + 1 + n2)%nat (1 + n3)%nat) as M.
    replace (n1 + 1 + n2 + (1 + n3))%nat with (n1 + 1 + n2 + 1 + n3)%nat in M by lia.
    lia. }
  { apply poll_next_second; [apply S2|congruence]. }
  rewrite E4.
  assert (N4' : now w4 = poll_clock s p c t (n1 + 1 + n2 + 1)).
  { rewrite N4, Sc3', C3', N3'. rewrite Back by lia. reflexivity. }
  assert (C4' : calls w4 = (c + n1 + 1 + n2 + 1)%nat) by lia.
  assert (Sc4' : script w4 = s) by congruence.
  (* the polls between the second and the third *)
  destruct (skip_quiet n3 (S f) dl p (Debounce (Some (snapshotKey l1)) 1) w4)
    as (w5 & E5 & Sc5 & C5 & N5).
  { intros j Hj. rewrite Sc4', C4'. apply Q3. exact Hj. }
  { rewrite Sc4', C4', N4'. rewrite Back by lia. lia. }
  rewrite E5.
  assert (N5' : now w5 = poll_clock s p c t (n1 + 1 + n2 + 1 + n3)).
  { rewrite N5, Sc4', C4', N4'. rewrite Back by lia. reflexivity. }
  assert (C5' : calls w5 = (c + n1 + 1 + n2 + 1 + n3)%nat) by lia.
  assert (Sc5' : script w5 = s) by congruence.
  (* the third *)
  rewrite verify_loop_step.
  assert (T5 : (now w5 <? dl) = true) by (apply Z.ltb_lt; lia).
  rewrite T5, Sc5', C5'. destruct S3 as (R3 & Ne3). rewrite R3.
  rewrite (poll_next_confirmed _ l3 Ne3); [|cbn; congruence|cbn; lia].
  destruct (after_poll_facts (Debounce (Some (snapshotKey l1)) 1) w5) as (_ & A2 & _).
  eexists. split; [reflexivity|]. lia.
Qed.

(** C10 (as amended).  [verifyAttachmentsVisible] never throws and, with a
    positive poll interval, returns: sampling errors are absorbed and
    polling goes on.  It returns the empty list only once the timeout has
    elapsed.  It returns a non-empty list [l] only when the last three
    polls that answered a non-empty list carried the same snapshot key, the
    last of them answering [l]; polls in between that failed or answered
    nothing are skipped and do not reset the count.  When the sampled
    selectors carry no colon, these three polls list the same file names
    and selectors, in order.  And it does return then: when three polls
    started before the deadline answer non-empty lists with one snapshot
    key, and every other poll up to the third is rejected or answers no
    value or the empty list, the list of the third is returned at the
    third.  So with the polls a.pdf, a rejection, a.pdf, no value, a.pdf
    the list is returned at the fifth poll. *)
Theorem verifyAttachmentsVisible_debounced
  (n : nat) (options : VerifyAttachmentsOptions) (w : world) :
  0 < or_default (pollInterval options) 200 ->
  or_default (timeout options) 5000
    <= Z.of_nat n * or_default (pollInterval options) 200 ->
  (exists l w',
    verifyAttachmentsVisible (S n) options w = (Ok l, w')
    /\ ((l = [] /\ now w + or_default (timeout options) 5000 <= now w')
        \/ (l <> [] /\ exists k1 k2 l1 l2,
              (calls w <= k1 < k2)%nat /\ (k2 < calls w' - 1)%nat
              /\ sampled (script w) k1 l1 /\ sampled (script w) k2 l2
              /\ sampled (script w) (calls w' - 1) l
              /\ snapshotKey l1 = snapshotKey l /\ snapshotKey l2 = snapshotKey l
              /\ (forall j, (k1 < j < calls w' - 1)%nat -> j <> k2 ->
                            quiet (script w) j)
              /\ (colon_free_script (script w) ->
                  same_items l1 l /\ same_items l2 l))))
  /\ (forall k1 k2 k3 l1 l2 l3,
        (calls w <= k1 < k2)%nat -> (k2 < k3)%nat ->
        sampled (script w) k1 l1 -> sampled (script w) k2 l2 ->
        sampled (script w) k3 l3 ->
        snapshotKey l1 = snapshotKey l3 -> snapshotKey l2 = snapshotKey l3 ->
        (forall j, (calls w <= j < k3)%nat -> j <> k1 -> j <> k2 ->
                   quiet (script w) j) ->
        poll_clock (script w) (or_default (pollInterval options) 200)
                   (calls w) (now w) (k3 - calls w)
          < now w + or_default (timeout options) 5000 ->
        exists w',
          verifyAttachmentsVisible (S n) options w = (Ok l3, w')
          /\ calls w' = S k3)
  /\ (let r := verifyAttachmentsVisible 26 (VerifyOptions None None)
                 (start (flaky_sampler a_pdf)) in
      fst r = Ok [a_pdf] /\ calls (snd r) = 5%nat /\ now (snd r) = 800).
Proof.
  intros Hp Hn. split; [|split].
  - unfold verifyAttachmentsVisible, bind, date_now.
    set (dl := now w + or_default (timeout options) 5000).
    set (p := or_default (pollInterval options) 200) in *.
    pose proof (verify_loop_total n dl p (Debounce None 0) w Hp ltac:(subst dl; lia)) as Tot.
    pose proof (verify_loop_returns (S n) dl p (Debounce None 0) w (calls w)
                  (le_n _) I) as Ret.
    destruct (verify_loop (S n) dl p (Debounce None 0) w) as [[l| |] w'];
      [|contradiction|exfalso; apply Tot; reflexivity].
    exists l, w'. split; [reflexivity|].
    destruct Ret as (_ & [(E & D & _)|(Hne & C & Rt)]); [left; auto|].
    destruct Rt as (k1 & k2 & l1 & l2 & R1 & R2 & S1 & S2 & S3 & K1 & K2 & Q).
    right. split; [exact Hne|]. exists k1, k2, l1, l2.
    repeat (split; [assumption|]).
    intros CF.
    assert (F : forall k l0, sampled (script w) k l0 ->
                Forall (fun a => colon_free (selector a)) l0).
    { intros k l0 (E0 & _). apply Forall_forall. intros a Ha. exact (CF k l0 a E0 Ha). }
    split; apply same_key_items; eauto.
  - intros k1 k2 k3 l1 l2 l3 H1 H2 S1 S2 S3 K1 K2 Q T.
    unfold verifyAttachmentsVisible, bind, date_now.
    set (dl := now w + or_default (timeout options) 5000) in *.
    set (p := or_default (pollInterval options) 200) in *.
    set (n1 := (k1 - calls w)%nat). set (n2 := (k2 - k1 - 1)%nat).
    set (n3 := (k3 - k2 - 1)%nat).
    assert (Ek : (k3 - calls w = n1 + 1 + n2 + 1 + n3)%nat) by lia.
    assert (Fu : exists f, S n = (n1 + S (n2 + S (n3 + S f)))%nat).
    { pose proof (poll_clock_le (script w) p (k3 - calls w) (calls w) (now w)) as Le.
      assert (Z.of_nat (k3 - calls w) * p < Z.of_nat n * p).
      { rewrite Z.max_r in Le by lia. subst dl. lia. }
      assert (k3 - calls w < n)%nat by nia.
      exists (n - (k3 - calls w))%nat. lia. }
    destruct Fu as (f & ->).
    destruct (verify_loop_skips n1 n2 n3 f dl p w l1 l2 l3) as (w' & E & C).
    + intros j Hj. apply Q; lia.
    + replace (calls w + n1)%nat with k1 by lia. exact S1.
    + intros j Hj. apply Q; lia.
    + replace (calls w + n1 + 1 + n2)%nat with k2 by lia. exact S2.
    + intros j Hj. apply Q; lia.
    + replace (calls w + n1 + 1 + n2 + 1 + n3)%nat with k3 by lia. exact S3.
    + exact K1.
    + exact K2.
    + rewrite <- Ek. exact T.
    + exists w'. split; [exact E|]. lia.
  - cbv zeta. repeat split; vm_compute; reflexivity.
Qed.

(** A sampler whose polls alternate between one attachment and nothing. *)
Example flicker_returns :
  fst (verifyAttachmentsVisible 26 (VerifyOptions None None)
         (start (sampler [[a_pdf]; []; [a_pdf]; []; [a_pdf]])))
  = Ok [a_pdf].
Proof. vm_compute. reflexivity. Qed.

Lemma verifyAttachmentsVisible_debounced_witness :
  0 < 200 /\ 5000 <= Z.of_nat 25 * 200 /\
  exists l w',
    verifyAttachmentsVisible 26 (VerifyOptions None None)
      (start (sampler [[a_pdf]; []; [a_pdf]; []; [a_pdf]])) = (Ok l, w').
Proof.
  split; [reflexivity|]. split; [vm_compute; discriminate|].
  destruct (verifyAttachmentsVisible_debounced 25 (VerifyOptions None None)
              (start (sampler [[a_pdf]; []; [a_pdf]; []; [a_pdf]])))
    as ((l & w' & E & _) & _).
  - reflexivity.
  - vm_compute; discriminate.
  - exists l, w'. exact E.
Defined.

(** C10 (as stated) fails: the sampler returns a non-empty list although no
    three consecutive polls answered the same non-empty snapshot; every
    second poll answered the empty list. *)
Lemma verifyAttachmentsVisible_not_three_consecutive :
  exists l w',
    verifyAttachmentsVisible 26 (VerifyOptions None None)
      (start (sampler [[a_pdf]; []; [a_pdf]; []; [a_pdf]])) = (Ok l, w')
    /\ l <> []
    /\ ~ exists k, three_in_a_row (sampler [[a_pdf]; []; [a_pdf]; []; [a_pdf]]) k l.
Proof.
  exists [a_pdf]; eexists. split; [vm_compute; reflexivity|].
  split; [intros H; discriminate H|].
  intros (k & l1 & l2 & (E1 & N1) & (E2 & N2) & (E3 & N3) & _).
  unfold sampler, at_once in E1, E2, E3; cbn [on_sample res] in E1, E2, E3.
  destruct k as [|[|[|[|k]]]]; cbn in E1, E2, E3; congruence.
Qed.

End VerifyFacts.


(** ** The verification step of the run *)
Module PipelineFacts.
Import JS Remote Attachments Normalize Pipeline VerifySpec RemoteFacts VerifyFacts Scenario.
Local Open Scope js_scope.

Lemma includes_name_In names x : includes_name names x = true <-> In x names.
Proof.
  unfold includes_name. rewrite existsb_exists. split.
  - intros (y & Hy & E). apply String.eqb_eq in E. now subst.
  - intros H. exists x. split; [exact H|apply String.eqb_refl].
Qed.

Lemma missing_nil expected visible :
  missingFiles expected visible = [] <-> incl expected visible.
Proof.
  unfold missingFiles, incl. induction expected as [|e r IH]; simpl.
  - split; [intros _ a []|reflexivity].
  - destruct (includes_name visible e) eqn:E; simpl.
    + apply includes_name_In in E. rewrite IH. split.
      * intros H a [<-|Ha]; auto.
      * intros H a Ha. apply H; auto.
    + split; [discriminate|]. intros H. exfalso.
      assert (In e visible) by (apply H; auto).
      apply includes_name_In in H0. congruence.
Qed.

Lemma extra_nil expected visible :
  extraFiles expected visible = [] <-> incl visible expected.
Proof. apply (missing_nil visible expected). Qed.

Lemma length_pos_nonempty {A} (l : list A) : (0 <? length l)%nat = true <-> l <> [].
Proof.
  destruct l; simpl; split; try discriminate; try congruence; auto.
Qed.

(** The rejection condition, in terms of the two sets of names. *)
Lemma rejects_iff expected visible :
  rejects expected visible = true
  <-> (~ incl expected visible
       \/ (~ incl visible expected /\ length visible <> length expected)).
Proof.
  unfold rejects. rewrite orb_true_iff, andb_true_iff, negb_true_iff,
    Nat.eqb_neq, !length_pos_nonempty, missing_nil, extra_nil. reflexivity.
Qed.

(** The rejecting branch of the step: what it throws and what it logs. *)
Lemma reject_branch (vis : list VisibleAttachment) (en vn : nat)
      (expected visible missing extra : list string) (w1 : world) :
  exists w2,
    (log (LText "Attachment verification failed!") ;;;
     log (LExpected en expected) ;;;
     log (LVisible vn visible) ;;;
     when (0 <? length missing)%nat (log (LMissing missing)) ;;;
     when (0 <? length extra)%nat (log (LExtra extra)) ;;;
     when (0 <? length vis)%nat
       (log (LText "Visible attachment DOM samples (first 2):") ;;;
        log_samples 1 (firstn 2 vis)) ;;;
     throw (Err (verification_message en vn missing visible))) w1
    = (@Throw unit (Err (verification_message en vn missing visible)), w2)
    /\ (missing <> [] -> In (Logged (LMissing missing)) (trace w2))
    /\ (extra <> [] -> In (Logged (LExtra extra)) (trace w2)).
Proof.
  destruct missing as [|m ms], extra as [|x xs], vis as [|a [|b r]];
    (eexists; split; [reflexivity|]; split; intros H; try congruence; cbn; tauto).
Qed.

(** C6 (as amended).  Once the visual sampler has returned [vis] (the empty
    list when the verification timeout elapsed), the step fails exactly
    when a normalized expected name is not visible, or a visible name is
    unexpected and the number of visible names differs from the number of
    expected names.  The error it throws carries the missing and the
    visible names, and the missing and the unexpected names are logged.
    With nothing visible and something expected it fails.  In scenario C,
    expected a.pdf and b.png against visible a.pdf and c.pdf, it fails with
    missing b.png and logs c.pdf as unexpected. *)
Theorem verifyVisibleStep_verdict
  (fuel : nat) (attachments : list BrowserAttachment) (w : world)
  (vis : list VisibleAttachment) (w1 : world) :
  verifyAttachmentsVisible fuel (VerifyOptions (Some 10000) None) w = (Ok vis, w1) ->
  let expected := expectedFilenames attachments in
  let visible := visibleFilenames vis in
  let missing := missingFiles expected visible in
  let extra := extraFiles expected visible in
  ((exists e w2, verifyVisibleStep fuel attachments w = (Throw e, w2))
   <-> (~ incl expected visible
        \/ (~ incl visible expected /\ length visible <> length expected)))
  /\ (forall e w2, verifyVisibleStep fuel attachments w = (Throw e, w2) ->
        e = Err (verification_message (length expected) (length visible)
                                      missing visible)
        /\ (missing <> [] -> In (Logged (LMissing missing)) (trace w2))
        /\ (extra <> [] -> In (Logged (LExtra extra)) (trace w2)))
  /\ (forall w2, verifyVisibleStep fuel attachments w = (Ok tt, w2) ->
        trace w2 = Logged (LVerified (length visible) (length expected)) :: trace w1)
  /\ (vis = [] -> attachments <> [] ->
      exists e w2, verifyVisibleStep fuel attachments w = (Throw e, w2))
  /\ (let w0 := start (sampler [[a_pdf; c_pdf]; [a_pdf; c_pdf]; [a_pdf; c_pdf]]) in
      fst (verifyVisibleStep 51 a_and_b w0)
      = Throw (Err ("Expected 2 attachment(s) but only 2 visible in composer. "
                    ++ "Missing: [b.png]. Visible: [a.pdf, c.pdf]"))
      /\ In (Logged (LMissing ["b.png"])) (trace (snd (verifyVisibleStep 51 a_and_b w0)))
      /\ In (Logged (LExtra ["c.pdf"])) (trace (snd (verifyVisibleStep 51 a_and_b w0)))).
Proof.
  intros H expected visible missing extra.
  assert (Step : verifyVisibleStep fuel attachments w =
    if rejects expected visible then
      (log (LText "Attachment verification failed!") ;;;
       log (LExpected (length expected) expected) ;;;
       log (LVisible (length visible) visible) ;;;
       when (0 <? length missing)%nat (log (LMissing missing)) ;;;
       when (0 <? length extra)%nat (log (LExtra extra)) ;;;
       when (0 <? length vis)%nat
         (log (LText "Visible attachment DOM samples (first 2):") ;;;
          log_samples 1 (firstn 2 vis)) ;;;
       throw (Err (verification_message (length expected) (length visible)
                                        missing visible))) w1
    else log (LVerified (length visible) (length expected)) w1).
  { unfold verifyVisibleStep. unfold bind at 1. rewrite H.
    fold expected. fold visible. fold missing. fold extra.
    destruct (rejects expected visible); reflexivity. }
  destruct (reject_branch vis (length expected) (length visible)
              expected visible missing extra w1) as (w2 & E2 & M2 & X2).
  pose proof (rejects_iff expected visible) as RI.
  assert (Fails : (exists e w', verifyVisibleStep fuel attachments w = (Throw e, w'))
                  <-> rejects expected visible = true).
  { rewrite Step. destruct (rejects expected visible).
    - rewrite E2. split; [reflexivity|]. intros _. eauto.
    - split; [|discriminate]. intros (e & w' & E). discriminate E. }
  split; [rewrite Fails; exact RI|].
  split.
  { intros e w' E. rewrite Step in E. destruct (rejects expected visible).
    - rewrite E2 in E. injection E as <- <-. auto.
    - discriminate E. }
  split.
  { intros w' E. rewrite Step in E. destruct (rejects expected visible).
    - rewrite E2 in E. discriminate E.
    - injection E as <-. reflexivity. }
  split.
  { intros -> Hne. apply Fails. apply RI. left. intros I.
    destruct attachments as [|a r]; [congruence|].
    specialize (I _ (or_introl eq_refl)). exact I. }
  cbv zeta. split; [|split]; vm_compute; auto 10.
Qed.

Lemma verifyVisibleStep_verdict_witness :
  let w0 := start (sampler [[a_pdf; c_pdf]; [a_pdf; c_pdf]; [a_pdf; c_pdf]]) in
  let opts := VerifyOptions (Some 10000) None in
  verifyAttachmentsVisible 51 opts w0
  = (Ok [a_pdf; c_pdf], snd (verifyAttachmentsVisible 51 opts w0))
  /\ exists e w2, verifyVisibleStep 51 a_and_b w0 = (Throw e, w2).
Proof.
  cbv zeta.
  assert (H : verifyAttachmentsVisible 51 (VerifyOptions (Some 10000) None)
                (start (sampler [[a_pdf; c_pdf]; [a_pdf; c_pdf]; [a_pdf; c_pdf]]))
              = (Ok [a_pdf; c_pdf],
                 snd (verifyAttachmentsVisible 51 (VerifyOptions (Some 10000) None)
                        (start (sampler [[a_pdf; c_pdf]; [a_pdf; c_pdf]; [a_pdf; c_pdf]])))))
    by (vm_compute; reflexivity).
  split; [exact H|].
  destruct (verifyVisibleStep_verdict 51 a_and_b _ _ _ H) as (_ & _ & _ & _ & S & _).
  destruct (verifyVisibleStep 51 a_and_b
              (start (sampler [[a_pdf; c_pdf]; [a_pdf; c_pdf]; [a_pdf; c_pdf]])))
    as [[u|e|] w2]; simpl in S; try discriminate S.
  exists e, w2. reflexivity.
Defined.

(** C6 (as stated) fails: with two expected files of one base name and a
    stable composer showing a.pdf and c.pdf, the normalized sets differ
    (c.pdf is not expected) and yet the step accepts. *)
Lemma verifyVisibleStep_accepts_mismatch :
  let w0 := start (sampler [[a_pdf; c_pdf]; [a_pdf; c_pdf]; [a_pdf; c_pdf]]) in
  fst (verifyAttachmentsVisible 51 (VerifyOptions (Some 10000) None) w0)
  = Ok [a_pdf; c_pdf]
  /\ expectedFilenames two_a = ["a.pdf"; "a.pdf"]
  /\ visibleFilenames [a_pdf; c_pdf] = ["a.pdf"; "c.pdf"]
  /\ ~ incl (visibleFilenames [a_pdf; c_pdf]) (expectedFilenames two_a)
  /\ fst (verifyVisibleStep 51 two_a w0) = Ok tt.
Proof.
  cbv zeta. repeat split; try (vm_compute; reflexivity).
  intros I. specialize (I "c.pdf"). vm_compute in I.
  destruct I as [I|[I|[]]]; [auto|discriminate I|discriminate I].
Qed.

(** C7 (as amended).  The sampler trusts a snapshot once three polls in a
    row, each made before the deadline, answered non-empty lists with the
    same snapshot key: the loop then returns one of these lists, at the
    third of the polls at the latest.  In scenario B with one more poll,
    a sampler answering a.pdf alone and then a.pdf with b.png three times
    in a row, the step succeeds after four polls and reports 2 of 2. *)
Theorem verification_trusts_three_polls
  (fuel : nat) (dl p : Z) (d : debounce) (w : world)
  (l1 l2 l3 : list VisibleAttachment) :
  sampled (script w) (calls w) l1 ->
  sampled (script w) (calls w + 1) l2 ->
  sampled (script w) (calls w + 2) l3 ->
  snapshotKey l1 = snapshotKey l3 -> snapshotKey l2 = snapshotKey l3 ->
  now w + Z.of_N (lat (on_sample (script w) (calls w))) + Z.max 0 p
    + Z.of_N (lat (on_sample (script w) (calls w + 1))) + Z.max 0 p < dl ->
  (exists l w',
     verify_loop (3 + fuel) dl p d w = (Ok l, w')
     /\ (l = l1 \/ l = l2 \/ l = l3)
     /\ (calls w' <= calls w + 3)%nat)
  /\ (let w0 := start (sampler [[a_pdf]; [a_pdf; b_png]; [a_pdf; b_png]; [a_pdf; b_png]]) in
      fst (verifyVisibleStep 51 a_and_b w0) = Ok tt
      /\ hd_error (trace (snd (verifyVisibleStep 51 a_and_b w0)))
         = Some (Logged (LVerified 2 2))
      /\ calls (snd (verifyVisibleStep 51 a_and_b w0)) = 4%nat).
Proof.
  intros S1 S2 S3 K1 K2 T. split.
  - eapply verify_loop_trusts; eassumption.
  - cbv zeta. repeat split; vm_compute; reflexivity.
Qed.

Lemma verification_trusts_three_polls_witness :
  exists l w',
    verify_loop 3 10000 200 (Debounce None 0)
      (start (sampler [[a_pdf; b_png]; [a_pdf; b_png]; [a_pdf; b_png]])) = (Ok l, w')
    /\ (calls w' <= 3)%nat.
Proof.
  destruct (verification_trusts_three_polls 0 10000 200 (Debounce None 0)
              (start (sampler [[a_pdf; b_png]; [a_pdf; b_png]; [a_pdf; b_png]]))
              [a_pdf; b_png] [a_pdf; b_png] [a_pdf; b_png])
    as ((l & w' & E & _ & C) & _).
  - split; [reflexivity|intros H; discriminate H].
  - split; [reflexivity|intros H; discriminate H].
  - split; [reflexivity|intros H; discriminate H].
  - reflexivity.
  - reflexivity.
  - reflexivity.
  - exists l, w'. split; [exact E|exact C].
Defined.

(** C7 (as stated) fails: the sampler answers a.pdf alone and then a.pdf
    with b.png on two polls in a row, after which it has nothing more to
    report; two equal polls are not trusted, the sampler times out and the
    step fails with both files missing. *)
Lemma two_polls_not_trusted :
  let s := sampler [[a_pdf]; [a_pdf; b_png]; [a_pdf; b_png]] in
  sampled s 0 [a_pdf] /\ sampled s 1 [a_pdf; b_png] /\ sampled s 2 [a_pdf; b_png]
  /\ fst (verifyAttachmentsVisible 51 (VerifyOptions (Some 10000) None) (start s)) = Ok []
  /\ fst (verifyVisibleStep 51 a_and_b (start s))
     = Throw (Err ("Expected 2 attachment(s) but only 0 visible in composer. "
                   ++ "Missing: [a.pdf, b.png]. Visible: [none]")).
Proof.
  cbv zeta. repeat split; try (intros H; discriminate H); vm_compute; reflexivity.
Qed.

End PipelineFacts.

(** ** Further facts about the lock *)
Module LockExtra.
Import Lock LockSpec LockFacts.

Lemma run_settled n w p : settled (at_pc p) = true -> run n w p = (w, p).
Proof. intros St. destruct n; [reflexivity|]. cbn [run]. now rewrite St. Qed.

Lemma run_more n m w p :
  (n <= m)%nat -> settled (at_pc (snd (run n w p))) = true ->
  run m w p = run n w p.
Proof.
  intros L St. replace m with (n + (m - n))%nat by lia.
  rewrite run_add. rewrite run_settled by exact St.
  destruct (run n w p); reflexivity.
Qed.

(** One round of a contender that has logged its notice, against the
    record of a live holder, before its deadline has passed. *)
Lemma waiter_round w me timeout t0 h c :
  file w = Some (Json (Some (Int h)) (Some c)) -> 0 < h -> running w h = true ->
  (0 <? timeout) && (now t0 + timeout <? now w) = false ->
  run 3 w (waiter me timeout t0 h)
  = (set_now w (now w + retryDelayMs), waiter me timeout t0 h).
Proof.
  destruct w as [f r d cf t]. cbn [file running now]. intros -> Hh Rh Chk.
  assert (L : (h <=? 0) = false) by (apply Z.leb_gt; lia).
  unfold waiter. cbn. rewrite L. cbn. rewrite Rh. cbn.
  cbn in Chk. rewrite Chk. reflexivity.
Qed.

(** The first round of a contender against the record of a live holder:
    the creation fails, the record is read, the notice is logged, and the
    contender sleeps; the deadline cannot have passed yet. *)
Lemma first_round w me timeout h c :
  file w = Some (Json (Some (Int h)) (Some c)) -> 0 < h -> running w h = true ->
  run 3 w (acquire_start me timeout w)
  = (set_now w (now w + retryDelayMs), waiter me timeout w h).
Proof.
  destruct w as [f r d cf t]. cbn [file running now]. intros -> Hh Rh.
  assert (L : (h <=? 0) = false) by (apply Z.leb_gt; lia).
  assert (Chk : (0 <? timeout) && (t + timeout <? t) = false).
  { destruct (0 <? timeout) eqn:P; [|reflexivity]. apply Z.ltb_lt in P.
    cbn. apply Z.ltb_ge. lia. }
  unfold acquire_start, waiter. cbn. rewrite L. cbn. rewrite Rh. cbn.
  rewrite Chk. reflexivity.
Qed.

(** [j] further rounds, none of which starts after the deadline. *)
Lemma waiter_rounds me timeout t0 h c j : forall w,
  file w = Some (Json (Some (Int h)) (Some c)) -> 0 < h -> running w h = true ->
  (0 < timeout -> now w + retryDelayMs * (Z.of_nat j - 1) <= now t0 + timeout) ->
  run (3 * j) w (waiter me timeout t0 h)
  = (set_now w (now w + retryDelayMs * Z.of_nat j), waiter me timeout t0 h).
Proof.
  unfold retryDelayMs.
  induction j as [|j IH]; intros w Fw Hh Rh Hd.
  - cbn [Nat.mul run]. change (Z.of_nat 0) with 0.
    rewrite Z.mul_0_r, Z.add_0_r. destruct w; reflexivity.
  - replace (3 * S j)%nat with (3 + 3 * j)%nat by lia.
    rewrite run_add. rewrite (waiter_round w me timeout t0 h c Fw Hh Rh).
    + cbn [fst snd]. rewrite IH; try assumption.
      * destruct w as [f r d cf t]; unfold set_now, retryDelayMs;
          cbn [file running rm_denied create_fault now]. f_equal. f_equal. lia.
      * intros P; specialize (Hd P). unfold set_now, retryDelayMs. cbn [now]. lia.
    + destruct (0 <? timeout) eqn:P; [|reflexivity]. apply Z.ltb_lt in P.
      cbn. apply Z.ltb_ge. specialize (Hd P). lia.
Qed.



Import LockScenario.


(** A condition that every step keeps, under which the process stays
    in the loop and the lock file stays as it is, holds for ever. *)
Lemma waits_for_ever (I : world -> proc -> Prop) :
  (forall w p, I w p ->
     retrying p = true /\ I (fst (step w p)) (snd (step w p))
     /\ file (fst (step w p)) = file w) ->
  forall fuel w p, I w p ->
    I (fst (run fuel w p)) (snd (run fuel w p))
    /\ file (fst (run fuel w p)) = file w.
Proof.
  intros Keep. induction fuel as [|fuel IH]; intros w p H; [split; [exact H|reflexivity]|].
  destruct (Keep w p H) as (Rt & Hs & Fs).
  cbn [run]. replace (settled (at_pc p)) with false
    by (revert Rt; unfold retrying; destruct (at_pc p); cbn; congruence).
  destruct (step w p) as [w' p']. cbn [fst snd] in *.
  destruct (IH w' p' Hs) as (A & B). split; [exact A|congruence].
Qed.

(** X2.  With a timeout that is not positive the wait has no bound:
    against the record of a live holder that does not release, the
    contender is still in its loop after any number of steps, a round of
    750 ms after the other, and the record is as it was. *)
Theorem acquire_without_timeout_waits
  (w : world) (me timeout h : Z) (c : number) :
  file w = Some (Json (Some (Int h)) (Some c)) -> 0 < h -> running w h = true ->
  timeout <= 0 ->
  (forall fuel,
     retrying (snd (acquireBrowserLock fuel me timeout w)) = true
     /\ file (fst (acquireBrowserLock fuel me timeout w)) = file w)
  /\ (forall j, acquireBrowserLock (3 + 3 * j) me timeout w
                = (set_now w (now w + 750 * (1 + Z.of_nat j)), waiter me timeout w h)).
Proof.
  intros Fw Hh Rh Np. split.
  - intros fuel. unfold acquireBrowserLock.
    pose (I := fun (w' : world) (p : proc) =>
                 file w' = Some (Json (Some (Int h)) (Some c))
                 /\ running w' h = true /\ retrying p = true /\ timeoutMs p = timeout).
    destruct (waits_for_ever I) with (fuel := fuel) (w := w)
      (p := acquire_start me timeout w) as ((F & _ & Rt & _) & _).
    + clear fuel. intros w' p (F & R & Rt & Tm).
      split; [exact Rt|].
      destruct w' as [f r d cf t], p as [me' l tm dl cr hl rl lg].
      cbn [file running timeoutMs] in *. subst f tm.
      assert (L : (h <=? 0) = false) by (apply Z.leb_gt; lia).
      assert (T : (0 <? timeout) = false) by (apply Z.ltb_ge; lia).
      unfold I, retrying in *. cbn [at_pc] in Rt.
      destruct l; try discriminate Rt; cbn; rewrite ?L; cbn; rewrite ?R; cbn;
        rewrite ?T; cbn; try (destruct hl; cbn); repeat split; auto.
    + repeat split; auto.
    + split; [exact Rt|congruence].
  - intros j. unfold acquireBrowserLock. rewrite run_add.
    rewrite (first_round w me timeout h c Fw Hh Rh). cbn [fst snd].
    rewrite (waiter_rounds me timeout w h c j); try assumption; [|lia].
    destruct w as [f r d cf t]; unfold set_now, retryDelayMs;
      cbn [file running rm_denied create_fault now]. f_equal. f_equal. lia.
Qed.

Example acquire_without_timeout_waits_witness :
  let busy := World (Some (Json (Some (Int 7)) (Some (Int 0))))
                    (fun _ => true) false None 0 in
  retrying (snd (acquireBrowserLock 1000 101 0 busy)) = true.
Proof.
  cbv zeta.
  destruct (acquire_without_timeout_waits
              (World (Some (Json (Some (Int 7)) (Some (Int 0))))
                     (fun _ => true) false None 0) 101 0 7 (Int 0)
              eq_refl eq_refl eq_refl) as (A & _).
  - intros H; discriminate H.
  - apply (A 1000%nat).
Defined.

(** X3.  A lock file whose payload cannot be read (empty, not JSON, or
    without a numeric pid or createdAt) is never removed: the contender
    retries for ever, whatever its timeout, leaves the file as it is, and
    logs nothing. *)
Theorem unreadable_lock_is_kept
  (fuel : nat) (w : world) (me timeout : Z) (content : Lock.content) :
  file w = Some content -> readExistingLock w = None ->
  retrying (snd (acquireBrowserLock fuel me timeout w)) = true
  /\ file (fst (acquireBrowserLock fuel me timeout w)) = file w
  /\ logged (snd (acquireBrowserLock fuel me timeout w)) = [].
Proof.
  intros Fw Un. unfold acquireBrowserLock.
  pose (I := fun (w' : world) (p : proc) =>
               file w' = Some content /\ retrying p = true /\ logged p = []).
  destruct (waits_for_ever I) with (fuel := fuel) (w := w)
    (p := acquire_start me timeout w) as ((_ & Rt & Lg) & F).
  - clear fuel. intros w' p (F & Rt & Lg). split; [exact Rt|].
    assert (Un' : readExistingLock w' = None).
    { unfold readExistingLock in *. rewrite F. rewrite Fw in Un. exact Un. }
    destruct p as [me' l tm dl cr hl rl lg].
    unfold I, step, retrying in *. cbn [at_pc logged] in *.
    destruct l; try discriminate Rt.
    + rewrite F. cbn. auto.
    + rewrite Un'. cbn. auto.
    + cbn. auto.
  - repeat split; auto.
  - auto.
Qed.

Example unreadable_lock_is_kept_witness :
  let torn := World (Some Garbled) (fun _ => true) false None 0 in
  file (fst (acquireBrowserLock 500 101 1000 torn)) = Some Garbled.
Proof.
  cbv zeta.
  destruct (unreadable_lock_is_kept 500 (World (Some Garbled) (fun _ => true) false None 0)
              101 1000 Garbled eq_refl eq_refl) as (_ & F & _).
  exact F.
Defined.

(** X4.  When the directory of the lock path cannot be made, the error
    of [fs.mkdir] is thrown at once, before any attempt on the lock file
    and whatever the path holds.  When the directory is there and the lock
    file cannot be created, an error other than EEXIST, EACCES and EPERM
    is thrown again at once; after EACCES or EPERM on a path that holds no
    file the contender retries for ever and never creates the file. *)
Theorem creation_errors (h : host) (me timeout : Z) :
  (forall dcode, mkdir_fault h = Some dcode ->
     forall fuel,
       acquire_on fuel me timeout h
       = (lock_world h,
          goto (acquire_start me timeout (lock_world h))
               (Thrown (FsError dcode))))
  /\ (forall code,
        mkdir_fault h = None -> file (lock_world h) = None ->
        create_fault (lock_world h) = Some code ->
        (contended code = false ->
         forall fuel,
           acquire_on (S fuel) me timeout h
           = (lock_world h,
              goto (acquire_start me timeout (lock_world h))
                   (Thrown (FsError code))))
        /\ (contended code = true ->
            forall fuel,
              retrying (snd (acquire_on fuel me timeout h)) = true
              /\ file (fst (acquire_on fuel me timeout h)) = None)).
Proof.
  destruct h as [w mk]. cbn [lock_world mkdir_fault]. split.
  - intros dcode -> fuel. reflexivity.
  - intros code -> Fw Cf. unfold acquire_on. cbn [lock_world mkdir_fault]. split.
    + intros Nc fuel. unfold acquireBrowserLock.
      cbn [run acquire_start at_pc settled].
      unfold step. cbn [at_pc]. rewrite Fw, Cf, Nc. apply run_settled. reflexivity.
    + intros Ct fuel. unfold acquireBrowserLock.
      pose (I := fun (w' : world) (p : proc) =>
                   file w' = None /\ create_fault w' = Some code /\ retrying p = true).
      destruct (waits_for_ever I) with (fuel := fuel) (w := w)
        (p := acquire_start me timeout w) as ((_ & _ & Rt) & F).
      * clear fuel. intros w' p (F & C & Rt). split; [exact Rt|].
        destruct p as [me' l tm dl cr hl rl lg].
        unfold I, step, retrying, readExistingLock in *. cbn [at_pc] in *.
        destruct l; try discriminate Rt.
        -- rewrite F, C, Ct. cbn. auto.
        -- rewrite F. cbn. auto.
        -- cbn. auto.
      * repeat split; auto.
      * split; [exact Rt|congruence].
Qed.

Example creation_errors_witness :
  let full := World None (fun _ => true) false (Some "ENOSPC") 0 in
  at_pc (snd (acquire_on 1 101 1000 (Host full None))) = Thrown (FsError "ENOSPC")
  /\ at_pc (snd (acquire_on 1000 101 1000 (Host full (Some "EROFS"))))
     = Thrown (FsError "EROFS").
Proof.
  cbv zeta. split.
  - destruct (creation_errors
                (Host (World None (fun _ => true) false (Some "ENOSPC") 0) None)
                101 1000) as (_ & A).
    destruct (A "ENOSPC" eq_refl eq_refl eq_refl) as (B & _).
    rewrite (B eq_refl 0%nat). reflexivity.
  - destruct (creation_errors
                (Host (World None (fun _ => true) false (Some "ENOSPC") 0)
                      (Some "EROFS"))
                101 1000) as (A & _).
    rewrite (A "EROFS" eq_refl 1000%nat). reflexivity.
Defined.

Lemma noticed_step w p :
  noticed_once p -> noticed_once (snd (step w p)).
Proof.
  destruct p as [me l tm dl cr hl rl lg]. unfold noticed_once, step.
  cbn [at_pc logged hasLoggedWaiting]. intros N.
  destruct l, hl; cbn in *;
    repeat match goal with
           | |- context [match ?x with _ => _ end] => destruct x; cbn
           end; auto; try (rewrite N; reflexivity); try discriminate.
Qed.

Lemma noticed_release p : noticed_once p -> noticed_once (call_release p).
Proof.
  unfold noticed_once, call_release. destruct (released p); auto.
Qed.

Lemma noticed_le p : noticed_once p -> (waiting_lines (logged p) <= 1)%nat.
Proof. unfold noticed_once. intros ->. destruct (hasLoggedWaiting p); lia. Qed.

Lemma noticed_play ms : forall w a b,
  noticed_once a -> noticed_once b ->
  noticed_once (snd (fst (play ms (w, a, b))))
  /\ noticed_once (snd (play ms (w, a, b))).
Proof.
  unfold play.
  induction ms as [|m ms IH]; intros w a b Na Nb; [split; assumption|].
  cbn [fold_left]. destruct m; cbn [play_move].
  - pose proof (noticed_step w a Na) as N. destruct (step w a) as [w' a'].
    apply IH; assumption.
  - pose proof (noticed_step w b Nb) as N. destruct (step w b) as [w' b'].
    apply IH; assumption.
  - destruct (at_pc a); apply IH; auto using noticed_release.
  - destruct (at_pc b); apply IH; auto using noticed_release.
  - apply IH; assumption.
Qed.

(** X5.  The waiting notice is logged at most once for each call of
    [acquireBrowserLock], however long the wait and however the steps of
    two contenders, their releases and the passing of time interleave. *)
Theorem waiting_notice_once
  (ms : list move) (w : world) (a ta b tb : Z) :
  let s := play ms (w, acquire_start a ta w, acquire_start b tb w) in
  (waiting_lines (logged (snd (fst s))) <= 1)%nat
  /\ (waiting_lines (logged (snd s)) <= 1)%nat.
Proof.
  cbv zeta.
  destruct (noticed_play ms w (acquire_start a ta w) (acquire_start b tb w))
    as (A & B); try reflexivity.
  split; apply noticed_le; assumption.
Qed.

(** X6.  On a free path where files can be created and removed,
    acquiring and then releasing gives the host back as it was: the lock
    is held with the record of the process in between, the file is absent
    again afterwards and no time has passed, whatever the timeout; two
    steps of each call are enough. *)
Theorem acquire_release_round_trip
  (fa fr : nat) (w : world) (me timeout : Z) :
  file w = None -> create_fault w = None -> rm_denied w = false ->
  (2 <= fa)%nat -> (2 <= fr)%nat ->
  let h := acquireBrowserLock fa me timeout w in
  let r := release fr (fst h) (snd h) in
  at_pc (snd h) = Held
  /\ file (fst h) = Some (Json (Some (Int me)) (Some (Int (now w))))
  /\ fst r = w
  /\ at_pc (snd r) = Idle
  /\ logged (snd r) = [Released; Acquired].
Proof.
  intros Fw Cf Rm La Lr. cbv zeta.
  assert (A : acquireBrowserLock fa me timeout w
              = (set_file w (Some (Json (Some (Int me)) (Some (Int (now w))))),
                 goto (say (acquire_start me timeout w) Acquired) Held)).
  { unfold acquireBrowserLock. rewrite (run_more 2 fa); [| exact La |].
    - rewrite first_attempt by (assumption || reflexivity). reflexivity.
    - rewrite first_attempt by (assumption || reflexivity). reflexivity. }
  rewrite A. cbn [fst snd].
  assert (R : release fr (set_file w (Some (Json (Some (Int me)) (Some (Int (now w))))))
                      (goto (say (acquire_start me timeout w) Acquired) Held)
              = (w, Proc me Idle timeout (now w + timeout) (now w) false true
                         [Released; Acquired])).
  { unfold release. rewrite (run_more 2 fr); [| exact Lr |];
      destruct w as [f rn d cf t]; cbn [file create_fault rm_denied] in *;
      subst f cf d; cbn; rewrite Z.eqb_refl; cbn; reflexivity. }
  rewrite R. cbn. repeat split; reflexivity.
Qed.

Example acquire_release_round_trip_witness :
  let free := World None (fun _ => true) false None 5 in
  fst (release 2 (fst (acquireBrowserLock 2 101 0 free))
                 (snd (acquireBrowserLock 2 101 0 free))) = free.
Proof.
  cbv zeta.
  destruct (acquire_release_round_trip 2 2 (World None (fun _ => true) false None 5)
              101 0 eq_refl eq_refl eq_refl (le_n 2) (le_n 2)) as (_ & _ & R & _).
  exact R.
Defined.

(** X7.  A contender that arrives while a live holder has the lock
    waits one round; when the holder releases during that round, the
    contender acquires at its next attempt, 750 ms after it arrived: the
    file then holds the record of the contender, and its log is the
    waiting notice followed by the acquisition. *)
Theorem handover_after_release
  (w : world) (holder : proc) (me timeout : Z) :
  at_pc holder = Held -> released holder = false ->
  file w = Some (record_of holder) ->
  0 < self holder -> running w (self holder) = true ->
  rm_denied w = false -> create_fault w = None ->
  let s := play [StepB; StepB; StepB; ReleaseA; StepA; StepA; StepB; StepB]
                (w, holder, acquire_start me timeout w) in
  at_pc (snd (fst s)) = Idle
  /\ at_pc (snd s) = Held
  /\ file (fst (fst s)) = Some (Json (Some (Int me)) (Some (Int (now w))))
  /\ now (fst (fst s)) = now w + 750
  /\ logged (snd s) = [Acquired; Waiting (Int (self holder))].
Proof.
  destruct w as [f rn d cf t], holder as [hp l tm dl cr hl rl lg].
  cbn [at_pc released file self running rm_denied create_fault record_of created now].
  intros -> -> -> Hp Rh -> ->.
  assert (L : (hp <=? 0) = false) by (apply Z.leb_gt; lia).
  assert (Chk : (0 <? timeout) && (t + timeout <? t) = false).
  { destruct (0 <? timeout) eqn:P; [|reflexivity]. apply Z.ltb_lt in P.
    cbn. apply Z.ltb_ge. lia. }
  cbv zeta. unfold play, acquire_start. cbn. rewrite L. cbn. rewrite Rh. cbn.
  rewrite Chk. cbn. rewrite !Z.eqb_refl. cbn. rewrite !Z.eqb_refl. cbn.
  repeat split; reflexivity.
Qed.

Example handover_after_release_witness :
  let w := World (Some (Json (Some (Int 7)) (Some (Int 0)))) (fun _ => true) false None 40 in
  let holder := Proc 7 Held 0 0 0 false false [Acquired] in
  at_pc (snd (play [StepB; StepB; StepB; ReleaseA; StepA; StepA; StepB; StepB]
                   (w, holder, acquire_start 101 1000 w))) = Held.
Proof.
  cbv zeta.
  destruct (handover_after_release
              (World (Some (Json (Some (Int 7)) (Some (Int 0)))) (fun _ => true) false None 40)
              (Proc 7 Held 0 0 0 false false [Acquired]) 101 1000
              eq_refl eq_refl eq_refl eq_refl eq_refl eq_refl eq_refl) as (_ & H & _).
  exact H.
Defined.

End LockExtra.

(** ** More about session recovery *)

Module SessionExtra.
Import JS Remote Session Recovery RecoverySpec RunSpec RemoteFacts SessionFacts.
Local Open Scope js_scope.

Lemma take_while_split {A} (p : A -> bool) (l : list A) :
  exists post, l = (take_while p l ++ post)%list
    /\ forallb p (take_while p l) = true
    /\ match post with [] => True | c :: _ => p c = false end.
Proof.
  induction l as [|a l (post & E & F & N)]; [exists []; auto|].
  cbn [take_while]. destruct (p a) eqn:Pa.
  - exists post. cbn. rewrite Pa, F. rewrite <- E. auto.
  - exists (a :: l). auto.
Qed.

Lemma match_here_shape l id : match_here l = Some id -> id_at l id.
Proof.
  unfold match_here. destruct l as [|a [|b [|c r]]]; try discriminate.
  destruct ((code a =? 47)%nat) eqn:Ea; [|discriminate].
  destruct ((code c =? 47)%nat) eqn:Ec; [|discriminate].
  cbn [andb].
  destruct (((code b =? 99) || (code b =? 103))%nat)%bool eqn:Eb; [|discriminate].
  destruct (take_while_split is_id_char r) as (post & E & F & N).
  destruct (take_while is_id_char r) as [|x xs] eqn:T; [discriminate|].
  intros H; injection H as <-.
  apply Nat.eqb_eq in Ea, Ec. unfold code in *.
  assert (Ha : a = "/"%char)
    by (rewrite <- (ascii_nat_embedding a), Ea; reflexivity).
  assert (Hc : c = "/"%char)
    by (rewrite <- (ascii_nat_embedding c), Ec; reflexivity).
  exists b, post. subst a c. rewrite <- E. repeat split; auto; [|discriminate].
  apply orb_true_iff in Eb. destruct Eb as [Eb|Eb]; apply Nat.eqb_eq in Eb;
    [left|right]; rewrite <- (ascii_nat_embedding b), Eb; reflexivity.
Qed.

Lemma first_match_shape l : forall id,
  first_match l = Some id -> exists pre l', l = (pre ++ l')%list /\ id_at l' id.
Proof.
  induction l as [|a l IH]; intros id; cbn [first_match].
  - destruct (match_here []) eqn:E; [|discriminate]. discriminate E.
  - destruct (match_here (a :: l)) as [id'|] eqn:E.
    + intros H; injection H as <-. exists [], (a :: l). split; [reflexivity|].
      apply match_here_shape; exact E.
    + intros H. destruct (IH id H) as (pre & l' & -> & I).
      exists (a :: pre), l'. auto.
Qed.

Lemma includes_chars_app n pre l :
  prefix_chars n l = true -> includes_chars n (pre ++ l) = true.
Proof.
  intros P. induction pre as [|a pre IH].
  - destruct l; cbn; rewrite P; reflexivity.
  - cbn [app includes_chars]. rewrite IH. apply orb_true_r.
Qed.

(** X8.  An identifier that [extractConversationId] finds stands in the
    location after /c/ or /g/; it is not empty, consists of letters,
    digits and hyphens, and ends where the location ends or the next
    character is none of these.  A location with an identifier passes the
    test of [waitForConversationUrl] for a conversation URL. *)
Theorem extractConversationId_shape (url id : string) :
  extractConversationId url = Some id ->
  (exists pre l, chars url = (pre ++ l)%list /\ id_at l (chars id))
  /\ truthy_str id = true
  /\ has_conversation url = true.
Proof.
  intros E. pose proof (extract_truthy url id E) as T.
  unfold extractConversationId in E.
  destruct (first_match (chars url)) as [l|] eqn:F; [|discriminate].
  injection E as <-.
  destruct (first_match_shape _ _ F) as (pre & l' & Eu & I).
  split; [|split; [exact T|]].
  - exists pre, l'. unfold chars, str at 1.
    rewrite list_ascii_of_string_of_list_ascii. auto.
  - unfold has_conversation, includes. fold (chars url). rewrite Eu.
    destruct I as (r & post & -> & [->| ->] & _).
    + rewrite includes_chars_app; reflexivity.
    + rewrite (includes_chars_app (chars "/g/")); [apply orb_true_r|reflexivity].
Qed.

Example extractConversationId_shape_witness :
  truthy_str "abc-123" = true
  /\ has_conversation "https://chatgpt.com/c/abc-123?model=gpt-5" = true.
Proof.
  destruct (extractConversationId_shape
              "https://chatgpt.com/c/abc-123?model=gpt-5" "abc-123" eq_refl)
    as (_ & T & H).
  split; [exact T|exact H].
Defined.

Lemma take_while_app_stop {A} (p : A -> bool) l c rest :
  p c = false -> take_while p (l ++ c :: rest) = take_while p l.
Proof.
  intros N. induction l as [|a l IH]; cbn; [rewrite N; reflexivity|].
  destruct (p a); [f_equal; exact IH|reflexivity].
Qed.

Lemma match_here_app l c rest id :
  is_id_char c = false ->
  match_here l = Some id -> match_here (l ++ c :: rest) = Some id.
Proof.
  intros N. unfold match_here. destruct l as [|a [|b [|d r]]]; try discriminate.
  cbn [app]. destruct (_ && _)%bool; [|discriminate].
  rewrite take_while_app_stop by exact N. auto.
Qed.

Lemma first_match_short l id : first_match l = Some id -> (4 <= length l)%nat.
Proof.
  destruct l as [|a [|b [|c [|d r]]]]; cbn; try discriminate; [|intros _; lia].
  destruct (_ && _)%bool; discriminate.
Qed.

Lemma first_match_app c rest : is_id_char c = false ->
  forall l id, first_match l = Some id -> first_match (l ++ c :: rest) = Some id.
Proof.
  intros N. induction l as [|a l IH]; intros id.
  - intros H. apply first_match_short in H. cbn in H. lia.
  - cbn [first_match app]. destruct (match_here (a :: l)) as [id'|] eqn:E.
    + intros H; injection H as <-.
      change (a :: (l ++ c :: rest))%list with ((a :: l) ++ c :: rest)%list.
      rewrite (match_here_app _ _ _ _ N E). reflexivity.
    + intros H. pose proof (first_match_short _ _ H) as Len.
      rewrite (IH id H).
      replace (match_here (a :: (l ++ c :: rest))) with (@None (list ascii));
        [reflexivity|].
      revert E. unfold match_here.
      destruct l as [|b [|d [|x r]]]; cbn in Len; try lia. cbn [app].
      destruct (_ && _)%bool; [|reflexivity].
      cbn [take_while]. destruct (is_id_char x); [discriminate|reflexivity].
Qed.

Lemma chars_app a b : chars (a ++ b) = (chars a ++ chars b)%list.
Proof. induction a as [|c a IH]; cbn; [reflexivity|f_equal; exact IH]. Qed.

(** X9.  What follows a location does not change its identifier, when it
    starts with a character that cannot be part of one: a query, a
    fragment or a further path segment added to a conversation URL leaves
    the identifier as it is. *)
Theorem extractConversationId_suffix (url id : string) (c : ascii) (rest : string) :
  extractConversationId url = Some id -> is_id_char c = false ->
  extractConversationId (url ++ String c rest) = Some id.
Proof.
  unfold extractConversationId. intros E N.
  destruct (first_match (chars url)) as [l|] eqn:F; [|discriminate].
  rewrite chars_app. cbn [chars list_ascii_of_string].
  rewrite (first_match_app c _ N _ _ F). exact E.
Qed.

Example extractConversationId_suffix_witness :
  extractConversationId ("https://chatgpt.com/g/g-p1/c/77" ++ String "#"%char "top")
  = Some "g-p1".
Proof.
  apply (extractConversationId_suffix "https://chatgpt.com/g/g-p1/c/77" "g-p1");
    reflexivity.
Defined.

(** X10.  Saving, loading and recovering fit together: for the session
    that [loadSessionState] reads after [saveSessionState] wrote it,
    [navigateToSavedSession] answers true when the page comes back at the
    saved location, and also when it comes back at the saved conversation
    with a query, a fragment or a further segment added to the
    location. *)
Theorem saved_session_recovers
  (fuel : nat) (dir u prompt : string) (paths : option (list string))
  (w0 w w1 : world) (s : BrowserSession) (current : string) :
  fst (loadSessionState (snd (saveSessionState dir u prompt paths w0))) = Ok (Some s) ->
  navigate_and_wait fuel s w = (Ok tt, w1) ->
  res (on_href (script w) (calls w1)) = inr (Some current) ->
  (current = u
   \/ exists c rest, current = u ++ String c rest /\ is_id_char c = false
                     /\ extractConversationId u <> None) ->
  fst (navigateToSavedSession fuel s w) = Ok true.
Proof.
  intros L Nav Href Back. cbn in L. injection L as <-.
  set (s := Session u (now w0) (preview prompt) paths (extractConversationId u) dir) in *.
  assert (Wf : session_wf s) by reflexivity.
  pose proof (steady_navigate_and_wait fuel s w) as (Sc & _).
  rewrite Nav in Sc. cbn [snd] in Sc.
  unfold navigateToSavedSession, try_catch. unfold bind at 1. rewrite Nav.
  pose proof (check_location_decides s w1 Wf) as D. rewrite Sc, Href in D.
  destruct D as (w' & ->). cbn [fst]. f_equal.
  unfold recovered_by_spec. cbn [conversationId s url].
  destruct Back as [->|(c & rest & -> & N & Some_id)].
  - destruct (extractConversationId u) as [id|]; cbn [opt_eqb];
      apply String.eqb_refl.
  - destruct (extractConversationId u) as [id|] eqn:E; [|congruence].
    unfold extractConversationId in *.
    destruct (first_match (chars u)) as [l|] eqn:F; [|discriminate].
    rewrite chars_app. cbn [chars list_ascii_of_string].
    rewrite (first_match_app c _ N _ _ F). rewrite E. cbn [opt_eqb].
    apply String.eqb_refl.
Qed.

Import Scenario.

Example saved_session_recovers_witness :
  let u := "https://chatgpt.com/g/g-p1" in
  let s := Session u 0 "Hello" None (Some "g-p1") "/tmp/s" in
  fst (navigateToSavedSession 301 s (start (navigator (u ++ "/c/77")))) = Ok true.
Proof.
  cbv zeta.
  eapply (saved_session_recovers 301 "/tmp/s" "https://chatgpt.com/g/g-p1" "Hello" None
            (start (navigator "x"))).
  - reflexivity.
  - vm_compute. reflexivity.
  - reflexivity.
  - right. exists "/"%char, "c/77". repeat split. discriminate.
Defined.

(** The loop of [waitForConversationUrl]: with an iteration for every
    200 ms left to the deadline it ends, and in one of three ways. *)
Lemma url_loop_returns n : forall dl last w,
  dl - now w <= Z.of_nat n * 200 ->
  match url_loop (S n) dl last w with
  | (Ok r, w') => confirmed_twice (script w) (trace w') r
                  \/ fell_back (script w) dl (trace w') r
  | (Throw e, w') => href_failed (script w) (trace w') e
  | (Cut, _) => False
  end.
Proof.
  induction n as [|n IH]; intros dl last w Hd.
  - cbn [url_loop]. unfold bind at 1, date_now.
    destruct (now w <? dl) eqn:T; [apply Z.ltb_lt in T; lia|].
    apply Z.ltb_ge in T.
    unfold getCurrentConversationUrl, bind, invoke, log, record, ret.
    destruct (res (on_href (script w) (calls w))) as [e|r] eqn:R;
      cbn [trace script].
    + exists (calls w), (now w + Z.of_N (lat (on_href (script w) (calls w)))), (trace w).
      auto.
    + right. exists (calls w), (now w + Z.of_N (lat (on_href (script w) (calls w)))), (trace w).
      repeat split; [exact R|lia].
  - remember (S n) as m eqn:Em. cbn [url_loop]. unfold bind at 1, date_now.
    destruct (now w <? dl) eqn:T.
    + unfold getCurrentConversationUrl. unfold bind at 1. unfold invoke at 1.
      destruct (res (on_href (script w) (calls w))) as [e|[u|]] eqn:R1.
      * cbn [trace script]. eexists; eexists; eexists; split; [reflexivity|auto].
      * destruct (has_conversation u && negb (String.eqb u last)) eqn:C.
        -- apply andb_true_iff in C. destruct C as (Hc & _).
           unfold bind at 1. unfold log at 1. unfold bind at 1. unfold delay at 1.
           unfold bind at 1. unfold invoke at 1. unfold record.
           cbn [script now calls trace session_file].
           destruct (res (on_href (script w) (S (calls w)))) as [e|v] eqn:R2.
           ++ cbn [trace script]. eexists; eexists; eexists; split; [reflexivity|auto].
           ++ destruct (opt_eqb v (Some u)) eqn:V.
              ** unfold ret. cbn [trace script]. left.
                 destruct v as [v|]; [|discriminate V]. cbn in V.
                 apply String.eqb_eq in V. subst v.
                 exists u, (calls w),
                   (now w + Z.of_N (lat (on_href (script w) (calls w)))), (trace w).
                 repeat split; auto.
              ** unfold bind at 1. unfold delay at 1.
                 cbn [script now calls trace session_file].
                 match goal with |- context [url_loop m dl u ?w3] =>
                   specialize (IH dl u w3) end.
                 cbn [script now] in IH. subst m. apply IH. lia.
        -- unfold bind at 1. unfold delay at 1.
           cbn [script now calls trace session_file].
           match goal with |- context [url_loop m dl last ?w3] =>
             specialize (IH dl last w3) end.
           cbn [script now] in IH. subst m. apply IH. lia.
      * unfold throw. cbn [trace script].
        eexists; eexists; eexists; split; [reflexivity|auto].
    + apply Z.ltb_ge in T.
      unfold getCurrentConversationUrl, bind, invoke, log, record, ret.
      destruct (res (on_href (script w) (calls w))) as [e|r] eqn:R;
        cbn [trace script].
      * eexists; eexists; eexists; split; [reflexivity|auto].
      * right. exists (calls w), (now w + Z.of_N (lat (on_href (script w) (calls w)))), (trace w).
        repeat split; [exact R|lia].
Qed.

(** X11.  [waitForConversationUrl] ends, with an iteration for every
    200 ms of its timeout.  It returns early only with a location that
    carries a conversation marker and that two readings in a row, 500 ms
    apart, both gave; otherwise it returns what one more reading after
    the deadline gives, logged as the fallback.  It throws only when a
    reading of the location is rejected or has no value. *)
Theorem waitForConversationUrl_returns (n : nat) (timeoutMs : Z) (w : world) :
  timeoutMs <= Z.of_nat n * 200 ->
  match waitForConversationUrl (S n) timeoutMs w with
  | (Ok r, w') => confirmed_twice (script w) (trace w') r
                  \/ fell_back (script w) (now w + timeoutMs) (trace w') r
  | (Throw e, w') => href_failed (script w) (trace w') e
  | (Cut, _) => False
  end.
Proof.
  intros Hn. unfold waitForConversationUrl, bind, date_now.
  apply url_loop_returns. lia.
Qed.

Example waitForConversationUrl_returns_witness :
  let w := start (navigator "https://chatgpt.com/c/abc123") in
  10000 <= Z.of_nat 50 * 200
  /\ match waitForConversationUrl 51 10000 w with
     | (Ok r, w') => confirmed_twice (script w) (trace w') r
                     \/ fell_back (script w) (now w + 10000) (trace w') r
     | (Throw e, w') => href_failed (script w) (trace w') e
     | (Cut, _) => False
     end.
Proof.
  cbv zeta. assert (L : 10000 <= Z.of_nat 50 * 200) by (vm_compute; discriminate).
  split; [exact L|].
  exact (waitForConversationUrl_returns 50 10000
           (start (navigator "https://chatgpt.com/c/abc123")) L).
Defined.

(** Once the loop remembers a location as seen, and every reading
    answers that location, the loop runs to its deadline. *)
Lemma seen_url_waits u n : forall dl w,
  settles_on (script w) (calls w) u ->
  dl - now w <= Z.of_nat n * 200 ->
  exists w', url_loop (S n) dl u w = (Ok (Some u), w')
             /\ dl <= now w'
             /\ exists rest, trace w' = Logged (fallback (Some u)) :: rest.
Proof.
  induction n as [|n IH]; intros dl w St Hd.
  - cbn [url_loop]. unfold bind at 1, date_now.
    destruct (now w <? dl) eqn:T; [apply Z.ltb_lt in T; lia|].
    apply Z.ltb_ge in T.
    unfold getCurrentConversationUrl, bind, invoke, log, record, ret.
    rewrite (St (calls w) (le_n _)). eexists. split; [reflexivity|].
    cbn [now trace]. split; [lia|eauto].
  - remember (S n) as m eqn:Em. cbn [url_loop]. unfold bind at 1, date_now.
    destruct (now w <? dl) eqn:T.
    + unfold getCurrentConversationUrl. unfold bind at 1. unfold invoke at 1.
      rewrite (St (calls w) (le_n _)).
      rewrite String.eqb_refl, andb_false_r.
      unfold bind at 1. unfold delay at 1.
      cbn [script now calls trace session_file].
      match goal with |- context [url_loop m dl u ?w3] =>
        specialize (IH dl w3) end.
      cbn [script now calls] in IH. subst m. apply IH; [|lia].
      intros j Hj. apply St. lia.
    + apply Z.ltb_ge in T.
      unfold getCurrentConversationUrl, bind, invoke, log, record, ret.
      rewrite (St (calls w) (le_n _)). eexists. split; [reflexivity|].
      cbn [now trace]. split; [lia|eauto].
Qed.

(** X12.  A location is confirmed only the first time it is seen.  When
    the first two readings agree on a conversation URL, it is returned
    after those two readings.  When the second reading differs once and
    every later reading gives the conversation URL again, the loop never
    confirms it: it runs to the deadline and returns the URL as the
    fallback. *)
Theorem flicker_costs_the_timeout
  (n : nat) (timeoutMs : Z) (w : world) (u : string) (v : option string) :
  0 < timeoutMs -> timeoutMs <= Z.of_nat n * 200 ->
  has_conversation u = true ->
  res (on_href (script w) (calls w)) = inr (Some u) ->
  res (on_href (script w) (S (calls w))) = inr v ->
  settles_on (script w) (S (S (calls w))) u ->
  let r := waitForConversationUrl (S (S n)) timeoutMs w in
  fst r = Ok (Some u)
  /\ (v = Some u ->
      now (snd r) = now w + Z.of_N (lat (on_href (script w) (calls w))) + 500
                    + Z.of_N (lat (on_href (script w) (S (calls w)))))
  /\ (v <> Some u ->
      now w + timeoutMs <= now (snd r)
      /\ exists rest, trace (snd r) = Logged (fallback (Some u)) :: rest).
Proof.
  intros Pos Hn Hc R1 R2 St. cbv zeta.
  assert (Ne : String.eqb u EmptyString = false).
  { destruct u; [discriminate Hc|reflexivity]. }
  destruct (waitForConversationUrl (S (S n)) timeoutMs w) as [o w'] eqn:E.
  cbn [fst snd]. revert E.
  unfold waitForConversationUrl. unfold bind at 1, date_now.
  remember (S n) as m eqn:Em. cbn [url_loop]. unfold bind at 1, date_now.
  replace (now w <? now w + timeoutMs) with true by (symmetry; apply Z.ltb_lt; lia).
  unfold getCurrentConversationUrl. unfold bind at 1. unfold invoke at 1.
  rewrite R1, Hc, Ne. cbn [andb negb].
  unfold bind at 1. unfold log at 1. unfold bind at 1. unfold delay at 1.
  unfold bind at 1. unfold invoke at 1. unfold record.
  cbn [script now calls trace session_file]. rewrite R2.
  destruct (opt_eqb v (Some u)) eqn:V.
  - assert (v = Some u) as ->.
    { destruct v as [v|]; [|discriminate V]. cbn in V.
      apply String.eqb_eq in V. congruence. }
    unfold ret. intros E; injection E as <- <-. cbn [now].
    split; [reflexivity|]. split; [intros _; lia|congruence].
  - unfold bind at 1. unfold delay at 1. cbn [script now calls trace session_file].
    match goal with |- context [url_loop m ?dl u ?w3] =>
      destruct (seen_url_waits u n dl w3) as (w2 & E2 & Late & Tr) end.
    + exact St.
    + cbn [now]. lia.
    + subst m. rewrite E2. intros E; injection E as <- <-.
      split; [reflexivity|].
      split; [|intros _; split; [exact Late|exact Tr]].
      intros ->. cbn in V. rewrite String.eqb_refl in V. discriminate V.
Qed.

Example flicker_costs_the_timeout_witness :
  let u := "https://chatgpt.com/c/abc123" in
  let page := {| on_probe := unscripted; on_sample := unscripted;
                 on_selection := unscripted; on_readyState := unscripted;
                 on_href := fun k => at_once (Some (if (k =? 1)%nat then chat else u));
                 on_getDocument := unscripted; on_querySelector := unscripted;
                 on_setFileInputFiles := unscripted; on_navigate := unscripted |} in
  10000 <= now (snd (waitForConversationUrl 52 10000 (start page))).
Proof.
  cbv zeta.
  match goal with |- _ <= now (snd (waitForConversationUrl _ _ (start ?pg))) =>
    destruct (flicker_costs_the_timeout 50 10000 (start pg)
                "https://chatgpt.com/c/abc123" (Some chat)) as (_ & _ & L)
  end; try reflexivity.
  - intros j Hj. cbn [start script calls on_href].
    destruct j as [|[|j]]; [lia|lia|reflexivity].
  - apply L. discriminate.
Defined.

End SessionExtra.

(** ** The index of stored responses *)

Module StoreFacts.
Import ResponseStore.

(** The list [storeResponseId] writes. *)
Lemma store_writes rid m p st d :
  index d <> NotArray -> write_fault d = None ->
  storeResponseId rid m p st d
  = (Done tt,
     Disk (Index (firstn 100 (Stored rid m (substring 0 100 p) (clock d) st
                              :: match index d with Index l => l | _ => [] end)))
          (clock d) None).
Proof.
  intros Na Wf. unfold storeResponseId, write_index. rewrite Wf.
  set (e := Stored rid m (substring 0 100 p) (clock d) st).
  assert (F : forall l, (if (100 <? length (e :: l))%nat then firstn 100 (e :: l)
                         else e :: l) = firstn 100 (e :: l)).
  { intros l. destruct (100 <? length (e :: l))%nat eqn:L; [reflexivity|].
    apply Nat.ltb_ge in L. symmetry. apply firstn_all2. exact L. }
  destruct (index d) as [| |l]; [|congruence|]; rewrite F; reflexivity.
Qed.

Lemma substring_length n : forall s, (String.length (substring 0 n s) <= n)%nat.
Proof.
  induction n as [|n IH]; intros [|c s]; cbn; try lia. specialize (IH s). lia.
Qed.

Lemma substring_prefix n : forall s, String.prefix (substring 0 n s) s = true.
Proof.
  induction n as [|n IH]; intros [|c s]; cbn; try reflexivity.
  destruct (ascii_dec c c); [apply IH|congruence].
Qed.

(** X13.  Storing a response and asking for it gives it back: the
    newest entry is found first, also when an older entry carries the
    same identifier; it holds the first hundred characters of the prompt
    at most, and the index never holds more than a hundred entries,
    however long it was before.  A missing or broken index file counts as
    empty. *)
Theorem store_then_get (rid m p : string) (st : option string) (d : disk) :
  index d <> NotArray -> write_fault d = None ->
  let d' := snd (storeResponseId rid m p st d) in
  fst (storeResponseId rid m p st d) = Done tt
  /\ (exists r, getResponseById rid d' = Done (Some r)
        /\ id r = rid /\ model r = m /\ status r = st /\ timestamp r = clock d
        /\ String.prefix (prompt r) p = true
        /\ (String.length (prompt r) <= 100)%nat)
  /\ (exists l, index d' = Index l /\ (1 <= length l <= 100)%nat)
  /\ (index d = Unreadable -> exists r, index d' = Index [r]).
Proof.
  intros Na Wf. cbv zeta. rewrite (store_writes rid m p st d Na Wf).
  cbn [fst snd]. split; [reflexivity|]. split; [|split].
  - eexists. unfold getResponseById, getStoredResponses. cbn [index firstn find].
    unfold has_id at 1. cbn [id]. rewrite String.eqb_refl.
    split; [reflexivity|]. cbn. repeat split; auto using substring_prefix, substring_length.
  - eexists. split; [reflexivity|]. rewrite length_firstn. cbn [length]. lia.
  - intros U. rewrite U. eexists. reflexivity.
Qed.

Example store_then_get_witness :
  let d := Disk Unreadable 5 None in
  fst (storeResponseId "resp_1" "gpt-5" "Hello" None d) = Done tt.
Proof.
  cbv zeta.
  destruct (store_then_get "resp_1" "gpt-5" "Hello" None (Disk Unreadable 5 None))
    as (H & _); [discriminate|reflexivity|exact H].
Defined.

Lemma find_skip (rid : string) (A B : list StoredResponse) :
  Forall (fun r => id r <> rid) A ->
  find (has_id rid) (A ++ B) = find (has_id rid) B.
Proof.
  induction 1 as [|r A Hr _ IH]; [reflexivity|]. cbn [app find].
  unfold has_id at 1. destruct (String.eqb_spec (id r) rid); [contradiction|exact IH].
Qed.

Lemma find_absent (rid : string) (A : list StoredResponse) :
  Forall (fun r => id r <> rid) A -> find (has_id rid) A = None.
Proof.
  intros H. rewrite <- (app_nil_r A). rewrite find_skip by exact H. reflexivity.
Qed.

(** The index after a sequence of stores: the entries of the calls,
    newest first, before what was there, cut to a hundred. *)
Lemma store_all_writes later : forall d l,
  index d = Index l -> write_fault d = None -> later <> [] ->
  store_all later d
  = Disk (Index (firstn 100
                   (rev (map (fun c => Stored (s_id c) (s_model c)
                                         (substring 0 100 (s_prompt c))
                                         (clock d) (s_status c)) later)
                    ++ l)))
         (clock d) None.
Proof.
  induction later as [|c later IH]; intros d l Ix Wf Ne; [congruence|].
  cbn [store_all]. rewrite store_writes by (assumption || congruence).
  rewrite Ix. cbn [snd]. destruct later as [|c' later'].
  - reflexivity.
  - erewrite IH; [|reflexivity|reflexivity|discriminate]. cbn [clock]. f_equal. f_equal.
    set (f := fun c0 => Stored (s_id c0) (s_model c0) (substring 0 100 (s_prompt c0))
                          (clock d) (s_status c0)).
    change (map f (c :: c' :: later')) with (f c :: map f (c' :: later')).
    cbn [rev]. rewrite <- !app_assoc. cbn [app].
    set (E := rev (map f (c' :: later'))).
    fold (f c).
    destruct (Nat.le_gt_cases 100 (length E)) as [Long|Short].
    + rewrite !firstn_app.
      replace (100 - length E)%nat with 0%nat by lia. reflexivity.
    + rewrite !firstn_app. f_equal.
      destruct (100 - length E)%nat as [|n] eqn:En; [lia|].
      rewrite firstn_firstn. f_equal. lia.
Qed.

(** X14.  A stored response can be asked for until a hundred further
    responses have been stored: after fewer than a hundred further
    stores under other identifiers it is still found, and after a
    hundred or more it is gone from the index, together with every older
    entry. *)
Theorem stored_response_retention
  (rid m p : string) (st : option string) (later : list store_call) (d : disk) :
  index d <> NotArray -> write_fault d = None ->
  Forall (fun c => s_id c <> rid) later ->
  let d1 := snd (storeResponseId rid m p st d) in
  getResponseById rid (store_all later d1)
  = if (length later <? 100)%nat
    then Done (Some (Stored rid m (substring 0 100 p) (clock d) st))
    else Done None.
Proof.
  intros Na Wf Other. cbv zeta. rewrite (store_writes rid m p st d Na Wf).
  cbn [snd]. set (e := Stored rid m (substring 0 100 p) (clock d) st).
  destruct later as [|c later'] eqn:El.
  - cbn [store_all length]. unfold getResponseById, getStoredResponses.
    cbn [index firstn find Nat.ltb Nat.leb]. unfold has_id at 1. subst e. cbn [id].
    rewrite String.eqb_refl. reflexivity.
  - rewrite <- El in *.
    erewrite store_all_writes; [|reflexivity|reflexivity|subst later; discriminate].
    cbn [clock]. unfold getResponseById, getStoredResponses. cbn [index].
    set (f := fun c0 => Stored (s_id c0) (s_model c0) (substring 0 100 (s_prompt c0))
                          (clock d) (s_status c0)).
    set (E := rev (map f later)).
    assert (LE : length E = length later)
      by (subst E; rewrite length_rev, length_map; reflexivity).
    assert (FE : Forall (fun r => id r <> rid) E).
    { subst E. apply Forall_rev. apply Forall_map.
      eapply Forall_impl; [|exact Other]. intros c0 H. exact H. }
    rewrite firstn_app, LE.
    destruct (length later <? 100)%nat eqn:Lt.
    + apply Nat.ltb_lt in Lt. rewrite firstn_all2 by lia.
      rewrite find_skip by exact FE.
      destruct (100 - length later)%nat as [|n] eqn:En; [lia|].
      cbn [firstn find]. unfold has_id at 1. subst e. cbn [id].
      rewrite String.eqb_refl. reflexivity.
    + apply Nat.ltb_ge in Lt. replace (100 - length later)%nat with 0%nat by lia.
      cbn [firstn]. rewrite app_nil_r. rewrite find_absent; [reflexivity|].
      rewrite <- (firstn_skipn 100 E) in FE. apply Forall_app in FE. apply FE.
Qed.

Example stored_response_retention_witness :
  getResponseById "resp_1"
    (store_all [Store "resp_2" "gpt-5" "Second" None]
       (snd (storeResponseId "resp_1" "gpt-5" "First" None (Disk Unreadable 5 None))))
  = Done (Some (Stored "resp_1" "gpt-5" "First" 5 None)).
Proof.
  apply (stored_response_retention "resp_1" "gpt-5" "First" None
           [Store "resp_2" "gpt-5" "Second" None] (Disk Unreadable 5 None)).
  - discriminate.
  - reflexivity.
  - repeat constructor. discriminate.
Defined.

Lemma set_status_none rid st l :
  find (has_id rid) l = None -> set_status rid st l = None.
Proof.
  induction l as [|r l IH]; [reflexivity|]. cbn [find set_status].
  destruct (has_id rid r); [discriminate|]. intros H. rewrite (IH H). reflexivity.
Qed.

Lemma set_status_some rid st l : forall r,
  find (has_id rid) l = Some r ->
  exists pre post,
    l = (pre ++ r :: post)%list
    /\ Forall (fun x => id x <> rid) pre
    /\ id r = rid
    /\ set_status rid st l
       = Some (pre ++ Stored (id r) (model r) (prompt r) (timestamp r) (Some st)
                      :: post)%list.
Proof.
  induction l as [|x l IH]; intros r; [discriminate|]. cbn [find set_status].
  destruct (has_id rid x) eqn:Hx.
  - intros H; injection H as <-. exists [], l. repeat split; auto.
    apply String.eqb_eq. exact Hx.
  - intros H. destruct (IH r H) as (pre & post & -> & F & Ir & ->).
    exists (x :: pre), post. repeat split; auto. constructor; [|exact F].
    intros E. unfold has_id in Hx. rewrite E, String.eqb_refl in Hx. discriminate.
Qed.

(** X15.  [updateResponseStatus] changes the status of the first entry
    with the identifier, and of no other entry: the entries before and
    after it, older entries with the same identifier among them, stay as
    they are, and asking for the identifier gives the new status.  For an
    identifier that is not in the index nothing is written, so the call
    succeeds even where writing would fail. *)
Theorem updateResponseStatus_first_entry
  (rid st : string) (d : disk) (l : list StoredResponse) :
  index d = Index l ->
  (find (has_id rid) l = None -> updateResponseStatus rid st d = (Done tt, d))
  /\ (forall r, find (has_id rid) l = Some r -> write_fault d = None ->
        exists pre post,
          l = (pre ++ r :: post)%list
          /\ Forall (fun x => id x <> rid) pre
          /\ let r' := Stored (id r) (model r) (prompt r) (timestamp r) (Some st) in
             updateResponseStatus rid st d
             = (Done tt, Disk (Index (pre ++ r' :: post)) (clock d) None)
             /\ getResponseById rid (snd (updateResponseStatus rid st d))
                = Done (Some r')).
Proof.
  intros Ix. unfold updateResponseStatus, getStoredResponses. rewrite Ix. split.
  - intros H. rewrite (set_status_none _ _ _ H). reflexivity.
  - intros r H Wf. destruct (set_status_some rid st l r H) as (pre & post & E & F & Ir & S).
    exists pre, post. split; [exact E|]. split; [exact F|]. cbv zeta.
    rewrite S. unfold write_index. rewrite Wf. split; [reflexivity|].
    cbn [snd]. unfold getResponseById, getStoredResponses. cbn [index].
    rewrite find_skip by exact F. cbn [find]. unfold has_id at 1. cbn [id].
    rewrite Ir, String.eqb_refl. reflexivity.
Qed.

Example updateResponseStatus_first_entry_witness :
  let newer := Stored "resp_1" "gpt-5" "again" 9 None in
  let older := Stored "resp_1" "gpt-5" "first" 5 (Some "queued") in
  getResponseById "resp_1"
    (snd (updateResponseStatus "resp_1" "completed"
            (Disk (Index [newer; older]) 10 None)))
  = Done (Some (Stored "resp_1" "gpt-5" "again" 9 (Some "completed"))).
Proof.
  cbv zeta.
  destruct (updateResponseStatus_first_entry "resp_1" "completed"
              (Disk (Index [Stored "resp_1" "gpt-5" "again" 9 None;
                            Stored "resp_1" "gpt-5" "first" 5 (Some "queued")]) 10 None)
              _ eq_refl) as (_ & U).
  destruct (U _ eq_refl eq_refl) as (pre & post & _ & _ & _ & G).
  exact G.
Defined.

End StoreFacts.

(** ** More about the attachment waits *)

Module AttachExtra.
Import JS Remote Session Attachments RunSpec RemoteFacts SessionFacts WaitFacts.
Import UploadFacts.
Local Open Scope js_scope.

(** The loop of [waitForAttachmentSelection], with an iteration for
    every 150 ms left to its deadline. *)
Lemma selection_loop_returns n : forall name dl w,
  dl - now w <= Z.of_nat n * 150 ->
  match selection_loop (S n) name dl w with
  | (Ok b, w') =>
      if b then
        exists k t rest,
          trace w' = Called (CSelection name) k t :: rest
          /\ res (on_selection (script w) k) = inr true
          /\ t - Z.of_N (lat (on_selection (script w) k)) < dl
      else dl <= now w' /\ (dl <= now w -> w' = w)
  | (Throw e, w') =>
      exists k t rest,
        trace w' = Called (CSelection name) k t :: rest
        /\ res (on_selection (script w) k) = inl e
  | (Cut, _) => False
  end.
Proof.
  induction n as [|n IH]; intros name dl w Hd.
  - cbn [selection_loop]. unfold bind at 1, date_now.
    destruct (now w <? dl) eqn:T; [apply Z.ltb_lt in T; lia|].
    apply Z.ltb_ge in T. unfold ret. split; [exact T|reflexivity].
  - remember (S n) as m eqn:Em. cbn [selection_loop]. unfold bind at 1, date_now.
    destruct (now w <? dl) eqn:T.
    + apply Z.ltb_lt in T. unfold bind at 1. unfold invoke at 1.
      destruct (res (on_selection (script w) (calls w))) as [e|[|]] eqn:R.
      * cbn [trace script]. eexists; eexists; eexists; split; [reflexivity|exact R].
      * unfold ret. cbn [trace script].
        eexists; eexists; eexists; split; [reflexivity|]. split; [exact R|lia].
      * unfold bind at 1. unfold delay at 1. cbn [script now calls trace session_file].
        match goal with |- context [selection_loop m name dl ?w3] =>
          specialize (IH name dl w3) end.
        cbn [script now] in IH. subst m.
        match type of IH with ?P -> _ => assert (Hp : P) by lia end.
        specialize (IH Hp).
        match goal with |- context [selection_loop (S n) name dl ?w3] =>
          destruct (selection_loop (S n) name dl w3) as [[[|]|e|] w'] end;
          try exact IH.
        split; [apply IH|]. intros Late. lia.
    + apply Z.ltb_ge in T. unfold ret. split; [exact T|reflexivity].
Qed.

(** X16.  [waitForAttachmentSelection] ends, with an iteration for
    every 150 ms of its timeout.  It answers true only when its last
    check of the file input, started before the deadline, found the file;
    it answers false only after the deadline, and without any check when
    the timeout is not positive; it throws only what a check is rejected
    with. *)
Theorem waitForAttachmentSelection_returns
  (n : nat) (expectedName : string) (timeoutMs : Z) (w : world) :
  timeoutMs <= Z.of_nat n * 150 ->
  match waitForAttachmentSelection (S n) expectedName timeoutMs w with
  | (Ok b, w') =>
      if b then
        exists k t rest,
          trace w' = Called (CSelection expectedName) k t :: rest
          /\ res (on_selection (script w) k) = inr true
          /\ t - Z.of_N (lat (on_selection (script w) k)) < now w + timeoutMs
      else now w + timeoutMs <= now w' /\ (timeoutMs <= 0 -> w' = w)
  | (Throw e, w') =>
      exists k t rest,
        trace w' = Called (CSelection expectedName) k t :: rest
        /\ res (on_selection (script w) k) = inl e
  | (Cut, _) => False
  end.
Proof.
  intros Hn. unfold waitForAttachmentSelection, bind, date_now.
  pose proof (selection_loop_returns n expectedName (now w + timeoutMs) w
                ltac:(lia)) as H.
  destruct (selection_loop (S n) expectedName (now w + timeoutMs) w)
    as [[[|]|e|] w']; try exact H.
  split; [apply H|]. intros Np. apply H. lia.
Qed.

Import Scenario.

Example waitForAttachmentSelection_returns_witness :
  let w := start (uploader 7 refused false) in
  10000 <= Z.of_nat 67 * 150
  /\ match waitForAttachmentSelection 68 "report.pdf" 10000 w with
     | (Ok b, w') =>
         if b then
           exists k t rest,
             trace w' = Called (CSelection "report.pdf") k t :: rest
             /\ res (on_selection (script w) k) = inr true
             /\ t - Z.of_N (lat (on_selection (script w) k)) < now w + 10000
         else now w + 10000 <= now w' /\ (10000 <= 0 -> w' = w)
     | (Throw e, w') =>
         exists k t rest,
           trace w' = Called (CSelection "report.pdf") k t :: rest
           /\ res (on_selection (script w) k) = inl e
     | (Cut, _) => False
     end.
Proof.
  cbv zeta. assert (L : 10000 <= Z.of_nat 67 * 150) by (vm_compute; discriminate).
  split; [exact L|].
  exact (waitForAttachmentSelection_returns 67 "report.pdf" 10000
           (start (uploader 7 refused false)) L).
Defined.










Import UploadSpec.

Lemma steady_locate root sels : steady_run (locate root sels).
Proof. induction sels as [|sel sels IH]; cbn [locate]; steady_tac. Qed.

(** The search for a file input ends with a node or without one, or is
    rejected at its last query. *)
Lemma locate_ends root sels : forall w,
  match locate root sels w with
  | (Ok _, _) => True
  | (Throw e, w') => dom_rejected (script w) (trace w') e
  | (Cut, _) => False
  end.
Proof.
  induction sels as [|sel sels IH]; intros w; [exact I|].
  cbn [locate]. unfold bind at 1. unfold invoke at 1.
  destruct (res (on_querySelector (script w) (calls w))) as [e|nodeId] eqn:R.
  - cbn [script trace]. eexists; eexists; eexists; eexists.
    split; [reflexivity|]. right. split; [eauto|exact R].
  - destruct (negb (nodeId =? 0)); [exact I|].
    match goal with |- context [locate root sels ?w0] => specialize (IH w0) end.
    exact IH.
Qed.

(** One attempt: it leaves no error only when the file was registered;
    it throws only what the fetch of the document or a query is rejected
    with. *)
Lemma attempt_body_ends fuel att k w :
  (68 <= fuel)%nat ->
  match attempt_body fuel att k w with
  | (Ok (None, Break), w') => registered (script w) (basename (path att)) (trace w')
  | (Ok (None, Next), _) => False
  | (Ok (Some _, _), _) => True
  | (Throw e, w') => dom_rejected (script w) (trace w') e
  | (Cut, _) => False
  end.
Proof.
  intros Hf. destruct fuel as [|f]; [lia|].
  unfold attempt_body. unfold bind at 1. unfold invoke at 1.
  destruct (res (on_getDocument (script w) (calls w))) as [e|root] eqn:R.
  { cbn [script trace]. eexists; eexists; eexists; eexists.
    split; [reflexivity|]. left. auto. }
  unfold bind at 1.
  match goal with |- context [locate root ?sels ?w0] =>
    pose proof (locate_ends root sels w0) as L;
    pose proof (steady_locate root sels w0) as (Sl & _);
    destruct (locate root sels w0) as [[[node|]|e|] w1] end;
    cbn [script snd] in L, Sl; try exact L.
  unfold try_catch. unfold bind at 1. unfold invoke at 1.
  destruct (res (on_setFileInputFiles (script w1) (calls w1))) as [e|[]].
  { destruct (is_stale e && (k <? maxAttempts)); unfold bind, log, ret; exact I. }
  unfold bind at 1. unfold waitForAttachmentSelection. unfold bind at 1, date_now.
  cbn [script now calls trace session_file].
  match goal with |- context [selection_loop (S f) ?name ?dl ?w2] =>
    pose proof (selection_loop_returns f name dl w2) as Sel;
    cbn [now script] in Sel;
    match type of Sel with ?P -> _ => assert (Hp : P) by lia end;
    specialize (Sel Hp);
    destruct (selection_loop (S f) name dl w2) as [[[|]|e|] w3] end.
  - unfold ret. destruct Sel as (k0 & t & rest & Tr & Rs & _).
    exists k0, t, rest. split; [exact Tr|]. rewrite <- Sl. exact Rs.
  - exact I.
  - destruct (is_stale e && (k <? maxAttempts)); unfold bind, log, ret; exact I.
  - contradiction.
Qed.

Lemma steady_selection_loop fuel name : forall dl,
  steady_run (selection_loop fuel name dl).
Proof.
  induction fuel as [|fuel IH]; intros dl; cbn [selection_loop]; steady_tac.
Qed.

Lemma steady_attempt_body fuel att k : steady_run (attempt_body fuel att k).
Proof.
  unfold attempt_body, waitForAttachmentSelection. steady_tac;
    auto using steady_locate, steady_selection_loop.
Qed.

(** The attempts: they leave no error only when the file was
    registered. *)
Lemma upload_attempts_ends att : forall fuel k last w,
  1 <= k -> (68 + Z.to_nat (4 - k) <= fuel)%nat -> last <> None \/ k <= maxAttempts ->
  match upload_attempts fuel att k last w with
  | (Ok None, w') => registered (script w) (basename (path att)) (trace w')
  | (Ok (Some _), _) => True
  | (Throw e, w') => dom_rejected (script w) (trace w') e
  | (Cut, _) => False
  end.
Proof.
  unfold maxAttempts.
  induction fuel as [|fuel IH]; intros k last w Hk Hf Hl; [lia|].
  cbn [upload_attempts]. unfold maxAttempts.
  destruct (k <=? 3) eqn:K.
  - apply Z.leb_le in K. unfold bind at 1.
    pose proof (attempt_body_ends fuel att k w ltac:(lia)) as A.
    pose proof (steady_attempt_body fuel att k w) as (Sc & _).
    destruct (attempt_body fuel att k w) as [[[[e|] [|]]|e|] w1];
      cbn [snd] in Sc; try exact A; try exact I; try contradiction.
    unfold bind at 1.
    assert (N : forall w2, script w2 = script w ->
              match upload_attempts fuel att (k + 1) (Some e) w2 with
              | (Ok None, w') => registered (script w) (basename (path att)) (trace w')
              | (Ok (Some _), _) => True
              | (Throw e, w') => dom_rejected (script w) (trace w') e
              | (Cut, _) => False
              end).
    { intros w2 <-. apply IH; [lia| |left; discriminate].
      replace (Z.to_nat (4 - k)) with (S (Z.to_nat (4 - (k + 1)))) in Hf by lia. lia. }
    destruct (k <? 3); cbn [when]; [unfold delay at 1|unfold ret at 1]; apply N;
      cbn [script]; exact Sc.
  - apply Z.leb_gt in K. unfold ret. destruct Hl as [Hl|Hl]; [|lia].
    destruct last; [exact I|congruence].
Qed.

(** How a wait for the registration ends when it does not find the
    file: it gives up after the sleep that follows a check that did not
    list the file, or a check is rejected. *)
Lemma selection_loop_trace fuel : forall name dl w,
  match selection_loop fuel name dl w with
  | (Ok false, w') =>
      w' = w
      \/ exists k t rest,
           trace w' = Slept 150 :: Called (CSelection name) k t :: rest
           /\ res (on_selection (script w) k) = inr false
  | (Throw e, w') =>
      exists k t rest,
        trace w' = Called (CSelection name) k t :: rest
        /\ res (on_selection (script w) k) = inl e
  | _ => True
  end.
Proof.
  induction fuel as [|fuel IH]; intros name dl w; [exact I|].
  cbn [selection_loop]. unfold bind at 1, date_now.
  destruct (now w <? dl); [|unfold ret; auto].
  unfold bind at 1. unfold invoke at 1.
  destruct (res (on_selection (script w) (calls w))) as [e|[|]] eqn:R.
  - cbn [trace script]. eexists; eexists; eexists. split; [reflexivity|exact R].
  - exact I.
  - unfold bind at 1. unfold delay at 1. cbn [script now calls trace session_file].
    match goal with |- context [selection_loop fuel name dl ?w3] =>
      specialize (IH name dl w3);
      destruct (selection_loop fuel name dl w3) as [[[|]|e|] w'] end;
      cbn [script] in IH; try exact I; try exact IH.
    right. destruct IH as [->|IH]; [|exact IH].
    cbn [trace]. eexists; eexists; eexists. split; [reflexivity|exact R].
Qed.

Lemma waitForAttachmentSelection_trace fuel name w :
  match waitForAttachmentSelection fuel name 10000 w with
  | (Ok false, w') =>
      exists k t rest,
        trace w' = Slept 150 :: Called (CSelection name) k t :: rest
        /\ res (on_selection (script w) k) = inr false
  | (Throw e, w') =>
      exists k t rest,
        trace w' = Called (CSelection name) k t :: rest
        /\ res (on_selection (script w) k) = inl e
  | _ => True
  end.
Proof.
  unfold waitForAttachmentSelection, bind, date_now.
  pose proof (selection_loop_trace fuel name (now w + 10000) w) as H.
  destruct (selection_loop fuel name (now w + 10000) w) as [[[|]|e|] w'] eqn:E;
    try exact I; try exact H.
  destruct H as [->|H]; [|exact H].
  exfalso. destruct fuel as [|fuel]; [discriminate E|].
  revert E. cbn [selection_loop]. unfold bind at 1, date_now.
  replace (now w <? now w + 10000) with true by (symmetry; apply Z.ltb_lt; lia).
  unfold bind at 1. unfold invoke at 1.
  destruct (res (on_selection (script w) (calls w))) as [e|[|]]; try discriminate.
  unfold bind at 1. unfold delay at 1.
  match goal with |- context [selection_loop fuel name ?dl ?w3] =>
    pose proof (steady_selection_loop fuel name dl w3) as (_ & _ & C) end.
  intros E. rewrite E in C. cbn [snd calls] in C. lia.
Qed.

(** A search that finds no file input has asked for the second selector
    last, and found nothing. *)
Lemma locate_finds_nothing root w w' :
  locate root [FILE_INPUT_SELECTOR; GENERIC_FILE_INPUT_SELECTOR] w = (Ok None, w') ->
  exists k t rest,
    trace w' = Called (CQuerySelector root GENERIC_FILE_INPUT_SELECTOR) k t :: rest
    /\ res (on_querySelector (script w) k) = inr 0.
Proof.
  cbn [locate]. unfold bind at 1. unfold invoke at 1.
  destruct (res (on_querySelector (script w) (calls w))) as [e|n1]; [discriminate|].
  destruct (negb (n1 =? 0)); [discriminate|].
  unfold bind at 1. unfold invoke at 1. cbn [script calls now trace session_file].
  destruct (res (on_querySelector (script w) (S (calls w)))) as [e|n2] eqn:R;
    [discriminate|].
  destruct (negb (n2 =? 0)) eqn:Z2; [discriminate|].
  unfold ret. intros H; injection H as <-. cbn [trace].
  eexists; eexists; eexists. split; [reflexivity|].
  apply negb_false_iff, Z.eqb_eq in Z2. subst n2. exact R.
Qed.

(** The error an attempt leaves is the failure its trace ends with,
    unless it is a stale element before the last attempt. *)
Lemma attempt_body_failure fuel att k w :
  match attempt_body fuel att k w with
  | (Ok (Some e, Break), w') =>
      last_failure (script w) (basename (path att)) (trace w') e
  | (Ok (Some e, Next), w') =>
      last_failure (script w) (basename (path att)) (trace w') e
      \/ k < maxAttempts
  | _ => True
  end.
Proof.
  unfold attempt_body. unfold bind at 1. unfold invoke at 1.
  destruct (res (on_getDocument (script w) (calls w))) as [e|root]; [exact I|].
  unfold bind at 1.
  match goal with |- context [locate root ?sels ?w0] =>
    pose proof (locate_finds_nothing root w0) as L;
    pose proof (steady_locate root sels w0) as (Sl & _);
    destruct (locate root sels w0) as [[[node|]|e|] w1] end;
    cbn [script snd] in L, Sl; try exact I.
  2:{ unfold ret. left. left. split; [reflexivity|].
      destruct (L w1 eq_refl) as (k0 & t & rest & Tr & R).
      exists root, k0, t, rest. auto. }
  clear L. unfold try_catch. unfold bind at 1. unfold invoke at 1.
  destruct (res (on_setFileInputFiles (script w1) (calls w1))) as [e|[]] eqn:R.
  { destruct (is_stale e && (k <? maxAttempts)) eqn:St.
    - unfold bind, log, ret. right. apply andb_true_iff in St.
      destruct St as (_ & St). apply Z.ltb_lt in St. exact St.
    - unfold ret. cbn [trace]. right. right. left.
      eexists; eexists; eexists; eexists; eexists. split; [reflexivity|].
      rewrite <- Sl. exact R. }
  unfold bind at 1.
  match goal with |- context [waitForAttachmentSelection fuel ?name 10000 ?w2] =>
    pose proof (waitForAttachmentSelection_trace fuel name w2) as G;
    destruct (waitForAttachmentSelection fuel name 10000 w2) as [[[|]|e|] w3] end;
    cbn [script] in G; try exact I.
  - unfold ret. left. right. left. split; [reflexivity|].
    destruct G as (k0 & t & rest & Tr & Rs).
    exists k0, t, rest. split; [exact Tr|]. rewrite <- Sl. exact Rs.
  - destruct (is_stale e && (k <? maxAttempts)) eqn:St.
    + unfold bind, log, ret. right. apply andb_true_iff in St.
      destruct St as (_ & St). apply Z.ltb_lt in St. exact St.
    + unfold ret. right. right. right.
      destruct G as (k0 & t & rest & Tr & Rs).
      exists k0, t, rest. split; [exact Tr|]. rewrite <- Sl. exact Rs.
Qed.

(** The error the attempts leave is the failure the trace ends with. *)
Lemma upload_attempts_failure att : forall fuel k last w,
  (maxAttempts < k ->
   match last with
   | Some e => last_failure (script w) (basename (path att)) (trace w) e
   | None => True
   end) ->
  match upload_attempts fuel att k last w with
  | (Ok (Some e), w') => last_failure (script w) (basename (path att)) (trace w') e
  | _ => True
  end.
Proof.
  unfold maxAttempts.
  induction fuel as [|fuel IH]; intros k last w Hl; [exact I|].
  cbn [upload_attempts]. unfold maxAttempts.
  destruct (k <=? 3) eqn:K.
  - apply Z.leb_le in K. unfold bind at 1.
    pose proof (attempt_body_failure fuel att k w) as A.
    pose proof (steady_attempt_body fuel att k w) as (Sc & _).
    pose proof (attempt_next fuel att k w) as Nx.
    destruct (attempt_body fuel att k w) as [[[[e|] [|]]|e|] w1];
      cbn [snd] in Sc; try exact I; try exact A.
    + unfold bind at 1. unfold maxAttempts in A.
      destruct w1 as [s1 n1 c1 f1 t1]. cbn [script] in Sc. subst s1.
      destruct (k <? 3) eqn:K3; cbn [when].
      * unfold delay at 1. cbn [script now calls session_file trace].
        match goal with |- context [upload_attempts fuel att (k + 1) (Some e) ?w2] =>
          specialize (IH (k + 1) (Some e) w2) end.
        cbn [script trace] in IH. apply IH.
        intros Gt. apply Z.ltb_lt in K3. lia.
      * unfold ret at 1.
        match goal with |- context [upload_attempts fuel att (k + 1) (Some e) ?w2] =>
          specialize (IH (k + 1) (Some e) w2) end.
        cbn [script trace] in IH. apply IH. intros _.
        apply Z.ltb_ge in K3. cbn [trace] in A. destruct A as [A|A]; [exact A|lia].
    + destruct (Nx None w1 eq_refl) as [N|[N|(x & N & _)]]; discriminate N.
  - apply Z.leb_gt in K. unfold ret. destruct last as [e|]; [|exact I].
    apply (Hl K).
Qed.

(** X18.  [uploadAttachmentFile] ends.  It returns only after a check
    of the file input found the file, a settling pause of two seconds and
    the line that the file is queued.  Without the DOM domain it throws
    at once and touches nothing; otherwise it throws either what a fetch
    of the document or a query of a file input was rejected with, or,
    after logging the capture of the page, the error of its last
    attempt: the locate failure when the last query found no file input,
    the mismatch when the wait for the registration gave up, and
    otherwise what the assignment or a check of the file input was
    rejected with. *)
Theorem uploadAttachmentFile_outcome
  (fuel : nat) (dom : bool) (attachment : BrowserAttachment) (w : world) :
  (71 <= fuel)%nat ->
  match uploadAttachmentFile fuel dom attachment w with
  | (Ok _, w') =>
      dom = true
      /\ exists tr,
           trace w' = Logged (LQueued (displayPath attachment)) :: Slept 2000 :: tr
           /\ registered (script w) (basename (path attachment)) tr
  | (Throw e, w') =>
      (dom = false /\ w' = w /\ e = no_dom_error)
      \/ (dom = true
          /\ (dom_rejected (script w) (trace w') e
              \/ exists tr,
                   trace w' = Logged (LDomFailure "file-upload") :: tr
                   /\ last_failure (script w) (basename (path attachment)) tr e))
  | (Cut, _) => False
  end.
Proof.
  intros Hf. unfold uploadAttachmentFile. destruct dom; cbn [negb].
  - unfold bind at 1.
    pose proof (upload_attempts_ends attachment fuel 1 None w ltac:(lia)
                  ltac:(cbn; lia) ltac:(right; unfold maxAttempts; lia)) as U.
    pose proof (upload_attempts_failure attachment fuel 1 None w
                  ltac:(unfold maxAttempts; lia)) as F.
    destruct (upload_attempts fuel attachment 1 None w) as [[[e|]|e|] w1].
    + cbv beta iota zeta delta [bind logDomFailure log throw record trace].
      right. split; [reflexivity|]. right. eauto.
    + cbv beta iota zeta delta [bind delay log record trace].
      split; [reflexivity|]. eexists. split; [reflexivity|exact U].
    + right. split; [reflexivity|]. left. exact U.
    + contradiction.
  - unfold throw. left. auto.
Qed.

Example uploadAttachmentFile_outcome_witness :
  let w := start (uploader 7 accepted false) in
  (71 <= 100)%nat
  /\ match uploadAttachmentFile 100 true report w with
     | (Ok _, w') =>
         true = true
         /\ exists tr,
              trace w' = Logged (LQueued (displayPath report)) :: Slept 2000 :: tr
              /\ registered (script w) (basename (path report)) tr
     | (Throw e, w') =>
         (true = false /\ w' = w /\ e = no_dom_error)
         \/ (true = true
             /\ (dom_rejected (script w) (trace w') e
                 \/ exists tr,
                      trace w' = Logged (LDomFailure "file-upload") :: tr
                      /\ last_failure (script w) (basename (path report)) tr e))
     | (Cut, _) => False
     end.
Proof.
  cbv zeta. assert (L : (71 <= 100)%nat) by (apply Nat.leb_le; reflexivity).
  split; [exact L|].
  exact (uploadAttachmentFile_outcome 100 true report
           (start (uploader 7 accepted false)) L).
Defined.

End AttachExtra.

(** ** The thinking status monitor *)

Module MonitorFacts.
Import JS Monitor.

Lemma consistent_start d : consistent (startThinkingStatusMonitor d).
Proof.
  unfold consistent. cbn. repeat split; try discriminate; auto.
Qed.

Lemma consistent_step m ev : consistent m -> consistent (step m ev).
Proof.
  destruct m as [d st pe last ph n ls]. unfold consistent.
  cbn [pending at_phase lastMessage includeDiagnostics lines].
  intros (P & L & N & F).
  destruct ev as [|r|r|]; cbn [step stopped pending at_phase lastMessage
                                 includeDiagnostics lines samples].
  - destruct (st || pe) eqn:B; cbn [pending at_phase lastMessage
                                      includeDiagnostics lines].
    + auto.
    + apply orb_false_iff in B. destruct B as (_ & ->).
      destruct ph as [| |text]; try (destruct P as (_ & P); discriminate P; discriminate).
      repeat split; auto; discriminate.
  - destruct ph as [| |text]; cbn [pending at_phase lastMessage
                                     includeDiagnostics lines]; auto.
    assert (Idle : forall ls' last',
               last' = match ls' with l :: _ => Some (message l) | [] => None end ->
               no_repeat (map message ls') ->
               Forall (fun l => message l <> EmptyString) ls' ->
               (false = true <-> Resting <> Resting)
               /\ last' = match ls' with l :: _ => Some (message l) | [] => None end
               /\ no_repeat (map message ls')
               /\ Forall (fun l => message l <> EmptyString) ls').
    { intros ls' last' A B C. repeat split; auto; try discriminate. }
    destruct r as [[text|]|]; unfold finish;
      cbn [truthy_opt andb pending at_phase lastMessage
           includeDiagnostics lines stopped samples]; try (apply Idle; assumption).
    destruct (truthy_str text && negb (opt_eqb (Some text) last)) eqn:C;
      cbn [pending at_phase lastMessage includeDiagnostics lines stopped samples];
      [|apply Idle; assumption].
    apply andb_true_iff in C. destruct C as (Tr & Ne).
    assert (Nt : text <> EmptyString).
    { intros ->. discriminate Tr. }
    assert (Nl : match ls with l :: _ => message l <> text | [] => True end).
    { destruct ls as [|l ls']; [exact I|]. intros E. subst last.
      cbn in Ne. rewrite E, String.eqb_refl in Ne. discriminate Ne. }
    destruct d; cbn [pending at_phase lastMessage includeDiagnostics lines].
    + repeat split; auto; discriminate.
    + apply (Idle (Line text EmptyString :: ls) (Some text));
        [reflexivity| |constructor; assumption].
      cbn [map message]. destruct ls as [|l ls']; [exact I|].
      cbn [map] in *. split; [congruence|exact N].
  - destruct ph as [| |text]; cbn [pending at_phase lastMessage
                                     includeDiagnostics lines]; auto.
    destruct L as (-> & Hd & Nt & Nl). unfold finish.
    cbn [pending at_phase lastMessage includeDiagnostics lines stopped samples message].
    repeat split; auto; try discriminate.
    cbn [map message]. destruct ls as [|l ls']; [exact I|].
    cbn [map] in *. split; [congruence|exact N].
  - destruct st; cbn [pending at_phase lastMessage includeDiagnostics lines]; auto.
Qed.

Lemma consistent_run evs : forall m, consistent m -> consistent (run evs m).
Proof.
  unfold run. induction evs as [|ev evs IH]; intros m C; [exact C|].
  cbn [fold_left]. apply IH. apply consistent_step. exact C.
Qed.

(** X19.  The monitor never logs the same message twice in a row, and
    never an empty one, whatever the order in which the interval fires,
    the readings arrive and the stop function is called; and a callback
    is running exactly while [pending] is set. *)
Theorem monitor_never_repeats (diagnostics : bool) (evs : list event) :
  let m := run evs (startThinkingStatusMonitor diagnostics) in
  no_repeat (map message (lines m))
  /\ Forall (fun l => message l <> EmptyString) (lines m)
  /\ (pending m = true <-> at_phase m <> Resting).
Proof.
  cbv zeta.
  destruct (consistent_run evs _ (consistent_start diagnostics)) as (P & _ & N & F).
  auto.
Qed.

(** A sample is started only when the one before was answered. *)
Lemma samples_bound evs : forall m,
  (pending m = true <-> at_phase m <> Resting) ->
  (samples (run evs m) + match at_phase m with Reading => 1 | _ => 0 end
   <= samples m + status_reads evs
      + match at_phase (run evs m) with Reading => 1 | _ => 0 end)%nat
  /\ (pending (run evs m) = true <-> at_phase (run evs m) <> Resting).
Proof.
  unfold run. induction evs as [|ev evs IH]; intros m P;
    [cbn [fold_left status_reads]; split; [lia|exact P]|].
  cbn [fold_left].
  assert (S1 : (samples (step m ev) + match at_phase m with Reading => 1 | _ => 0 end
                <= samples m + match ev with StatusRead _ => 1 | _ => 0 end
                   + match at_phase (step m ev) with Reading => 1 | _ => 0 end)%nat
               /\ (pending (step m ev) = true <-> at_phase (step m ev) <> Resting)).
  { destruct m as [d st pe last ph n ls]. cbn [pending at_phase samples] in *.
    destruct ev as [|r|r|]; cbn [step stopped pending at_phase lastMessage
                                   includeDiagnostics lines samples].
    - destruct st, pe; cbn [orb pending at_phase samples]; try (split; [lia|exact P]).
      destruct ph; try (destruct P as (_ & P); discriminate P; discriminate).
      split; [lia|]. split; [discriminate|reflexivity].
    - destruct ph as [| |text]; cbn [pending at_phase samples];
        try (split; [lia|exact P]).
      destruct r as [[text|]|]; unfold finish; cbn [truthy_opt andb];
        try destruct (truthy_str text && negb (opt_eqb (Some text) last));
        try destruct d; cbn [pending at_phase samples];
        (split; [lia|]); split; intros H; try discriminate H; try contradiction;
        try reflexivity; congruence.
    - destruct ph as [| |text]; cbn [pending at_phase samples];
        try (split; [lia|exact P]).
      unfold finish. cbn [pending at_phase samples].
      split; [lia|]. split; intros H; [discriminate H|contradiction].
    - destruct st; cbn [pending at_phase samples]; split; try lia; exact P. }
  destruct S1 as (B1 & P1). destruct (IH (step m ev) P1) as (B2 & P2).
  split; [|exact P2].
  destruct ev; cbn [status_reads]; lia.
Qed.

(** X20.  The samples of the monitor never overlap: a reading of the
    status is started only after the one before was answered, so at any
    time the monitor has started at most one reading more than were
    answered, and none more while no callback is running. *)
Theorem monitor_samples_one_at_a_time (diagnostics : bool) (evs : list event) :
  let m := run evs (startThinkingStatusMonitor diagnostics) in
  (samples m <= status_reads evs + (if pending m then 1 else 0))%nat.
Proof.
  cbv zeta.
  destruct (samples_bound evs (startThinkingStatusMonitor diagnostics)) as (B & P).
  - cbn. split; [discriminate|intros H; contradiction].
  - cbn [startThinkingStatusMonitor samples at_phase] in B.
    fold (startThinkingStatusMonitor diagnostics) in B.
    revert B P.
    destruct (at_phase (run evs (startThinkingStatusMonitor diagnostics))) eqn:Ph;
      intros B P; try (destruct (pending _); lia).
    replace (pending (run evs (startThinkingStatusMonitor diagnostics))) with true;
      [lia|]. symmetry. apply P. discriminate.
Qed.

(** A stopped monitor at rest stays as it is. *)
Lemma stopped_at_rest evs : forall m,
  stopped m = true -> at_phase m = Resting -> run evs m = m.
Proof.
  unfold run. induction evs as [|ev evs IH]; intros m St Ph; [reflexivity|].
  cbn [fold_left].
  replace (step m ev) with m; [apply IH; assumption|].
  destruct m as [d st pe last ph n ls]. cbn [stopped at_phase] in *. subst st ph.
  destruct ev; reflexivity.
Qed.

(** A stopped monitor starts no sample and logs at most the line of the
    callback that is running. *)
Lemma stopped_winds_down evs : forall m,
  stopped m = true ->
  stopped (run evs m) = true
  /\ samples (run evs m) = samples m
  /\ (lines (run evs m) = lines m
      \/ (at_phase m <> Resting /\ exists l, lines (run evs m) = l :: lines m)).
Proof.
  unfold run. induction evs as [|ev evs IH]; intros m St; [auto|].
  cbn [fold_left].
  destruct (at_phase m) eqn:Ph.
  - fold (run evs (step m ev)).
    replace (step m ev) with m.
    + rewrite stopped_at_rest by assumption. auto.
    + destruct m as [d st pe last ph n ls]. cbn [stopped at_phase] in *. subst st ph.
      destruct ev; reflexivity.
  - destruct m as [d st pe last ph n ls]. cbn [stopped at_phase samples lines] in *.
    subst st ph.
    destruct ev as [|r|r|]; cbn [step stopped pending at_phase orb lastMessage includeDiagnostics
                                   samples lines];
      try (destruct (IH (Monitor_ d true pe last Reading n ls) eq_refl)
             as (A & B & [C|(C1 & C2)]); cbn [samples lines at_phase] in *;
           repeat split; auto; right; (split; [discriminate|exact C2])).
    assert (Fin : forall last' l,
              let m' := finish (Monitor_ d true pe last Reading n ls) last' l in
              stopped (fold_left step evs m') = true
              /\ samples (fold_left step evs m') = n
              /\ (lines (fold_left step evs m') = ls
                  \/ Reading <> Resting
                     /\ exists x, lines (fold_left step evs m') = x :: ls)).
    { intros last' l. cbv zeta. fold (run evs (finish (Monitor_ d true pe last Reading n ls) last' l)).
      rewrite stopped_at_rest by reflexivity.
      unfold finish. cbn [stopped samples lines].
      repeat split. destruct l as [x|]; [right|left; reflexivity].
      split; [discriminate|eauto]. }
    destruct r as [[text|]|]; cbn [truthy_opt andb]; try apply Fin.
    destruct (truthy_str text && negb (opt_eqb (Some text) last)); try apply Fin.
    destruct d; try apply Fin.
    destruct (IH (Monitor_ true true true (Some text) (Snapshotting text) n ls) eq_refl)
      as (A & B & [C|(C1 & C2)]); cbn [samples lines at_phase] in *;
      repeat split; auto; right; (split; [discriminate|exact C2]).
  - destruct m as [d st pe last ph n ls]. cbn [stopped at_phase samples lines] in *.
    subst st ph.
    destruct ev as [|r|r|]; cbn [step stopped pending at_phase orb lastMessage includeDiagnostics
                                   samples lines];
      try (destruct (IH (Monitor_ d true pe last (Snapshotting message0) n ls) eq_refl)
             as (A & B & [C|(C1 & C2)]); cbn [samples lines at_phase] in *;
           repeat split; auto; right; (split; [discriminate|exact C2])).
    match goal with |- context [fold_left step evs ?m'] =>
      fold (run evs m'); rewrite (stopped_at_rest evs m') by reflexivity end.
    unfold finish. cbn [stopped samples lines].
    repeat split. right. split; [discriminate|eauto].
Qed.

(** X21.  Stopping the monitor is final: whatever happens after the
    stop function was called, no further reading of the status is
    started, and at most one more line is logged, the line of the
    callback that was running when the monitor was stopped; with no
    callback running nothing is logged any more.  A second call of the
    stop function changes nothing. *)
Theorem monitor_stop_is_final
  (diagnostics : bool) (before after : list event) :
  let m1 := run (before ++ [Stop]) (startThinkingStatusMonitor diagnostics) in
  let m2 := run after m1 in
  stopped m2 = true
  /\ samples m2 = samples m1
  /\ (length (lines m2) <= length (lines m1) + 1)%nat
  /\ (pending m1 = false -> lines m2 = lines m1)
  /\ step m1 Stop = m1.
Proof.
  cbv zeta.
  set (m1 := run (before ++ [Stop]) (startThinkingStatusMonitor diagnostics)).
  assert (St : stopped m1 = true).
  { subst m1. unfold run. rewrite fold_left_app. cbn [fold_left step].
    destruct (stopped (fold_left step before _)) eqn:S0; [exact S0|reflexivity]. }
  assert (C : consistent m1)
    by (apply consistent_run, consistent_start).
  destruct (stopped_winds_down after m1 St) as (A & B & L).
  split; [exact A|]. split; [exact B|]. split; [|split].
  - destruct L as [->|(_ & l & ->)]; cbn [length]; lia.
  - intros Pe. destruct L as [L|(Ph & _)]; [exact L|].
    destruct C as (P & _). apply P in Ph. congruence.
  - destruct m1 as [d st pe last ph n ls]. cbn [stopped] in St. subst st. reflexivity.
Qed.

End MonitorFacts.

(** ** The Gemini page actions *)

Module GeminiFacts.
Import JS Remote Gemini GeminiSpec.
Local Open Scope gemini_scope.

Lemma truthy_str_true t : truthy_str t = true <-> t <> EmptyString.
Proof.
  unfold truthy_str. destruct (String.eqb_spec t EmptyString); cbn; split;
    congruence.
Qed.

(** A reading keeps what the loop knows. *)
Lemma tracked_observe s c0 k last stable text :
  (c0 <= k)%nat -> tracked s c0 k last stable -> answered s k text ->
  tracked s c0 (S k) (fst (observe text last stable)) (snd (observe text last stable)).
Proof.
  intros Hc (E & Ne & Last & Le) A. unfold observe.
  destruct (truthy_str text) eqn:T; cbn [andb].
  - apply truthy_str_true in T.
    destruct (String.eqb_spec text last) as [->|D]; cbn [negb fst snd].
    + split; [intros H; contradiction|]. split; [|split].
      * intros _. destruct (Ne T) as (k0 & Hk & A0 & Af). exists k0.
        split; [lia|]. split; [exact A0|].
        intros j Hj. destruct (Nat.eq_dec j k) as [->|Dj]; [left; exact A|].
        apply Af. lia.
      * intros j Hj. destruct (Nat.eq_dec j k) as [->|Dj]; [exact A|].
        apply Last. lia.
      * lia.
    + split; [intros H; contradiction|]. split; [|split].
      * intros _. exists k. split; [lia|]. split; [exact A|]. intros j Hj. lia.
      * intros j Hj. lia.
      * lia.
  - assert (text = EmptyString) as ->.
    { destruct (String.eqb_spec text EmptyString) as [->|D]; [reflexivity|].
      apply truthy_str_true in D. congruence. }
    cbn [fst snd]. split; [|split; [|split]].
    + intros El. destruct (E El) as (_ & B). split; [reflexivity|].
      intros j Hj. destruct (Nat.eq_dec j k) as [->|Dj]; [exact A|]. apply B. lia.
    + intros Nl. destruct (Ne Nl) as (k0 & Hk & A0 & Af). exists k0.
      split; [lia|]. split; [exact A0|].
      intros j Hj. destruct (Nat.eq_dec j k) as [->|Dj]; [right; exact A|].
      apply Af. lia.
    + intros j Hj. lia.
    + lia.
Qed.

(** The loop of [waitForGeminiResponse], with an iteration for every
    400 ms left to its deadline. *)
Lemma response_loop_returns n : forall dl last stable w c0,
  (c0 <= g_calls w)%nat -> tracked (g_script w) c0 (g_calls w) last stable ->
  dl - g_now w <= Z.of_nat n * 400 ->
  match response_loop (S n) dl last stable w with
  | (Ok text, w') =>
      text <> EmptyString
      /\ ((exists m rest,
             (requiredStableCycles <= m)%nat
             /\ tracked (g_script w) c0 (g_calls w') text m
             /\ g_trace w' = GCalled GResponse (g_calls w' - 1) (g_now w') :: rest)
          \/ (dl <= g_now w'
              /\ (exists rest, g_trace w' = GLogged watchdog_line :: rest)
              /\ exists k0, (c0 <= k0 < g_calls w')%nat
                            /\ captured_last (g_script w) k0 (g_calls w') text))
  | (Throw e, w') =>
      call_rejected (g_trace w') (g_script w) e
      \/ (e = response_error /\ dl <= g_now w'
          /\ forall j, (c0 <= j < g_calls w')%nat ->
                       answered (g_script w) j EmptyString)
  | (Cut, _) => False
  end.
Proof.
  assert (Exit : forall dl last stable w c0,
    (c0 <= g_calls w)%nat -> tracked (g_script w) c0 (g_calls w) last stable ->
    dl <= g_now w ->
    match (if truthy_str last then glog watchdog_line ;;; gret last
           else gthrow response_error) w with
    | (Ok text, w') =>
        text <> EmptyString
        /\ ((exists m rest,
               (requiredStableCycles <= m)%nat
               /\ tracked (g_script w) c0 (g_calls w') text m
               /\ g_trace w' = GCalled GResponse (g_calls w' - 1) (g_now w') :: rest)
            \/ (dl <= g_now w'
                /\ (exists rest, g_trace w' = GLogged watchdog_line :: rest)
                /\ exists k0, (c0 <= k0 < g_calls w')%nat
                              /\ captured_last (g_script w) k0 (g_calls w') text))
    | (Throw e, w') =>
        call_rejected (g_trace w') (g_script w) e
        \/ (e = response_error /\ dl <= g_now w'
            /\ forall j, (c0 <= j < g_calls w')%nat ->
                         answered (g_script w) j EmptyString)
    | (Cut, _) => False
    end).
  { intros dl last stable w c0 Hc (E & Ne & Last & Le) T.
    destruct (truthy_str last) eqn:Tl.
    - apply truthy_str_true in Tl. unfold gbind, glog, gret.
      cbn [g_now g_trace g_calls g_script].
      split; [exact Tl|]. right. split; [exact T|]. split; [eauto|].
      destruct (Ne Tl) as (k0 & Hk & A0). exists k0. split; [lia|exact A0].
    - unfold gthrow. right. split; [reflexivity|]. split; [exact T|].
      assert (last = EmptyString) as El.
      { destruct (String.eqb_spec last EmptyString) as [->|D]; [reflexivity|].
        apply truthy_str_true in D. congruence. }
      apply (E El). }
  induction n as [|n IH]; intros dl last stable w c0 Hc Tk Hd.
  - cbn [response_loop]. unfold gbind at 1, gnow.
    destruct (g_now w <? dl) eqn:T; [apply Z.ltb_lt in T; lia|].
    apply Z.ltb_ge in T. apply (Exit dl last stable w c0 Hc Tk T).
  - remember (S n) as f eqn:Ef. cbn [response_loop]. unfold gbind at 1, gnow.
    destruct (g_now w <? dl) eqn:T;
      [|apply Z.ltb_ge in T; apply (Exit dl last stable w c0 Hc Tk T)].
    unfold gbind at 1. unfold ginvoke at 1.
    destruct (res (g_response (g_script w) (g_calls w))) as [e|v] eqn:R.
    { left. cbn [g_trace g_script]. eexists; eexists; eexists; eexists.
      split; [reflexivity|exact R]. }
    cbv zeta.
    assert (A : answered (g_script w) (g_calls w) (text_of v)) by (exists v; auto).
    pose proof (tracked_observe _ _ _ _ _ _ Hc Tk A) as Tk'.
    destruct (observe (text_of v) last stable) as [last' stable'] eqn:Ob.
    cbn [fst snd] in Tk'.
    destruct (truthy_str (text_of v) && (requiredStableCycles <=? stable')%nat) eqn:C.
    + apply andb_true_iff in C. destruct C as (Tt & Ge).
      apply Nat.leb_le in Ge. unfold gret. cbn [g_trace g_script g_calls g_now].
      assert (last' = text_of v).
      { unfold observe in Ob. rewrite Tt in Ob. cbn [andb] in Ob.
        destruct (String.eqb_spec (text_of v) last) as [E|D]; cbn [negb] in Ob.
        - injection Ob as <- _. exact (eq_sym E).
        - injection Ob as <- _. reflexivity. }
      subst last'. split; [apply truthy_str_true; exact Tt|]. left.
      exists stable'. eexists. split; [exact Ge|]. split; [exact Tk'|].
      replace (S (g_calls w) - 1)%nat with (g_calls w) by lia. reflexivity.
    + unfold gbind at 1. unfold gdelay at 1.
      cbn [g_script g_now g_calls g_trace].
      match goal with |- context [response_loop f dl last' stable' ?w3] =>
        specialize (IH dl last' stable' w3 c0) end.
      cbn [g_script g_now g_calls] in IH. subst f. apply IH; [lia|exact Tk'|lia].
Qed.

(** X22.  [waitForGeminiResponse] ends, with an iteration for every
    400 ms of its timeout.  It returns a text before the deadline only
    when the last six readings all gave that text, which is not empty,
    after an earlier reading had given it first.  After the deadline it
    returns the text that was captured last, with the watchdog line: a
    reading gave it, and no later reading gave another text.  It throws
    its timeout error only when no reading gave any text, and nothing
    else but what a reading is rejected with. *)
Theorem waitForGeminiResponse_debounced (n : nat) (timeoutMs : Z) (w : gworld) :
  timeoutMs <= Z.of_nat n * 400 ->
  match waitForGeminiResponse (S n) timeoutMs w with
  | (Ok text, w') =>
      text <> EmptyString
      /\ ((exists k0,
             (g_calls w <= k0 < g_calls w' - 6)%nat
             /\ captured_last (g_script w) k0 (g_calls w') text
             /\ (forall j, (g_calls w' - 6 <= j < g_calls w')%nat ->
                           answered (g_script w) j text)
             /\ exists rest,
                  g_trace w' = GCalled GResponse (g_calls w' - 1) (g_now w') :: rest)
          \/ (g_now w + timeoutMs <= g_now w'
              /\ (exists rest, g_trace w' = GLogged watchdog_line :: rest)
              /\ exists k0, (g_calls w <= k0 < g_calls w')%nat
                            /\ captured_last (g_script w) k0 (g_calls w') text))
  | (Throw e, w') =>
      call_rejected (g_trace w') (g_script w) e
      \/ (e = response_error /\ g_now w + timeoutMs <= g_now w'
          /\ forall j, (g_calls w <= j < g_calls w')%nat ->
                       answered (g_script w) j EmptyString)
  | (Cut, _) => False
  end.
Proof.
  intros Hn. unfold waitForGeminiResponse. unfold gbind at 1. unfold glog at 1.
  unfold gbind at 1. unfold gnow at 1. cbn [g_now].
  match goal with |- context [response_loop (S n) ?dl _ _ ?w0] =>
    pose proof (response_loop_returns n dl EmptyString 0 w0 (g_calls w)) as H end.
  cbn [g_calls g_script g_now] in H.
  assert (T0 : tracked (g_script w) (g_calls w) (g_calls w) EmptyString 0).
  { split; [|split; [|split]].
    - intros _. split; [reflexivity|]. intros j Hj. lia.
    - intros H0. congruence.
    - intros j Hj. lia.
    - lia. }
  specialize (H (le_n _) T0 ltac:(lia)).
  match goal with |- context [response_loop (S n) ?dl ?l ?c ?w0] =>
    destruct (response_loop (S n) dl l c w0) as [[text|e|] w'] end; try exact H.
  destruct H as (Nt & [(m & rest & Ge & (_ & Ne & Last & Le) & Tr)|Late]).
  - split; [exact Nt|]. left. unfold requiredStableCycles in Ge.
    destruct (Ne Nt) as (k0 & Hk & A0). exists k0.
    split; [lia|]. split; [exact A0|]. split; [|eauto].
    intros j Hj. apply Last. lia.
  - split; [exact Nt|]. right. exact Late.
Qed.

Example waitForGeminiResponse_debounced_witness :
  let w := gstart (fading_page "Draft" "Answer") in
  2000 <= Z.of_nat 5 * 400
  /\ match waitForGeminiResponse 6 2000 w with
     | (Ok text, w') =>
         text <> EmptyString
         /\ ((exists k0,
                (g_calls w <= k0 < g_calls w' - 6)%nat
                /\ captured_last (g_script w) k0 (g_calls w') text
                /\ (forall j, (g_calls w' - 6 <= j < g_calls w')%nat ->
                              answered (g_script w) j text)
                /\ exists rest,
                     g_trace w' = GCalled GResponse (g_calls w' - 1) (g_now w') :: rest)
             \/ (g_now w + 2000 <= g_now w'
                 /\ (exists rest, g_trace w' = GLogged watchdog_line :: rest)
                 /\ exists k0, (g_calls w <= k0 < g_calls w')%nat
                               /\ captured_last (g_script w) k0 (g_calls w') text))
     | (Throw e, w') =>
         call_rejected (g_trace w') (g_script w) e
         \/ (e = response_error /\ g_now w + 2000 <= g_now w'
             /\ forall j, (g_calls w <= j < g_calls w')%nat ->
                          answered (g_script w) j EmptyString)
     | (Cut, _) => False
     end.
Proof.
  cbv zeta. assert (L : 2000 <= Z.of_nat 5 * 400) by (vm_compute; discriminate).
  split; [exact L|].
  exact (waitForGeminiResponse_debounced 5 2000
           (gstart (fading_page "Draft" "Answer")) L).
Defined.

(** A page that shows a draft, then the answer, then nothing: after the
    deadline the answer is returned, not the draft. *)
Example fading_page_answers :
  let r := waitForGeminiResponse 6 2000 (gstart (fading_page "Draft" "Answer")) in
  fst r = Ok "Answer" /\ g_calls (snd r) = 5%nat /\ g_now (snd r) = 2000.
Proof. cbv zeta. repeat split; vm_compute; reflexivity. Qed.

(** The settled page is answered after seven readings, 2400 ms after the
    start, with the trimmed text. *)
Example settled_page_answers :
  let r := waitForGeminiResponse 11 4000 (gstart (settled_page " Hello ")) in
  fst r = Ok "Hello" /\ g_calls (snd r) = 7%nat /\ g_now (snd r) = 2400.
Proof. cbv zeta. repeat split; vm_compute; reflexivity. Qed.

(** The loop of [waitForDocumentReady], with an iteration for every
    100 ms left of its timeout. *)
Lemma document_loop_returns n : forall start timeoutMs w,
  timeoutMs - (g_now w - start) <= Z.of_nat n * 100 ->
  match document_loop (S n) start timeoutMs w with
  | (Ok _, w') =>
      exists k t rest v,
        g_trace w' = GCalled GReadyState k t :: rest
        /\ res (g_readyState (g_script w) k) = inr v /\ is_ready v = true
  | (Throw e, w') =>
      call_rejected (g_trace w') (g_script w) e
      \/ (e = ready_error /\ start + timeoutMs <= g_now w')
  | (Cut, _) => False
  end.
Proof.
  induction n as [|n IH]; intros start timeoutMs w Hd.
  - cbn [document_loop]. unfold gbind at 1, gnow.
    destruct (g_now w - start <? timeoutMs) eqn:T; [apply Z.ltb_lt in T; lia|].
    apply Z.ltb_ge in T. unfold gthrow. right. split; [reflexivity|lia].
  - remember (S n) as f eqn:Ef. cbn [document_loop]. unfold gbind at 1, gnow.
    destruct (g_now w - start <? timeoutMs) eqn:T.
    + unfold gbind at 1. unfold ginvoke at 1.
      destruct (res (g_readyState (g_script w) (g_calls w))) as [e|v] eqn:R.
      * left. cbn [g_trace g_script]. eexists; eexists; eexists; eexists.
        split; [reflexivity|exact R].
      * destruct (is_ready v) eqn:Rd.
        -- unfold gret. cbn [g_trace g_script].
           eexists; eexists; eexists; exists v. split; [reflexivity|auto].
        -- unfold gbind at 1. unfold gdelay at 1.
           cbn [g_script g_now g_calls g_trace].
           match goal with |- context [document_loop f start timeoutMs ?w3] =>
             specialize (IH start timeoutMs w3) end.
           cbn [g_script g_now] in IH. subst f. apply IH. lia.
    + apply Z.ltb_ge in T. unfold gthrow. right. split; [reflexivity|lia].
Qed.

(** X23.  [navigateToGemini] ends.  It returns only after a reading of
    the ready state gave complete or interactive; unlike the recovery of
    a ChatGPT session it does not go on with a page that is still
    loading: after 45 seconds it throws its own error.  It throws nothing
    else but what the navigation or a reading is rejected with. *)
Theorem navigateToGemini_outcome (fuel : nat) (url : string) (w : gworld) :
  (451 <= fuel)%nat ->
  match navigateToGemini fuel url w with
  | (Ok _, w') =>
      exists k t rest v,
        g_trace w' = GCalled GReadyState k t :: rest
        /\ res (g_readyState (g_script w) k) = inr v /\ is_ready v = true
  | (Throw e, w') =>
      call_rejected (g_trace w') (g_script w) e
      \/ (e = ready_error /\ g_now w + 45000 <= g_now w')
  | (Cut, _) => False
  end.
Proof.
  intros Hf. destruct fuel as [|f]; [lia|].
  unfold navigateToGemini. unfold gbind at 1. unfold glog at 1.
  unfold gbind at 1. unfold ginvoke at 1. cbn [g_script g_now g_calls g_trace].
  destruct (res (g_navigate (g_script w) (g_calls w))) as [e|[]] eqn:R.
  { left. cbn [g_trace]. eexists; eexists; eexists; eexists.
    split; [reflexivity|exact R]. }
  unfold waitForDocumentReady. unfold gbind at 1. unfold gnow at 1. cbn [g_now].
  match goal with |- context [document_loop (S f) ?st ?tm ?w0] =>
    pose proof (document_loop_returns f st tm w0) as H end.
  cbn [g_script g_now] in H.
  match type of H with ?P -> _ => assert (Hp : P) by lia end.
  specialize (H Hp).
  match goal with |- context [document_loop (S f) ?st ?tm ?w0] =>
    destruct (document_loop (S f) st tm w0) as [[[]|e|] w'] end; try exact H.
  destruct H as [H|(-> & H)]; [left; exact H|right].
  split; [reflexivity|lia].
Qed.

Example navigateToGemini_outcome_witness :
  let w := gstart blank_page in
  (451 <= 451)%nat
  /\ match navigateToGemini 451 "https://gemini.google.com/app" w with
     | (Ok _, w') =>
         exists k t rest v,
           g_trace w' = GCalled GReadyState k t :: rest
           /\ res (g_readyState (g_script w) k) = inr v /\ is_ready v = true
     | (Throw e, w') =>
         call_rejected (g_trace w') (g_script w) e
         \/ (e = ready_error /\ g_now w + 45000 <= g_now w')
     | (Cut, _) => False
     end.
Proof.
  cbv zeta. split; [apply le_n|].
  exact (navigateToGemini_outcome 451 "https://gemini.google.com/app"
           (gstart blank_page) (le_n 451)).
Defined.

(** The loop of [waitForGeminiPrompt], with an iteration for every
    200 ms left to its deadline. *)
Lemma prompt_loop_returns n : forall dl w,
  dl - g_now w <= Z.of_nat n * 200 ->
  match prompt_loop (S n) dl w with
  | (Ok b, w') =>
      if b then
        exists k t rest,
          g_trace w' = GCalled GPrompt k t :: rest
          /\ res (g_prompt (g_script w) k) = inr true
          /\ t - Z.of_N (lat (g_prompt (g_script w) k)) < dl
      else dl <= g_now w' /\ (dl <= g_now w -> w' = w)
  | (Throw e, w') => call_rejected (g_trace w') (g_script w) e
  | (Cut, _) => False
  end.
Proof.
  induction n as [|n IH]; intros dl w Hd.
  - cbn [prompt_loop]. unfold gbind at 1, gnow.
    destruct (g_now w <? dl) eqn:T; [apply Z.ltb_lt in T; lia|].
    apply Z.ltb_ge in T. unfold gret. split; [exact T|reflexivity].
  - remember (S n) as f eqn:Ef. cbn [prompt_loop]. unfold gbind at 1, gnow.
    destruct (g_now w <? dl) eqn:T.
    + apply Z.ltb_lt in T. unfold gbind at 1. unfold ginvoke at 1.
      destruct (res (g_prompt (g_script w) (g_calls w))) as [e|[|]] eqn:R.
      * cbn [g_trace g_script]. eexists; eexists; eexists; eexists.
        split; [reflexivity|exact R].
      * unfold gret. cbn [g_trace g_script].
        eexists; eexists; eexists. split; [reflexivity|]. split; [exact R|lia].
      * unfold gbind at 1. unfold gdelay at 1.
        cbn [g_script g_now g_calls g_trace].
        match goal with |- context [prompt_loop f dl ?w3] =>
          specialize (IH dl w3) end.
        cbn [g_script g_now] in IH. subst f.
        match type of IH with ?P -> _ => assert (Hp : P) by lia end.
        specialize (IH Hp).
        match goal with |- context [prompt_loop (S n) dl ?w3] =>
          destruct (prompt_loop (S n) dl w3) as [[[|]|e|] w'] end; try exact IH.
        split; [apply IH|]. intros Late. lia.
    + apply Z.ltb_ge in T. unfold gret. split; [exact T|reflexivity].
Qed.

(** X24.  [ensureGeminiPromptReady] ends, with an iteration for every
    200 ms of its timeout.  It returns only when its last check, started
    before the deadline, found the prompt, and then logs that the prompt
    is ready; when the deadline passes without one it logs that and
    throws its own error, without any check when the timeout is not
    positive.  It throws nothing else but what a check is rejected
    with. *)
Theorem ensureGeminiPromptReady_outcome (n : nat) (timeoutMs : Z) (w : gworld) :
  timeoutMs <= Z.of_nat n * 200 ->
  match ensureGeminiPromptReady (S n) timeoutMs w with
  | (Ok _, w') =>
      exists k t rest,
        g_trace w' = GLogged "Gemini prompt ready" :: GCalled GPrompt k t :: rest
        /\ res (g_prompt (g_script w) k) = inr true
        /\ t - Z.of_N (lat (g_prompt (g_script w) k)) < g_now w + timeoutMs
  | (Throw e, w') =>
      call_rejected (g_trace w') (g_script w) e
      \/ (e = prompt_error /\ g_now w + timeoutMs <= g_now w'
          /\ (exists rest,
                g_trace w'
                = GLogged "Gemini prompt textarea did not appear before timeout" :: rest)
          /\ (timeoutMs <= 0 -> g_calls w' = g_calls w))
  | (Cut, _) => False
  end.
Proof.
  intros Hn. unfold ensureGeminiPromptReady, waitForGeminiPrompt.
  unfold gbind at 1. unfold gbind at 1. unfold gnow at 1.
  pose proof (prompt_loop_returns n (g_now w + timeoutMs) w ltac:(lia)) as H.
  destruct (prompt_loop (S n) (g_now w + timeoutMs) w) as [[[|]|e|] w'];
    try exact H; cbn [negb].
  - destruct H as (k & t & rest & Tr & R & Lt).
    unfold glog. cbn [g_trace]. exists k, t, rest. rewrite Tr. auto.
  - destruct H as (Late & Same).
    unfold gbind, glog, gthrow. cbn [g_trace g_now g_calls].
    right. split; [reflexivity|]. split; [exact Late|]. split; [eauto|].
    intros Np. rewrite Same by lia. reflexivity.
  - left. exact H.
Qed.

Example ensureGeminiPromptReady_outcome_witness :
  let w := gstart (settled_page "Hello") in
  10000 <= Z.of_nat 50 * 200
  /\ match ensureGeminiPromptReady 51 10000 w with
     | (Ok _, w') =>
         exists k t rest,
           g_trace w' = GLogged "Gemini prompt ready" :: GCalled GPrompt k t :: rest
           /\ res (g_prompt (g_script w) k) = inr true
           /\ t - Z.of_N (lat (g_prompt (g_script w) k)) < g_now w + 10000
     | (Throw e, w') =>
         call_rejected (g_trace w') (g_script w) e
         \/ (e = prompt_error /\ g_now w + 10000 <= g_now w'
             /\ (exists rest,
                   g_trace w'
                   = GLogged "Gemini prompt textarea did not appear before timeout" :: rest)
             /\ (10000 <= 0 -> g_calls w' = g_calls w))
     | (Cut, _) => False
     end.
Proof.
  cbv zeta. assert (L : 10000 <= Z.of_nat 50 * 200) by (vm_compute; discriminate).
  split; [exact L|].
  exact (ensureGeminiPromptReady_outcome 50 10000 (gstart (settled_page "Hello")) L).
Defined.

End GeminiFacts.

(** ** More about the keys of file names *)

Module NormalizeExtra.
Import JS Normalize NormalizeFacts.

Lemma kept_drop_while {P : ascii -> Prop} (p : ascii -> bool) l : Forall P l -> Forall P (drop_while p l).
Proof.
  induction 1 as [|c l Hc Hl IH]; cbn; [constructor|].
  destruct (p c); [exact IH|constructor; assumption].
Qed.

Lemma kept_trim {P : ascii -> Prop} l : Forall P l -> Forall P (trim_chars l).
Proof.
  intros H. unfold trim_chars, drop_while_end.
  apply Forall_rev, kept_drop_while, Forall_rev, kept_drop_while, H.
Qed.

Lemma kept_strip_leading {P : ascii -> Prop} l : Forall P l -> Forall P (strip_leading_quote l).
Proof.
  intros H. destruct H as [|c l Hc Hl]; cbn; [constructor|].
  destruct (is_quote c); [exact Hl|constructor; assumption].
Qed.

Lemma kept_strip_quotes {P : ascii -> Prop} l : Forall P l -> Forall P (strip_quotes l).
Proof.
  intros H. unfold strip_quotes, strip_trailing_quote.
  apply Forall_rev, kept_strip_leading, Forall_rev, kept_strip_leading, H.
Qed.

Lemma kept_collapse {P : ascii -> Prop} l : P " "%char -> Forall P l ->
  forall b, Forall P (collapse_from b l).
Proof.
  intros Sp. induction 1 as [|c l Hc Hl IH]; intros b; cbn; [constructor|].
  destruct (is_space c); [destruct b|]; auto.
Qed.

Lemma kept_span_digits {P : ascii -> Prop} l : Forall P l -> Forall P (snd (span_digits l)).
Proof.
  induction 1 as [|c l Hc Hl IH]; cbn; [constructor|].
  destruct (is_digit c); [|constructor; assumption].
  destruct (span_digits l) as [n rest]. exact IH.
Qed.

Lemma kept_strip_count {P : ascii -> Prop} l : Forall P l -> Forall P (strip_count_suffix l).
Proof.
  intros H. unfold strip_count_suffix.
  destruct (strip_count_rev (rev l)) as [r|] eqn:E; [|exact H].
  apply Forall_rev. unfold strip_count_rev in E.
  pose proof (Forall_rev H) as Hr.
  destruct (rev l) as [|c r1]; [discriminate|].
  inversion Hr as [|? ? Hc H1]; subst.
  destruct (code c =? 41)%nat; [|discriminate].
  pose proof (kept_span_digits r1 H1) as Hs.
  destruct (span_digits r1) as [[|n] [|o r2]]; try discriminate.
  cbn [snd] in Hs. inversion Hs as [|? ? Ho H2]; subst.
  destruct (code o =? 40)%nat; [|discriminate].
  injection E as <-. apply kept_drop_while. exact H2.
Qed.


Lemma drop_while_last (p : ascii -> bool) l x :
  p x = false -> drop_while p (l ++ [x]) = (drop_while p l ++ [x])%list.
Proof.
  intros Hx. induction l as [|c l IH]; cbn; [rewrite Hx; reflexivity|].
  destruct (p c); [exact IH|reflexivity].
Qed.

Lemma drop_while_head (p : ascii -> bool) l :
  match drop_while p l with
  | [] => True
  | c :: _ => p c = false
  end.
Proof.
  induction l as [|c l IH]; cbn; [exact I|].
  destruct (p c) eqn:E; [exact IH|exact E].
Qed.

Lemma drop_while_id (p : ascii -> bool) l :
  match l with [] => True | c :: _ => p c = false end -> drop_while p l = l.
Proof. destruct l as [|c l]; cbn; [reflexivity|]. intros ->. reflexivity. Qed.

(** Trimming a second time changes nothing. *)
Lemma trim_chars_idem l : trim_chars (trim_chars l) = trim_chars l.
Proof.
  unfold trim_chars, drop_while_end.
  pose proof (drop_while_head is_space l) as Hm.
  destruct (drop_while is_space l) as [|x m]; [reflexivity|].
  cbn [rev]. rewrite drop_while_last by exact Hm.
  pose proof (drop_while_head is_space (rev m)) as He.
  set (e := drop_while is_space (rev m)) in *.
  rewrite rev_app_distr. cbn [rev app].
  cbn [drop_while]. rewrite Hm. cbn [rev].
  rewrite rev_involutive.
  rewrite (drop_while_id is_space (e ++ [x])).
  - rewrite rev_app_distr. reflexivity.
  - destruct e; cbn; assumption.
Qed.

(** X25.  A key that [normalizeFilename] gives has no white space
    around it and no capital letter of the alphabet in it.  Taking the
    key of a key can still give another key: of a name with two counts
    only the last is removed, of a name with two quotes at an end only
    the outer one. *)
Theorem normalizeFilename_key_shape (filename : string) :
  trim_chars (chars (normalizeFilename filename)) = chars (normalizeFilename filename)
  /\ Forall (fun c => lower_char c = c) (chars (normalizeFilename filename))
  /\ normalizeFilename (normalizeFilename "a.txt (1) (2)")
     <> normalizeFilename "a.txt (1) (2)".
Proof.
  unfold normalizeFilename at 1 2 3. unfold chars at 1 3 5, str.
  rewrite !list_ascii_of_string_of_list_ascii. split; [|split].
  - apply trim_chars_idem.
  - apply kept_trim, kept_strip_count. unfold collapse_ws.
    apply kept_collapse; [reflexivity|].
    apply kept_strip_quotes, kept_trim. apply Forall_map.
    apply Forall_forall. intros c _. apply lower_char_idem.
  - vm_compute. intros H. discriminate H.
Qed.

End NormalizeExtra.

(** ** More about the attachment verification step *)

Module PipelineExtra.
Import JS Remote Attachments Pipeline PipelineFacts Scenario.




End PipelineExtra.
